(** * GreenRemote job board: ingestion, translation and query layer

    A shallow embedding of the TypeScript sources of the job board:

    - [lib/translate.ts]: [isLikelyEnglish], [translateToEnglish],
      [ensureJobEnglish], [ensureJobsEnglish];
    - [lib/job-sources.ts]: the Remotive, RemoteOK and ArbeitNow adapters and
      [fetchAllJobSources];
    - [lib/sources/jobicy.ts], [lib/scrapers/linkedinScraper.ts];
    - [app/api/fetch-jobs/route.ts], [app/api/fetch-jobs-extra/route.ts],
      [app/api/translate-jobs/route.ts];
    - [lib/jobs.ts]: [buildJobsQuery] and [getJobs];
    - [app/api/scrape-linkedin/route.ts], [lib/supabase.ts],
      [lib/scrapers/linkedinScraperSpinlud.ts];
    - the components: [JobsPagination], [JobsSearchBar], [JobsFilters] and
      the helpers of [JobCard].

    JavaScript strings are sequences of UTF-16 code units, JSON documents are
    an inductive type whose objects are finite maps, and the code that talks
    to the network or to the database runs in a small state-and-exception
    monad over an explicit [World]. *)

From Stdlib Require Import ZArith NArith List Ascii String DecimalString Bool Lia.
From stdpp Require Import base option list gmap.

Set Warnings "-register-all".

Local Open Scope N_scope.

(** ** JavaScript strings *)

(** A JavaScript string is a sequence of UTF-16 code units; [length] is the
    [.length] property. *)
Abbreviation jsstring := (list N).

(** String literals of the source that only contain ASCII characters. *)
Definition lit (s : string) : jsstring :=
  map N_of_ascii (list_ascii_of_string s).

(** A natural number printed in decimal, as template literals print it. *)
Definition decimal (n : N) : jsstring :=
  lit (DecimalString.NilZero.string_of_uint (N.to_uint n)).

(** Truthiness of a string value: only the empty string is falsy. *)
Definition str_truthy (s : jsstring) : bool :=
  match s with [] => false | _ :: _ => true end.

(** The WhiteSpace and LineTerminator code units stripped by
    [String.prototype.trim]. *)
Definition isWhiteSpace (u : N) : bool :=
  ((0x09 <=? u) && (u <=? 0x0D)) || (u =? 0x20) || (u =? 0xA0) ||
  (u =? 0x1680) || ((0x2000 <=? u) && (u <=? 0x200A)) ||
  (u =? 0x2028) || (u =? 0x2029) || (u =? 0x202F) || (u =? 0x205F) ||
  (u =? 0x3000) || (u =? 0xFEFF).

Fixpoint trimStart (s : jsstring) : jsstring :=
  match s with
  | [] => []
  | u :: rest => if isWhiteSpace u then trimStart rest else s
  end.

Definition trimEnd (s : jsstring) : jsstring := rev (trimStart (rev s)).

Definition trim (s : jsstring) : jsstring := trimEnd (trimStart s).

(** [s.slice(0, n)] for a non-negative [n]. *)
Definition slice0 (n : nat) (s : jsstring) : jsstring := firstn n s.

(** [s.includes(needle)]. *)
Fixpoint isPrefixOf (p s : jsstring) : bool :=
  match p, s with
  | [], _ => true
  | _ :: _, [] => false
  | a :: p', b :: s' => (a =? b) && isPrefixOf p' s'
  end.

Fixpoint includes (needle s : jsstring) : bool :=
  isPrefixOf needle s ||
  match s with
  | [] => false
  | _ :: s' => includes needle s'
  end.

(** Iteration over a string ([for (const c of text)], [[...t]]) walks code
    points: a high surrogate followed by a low surrogate is one element, any
    other code unit (a lone surrogate included) is an element by itself. *)
Definition isHighSurrogate (u : N) : bool := (0xD800 <=? u) && (u <=? 0xDBFF).
Definition isLowSurrogate (u : N) : bool := (0xDC00 <=? u) && (u <=? 0xDFFF).

Fixpoint codePoints (s : jsstring) : list N :=
  match s with
  | [] => []
  | hi :: rest =>
      match rest with
      | lo :: rest' =>
          if isHighSurrogate hi && isLowSurrogate lo
          then (0x10000 + (hi - 0xD800) * 0x400 + (lo - 0xDC00)) :: codePoints rest'
          else hi :: codePoints rest
      | [] => [hi]
      end
  end.

(** ** lib/translate.ts: the likely-English heuristic *)

Definition MAX_CHARS_PER_REQUEST : nat := 400.
Definition CONCURRENCY : nat := 3.

(** The body of the loop of [hasNonLatinScript]: the six range tests. *)
Definition nonLatinCode (code : N) : bool :=
  if (0x0600 <=? code) && (code <=? 0x06ff) then true       (* Arabic *)
  else if (0x0750 <=? code) && (code <=? 0x077f) then true  (* Arabic Supplement *)
  else if (0x0400 <=? code) && (code <=? 0x04ff) then true  (* Cyrillic *)
  else if (0x4e00 <=? code) && (code <=? 0x9fff) then true  (* CJK Unified Ideographs *)
  else if (0x0590 <=? code) && (code <=? 0x05ff) then true  (* Hebrew *)
  else if (0x0e00 <=? code) && (code <=? 0x0e7f) then true  (* Thai *)
  else false.

Definition hasNonLatinScript (text : jsstring) : bool :=
  existsb nonLatinCode (codePoints text).

(** The character class of the regular expression of [isLikelyEnglish],
    as written in the source. *)
Definition diacriticClass : list N :=
  [0xE4; 0xF6; 0xFC; 0xDF; 0xE0; 0xE1; 0xE2; 0xE3; 0xE4; 0xE5;
   0xE8; 0xE9; 0xEA; 0xEB; 0xEC; 0xED; 0xEE; 0xEF;
   0xF2; 0xF3; 0xF4; 0xF5; 0xF9; 0xFA; 0xFB; 0xFC; 0xFD; 0xFF; 0xF1; 0xE7].

(** The upper-case partner of a member of the class.  The regular expression
    has the [i] flag and no [u] flag, so a code unit matches when its
    upper-case form is the upper-case form of a member; U+00DF has no
    single-unit upper-case form and only matches itself, U+00FF maps to
    U+0178, the other members map to the code unit 0x20 below. *)
Definition upperPartner (u : N) : N :=
  if u =? 0xDF then 0xDF else if u =? 0xFF then 0x178 else u - 0x20.

Definition matchesDiacriticClass (u : N) : bool :=
  existsb (fun m => (u =? m) || (u =? upperPartner m)) diacriticClass.

(** [/[...]/i.test(t)]: some code unit of [t] matches the class. *)
Definition testDiacritics (t : jsstring) : bool :=
  existsb matchesDiacriticClass t.

(** [[...t].filter((c) => c.codePointAt(0)! > 127).length] *)
Definition countNonAscii (t : jsstring) : nat :=
  length (List.filter (fun c => 127 <? c) (codePoints t)).

(** [isLikelyEnglish].  The test [nonAscii > t.length * 0.15] is written
    with exact arithmetic as [3 * t.length < 20 * nonAscii]: for the lengths
    of a JavaScript string the product with the double nearest to 0.15
    compares with an integer exactly as the rational product does. *)
Definition isLikelyEnglish (text : jsstring) : bool :=
  if negb (str_truthy text) || (length text <? 2)%nat then true
  else
    let t := trim text in
    if hasNonLatinScript t then false
    else
      let nonAscii := countNonAscii t in
      if (3 * length t <? 20 * nonAscii)%nat then false
      else if testDiacritics t then false
      else true.

(** The two sentences the specification tests the heuristic on. *)
Definition chineseSentence : jsstring :=
  [0x62DB; 0x8058; 0x8FDC; 0x7A0B; 0x5DE5; 0x7A0B; 0x5E08].
Definition englishSentence : jsstring := lit "Remote Backend Engineer".

(** ** JavaScript values

    The adapters read untyped JSON.  What the runtime does with a number
    (printing it, testing it, turning epoch seconds into an ISO date) is not
    code of the repository: it is an interface the model is generic in. *)

Class JsNumber (number : Type) := {
  (** [String(n)] *)
  numberToString : number -> jsstring;
  (** [n ? .. : ..] *)
  numberTruthy : number -> bool;
  (** [new Date(n * 1000).toISOString()]; [None] when the date is out of
      range and [toISOString] throws a [RangeError]. *)
  epochSecondsToISO : number -> option jsstring
}.

Inductive JsValue (number : Type) : Type :=
  | JUndefined
  | JNull
  | JBool (b : bool)
  | JNum (n : number)
  | JStr (s : jsstring)
  | JArr (items : list (JsValue number))
  | JObj (fields : gmap jsstring (JsValue number)).

Arguments JUndefined {number}.
Arguments JNull {number}.
Arguments JBool {number} b.
Arguments JNum {number} n.
Arguments JStr {number} s.
Arguments JArr {number} items.
Arguments JObj {number} fields.

(** What a [fetch] can come to: the promise rejects (network failure, or the
    abort signal fired after the timeout), or a response arrives whose body
    either parses as JSON or makes [res.json()] reject. *)
Inductive JsonBody (number : Type) : Type :=
  | BodyValue (v : JsValue number)
  | BodyRejects (message : jsstring).

Arguments BodyValue {number} v.
Arguments BodyRejects {number} message.

Record Response (number : Type) : Type := mkResponse {
  res_ok : bool;
  res_status : jsstring;      (* the status code as [`${res.status}`] prints it *)
  res_statusText : jsstring;
  res_json : JsonBody number
}.

Arguments mkResponse {number}.
Arguments res_ok {number}.
Arguments res_status {number}.
Arguments res_statusText {number}.
Arguments res_json {number}.

Inductive FetchResult (number : Type) : Type :=
  | FetchRejects (message : jsstring)
  | FetchResponds (res : Response number).

Arguments FetchRejects {number} message.
Arguments FetchResponds {number} res.

Section JsValues.
Context {number : Type} `{JsNumber number}.

(** [typeof v === "object" && v !== null] *)
Definition isObject (v : JsValue number) : bool :=
  match v with
  | JArr _ | JObj _ => true
  | _ => false
  end.

Definition isArray (v : JsValue number) : bool :=
  match v with JArr _ => true | _ => false end.

(** [k in v] for the keys the adapters test ("url", "title", ...): none of
    them is an index, ["length"], or a property of a prototype. *)
Definition hasKey (k : jsstring) (v : JsValue number) : bool :=
  match v with
  | JObj fields => bool_decide (is_Some (fields !! k))
  | _ => false
  end.

(** [keys.every((k) => k in obj)] *)
Definition hasKeys (obj : JsValue number) (keys : list jsstring) : bool :=
  forallb (fun k => hasKey k obj) keys.

(** [v.k] for such a key, on a value that is not [null] or [undefined]. *)
Definition getProp (k : jsstring) (v : JsValue number) : JsValue number :=
  match v with
  | JObj fields => default JUndefined (fields !! k)
  | _ => JUndefined
  end.

(** [v[0]] on an array *)
Definition firstItem (v : JsValue number) : JsValue number :=
  match v with
  | JArr (x :: _) => x
  | _ => JUndefined
  end.

Definition isNullish (v : JsValue number) : bool :=
  match v with JUndefined | JNull => true | _ => false end.

(** [a ?? b] *)
Definition nullishOr (a b : JsValue number) : JsValue number :=
  if isNullish a then b else a.

Definition truthy (v : JsValue number) : bool :=
  match v with
  | JUndefined | JNull => false
  | JBool b => b
  | JNum n => numberTruthy n
  | JStr s => str_truthy s
  | JArr _ | JObj _ => true
  end.

(** [a || b] *)
Definition orElse (a b : JsValue number) : JsValue number :=
  if truthy a then a else b.

(** [String(v)]: an array prints its items separated by commas, with
    [null] and [undefined] items printed as nothing. *)
Fixpoint toStr (v : JsValue number) : jsstring :=
  match v with
  | JUndefined => lit "undefined"
  | JNull => lit "null"
  | JBool true => lit "true"
  | JBool false => lit "false"
  | JNum n => numberToString n
  | JStr s => s
  | JArr items =>
      (fix join (l : list (JsValue number)) : jsstring :=
         match l with
         | [] => []
         | x :: rest =>
             (if isNullish x then [] else toStr x) ++
             match rest with
             | [] => []
             | _ :: _ => lit "," ++ join rest
             end
         end) items
  | JObj _ => lit "[object Object]"
  end.

(** [v != null ? String(v) : null] *)
Definition strOrNull (v : JsValue number) : option jsstring :=
  if isNullish v then None else Some (toStr v).

End JsValues.

(** ** Records of the pipeline *)

(** [NormalizedJob] of [lib/job-sources.ts]. *)
Record NormalizedJob : Type := mkNormalizedJob {
  nj_title : jsstring;
  nj_company : jsstring;
  nj_location : jsstring;
  nj_category : option jsstring;
  nj_description : option jsstring;
  nj_publication_date : option jsstring;
  nj_apply_url : jsstring;
  nj_experience_level : option jsstring
}.

(** A value of a type [T extends JobTextFields]: the four text fields of the
    interface ([location] and [description] may be [null] or absent, which
    the code never tells apart) and, in [extra], whatever else [T] has. *)
Record JobText (R : Type) : Type := mkJobText {
  title : jsstring;
  company : jsstring;
  location : option jsstring;
  description : option jsstring;
  extra : R
}.

Arguments mkJobText {R}.
Arguments title {R}.
Arguments company {R}.
Arguments location {R}.
Arguments description {R}.
Arguments extra {R}.

(** The object literal a route hands to [upsert]. *)
Record UpsertRow : Type := mkUpsertRow {
  row_title : jsstring;
  row_company : jsstring;
  row_location : jsstring;
  row_description : option jsstring;
  row_apply_url : jsstring
}.

(** A row of [public.jobs] (migrations/20240206120000_create_jobs_table.sql):
    [title], [company], [location] and [apply_url] are [NOT NULL], the
    primary key [id] and [created_at] are filled in by the database. *)
Record StoredJob : Type := mkStoredJob {
  job_id : N;
  job_title : jsstring;
  job_company : jsstring;
  job_location : jsstring;
  job_category : option jsstring;
  job_description : option jsstring;
  job_publication_date : option jsstring;
  job_apply_url : jsstring;
  job_experience_level : option jsstring;
  job_created_at : N
}.

(** The error object of the Supabase client. *)
Record PgError : Type := mkPgError {
  pg_code : option jsstring;
  pg_message : option jsstring
}.

(** ** lib/jobs.ts: filters and queries *)

Inductive SortOption : Type := Newest | Oldest.

Record JobFilters : Type := mkJobFilters {
  f_search : option jsstring;
  f_location : option jsstring;
  f_category : option jsstring;
  f_experience : option jsstring;
  f_remote : option bool;
  f_sort : option SortOption;
  f_page : option Z;
  f_limit : option Z
}.

(** What the query builder has accumulated when [range] is called: the
    order and the [or]/[ilike] conditions in the order they were added. *)
Inductive Condition : Type :=
  | OrFilter (filters : jsstring)
  | ILike (column pattern : jsstring).

Record Query : Type := mkQuery {
  q_ascending : bool;
  q_conditions : list Condition
}.

Record QueryResult : Type := mkQueryResult {
  qr_data : option (list StoredJob);
  qr_count : option Z;
  qr_error : option PgError
}.

Record GetJobsResult : Type := mkGetJobsResult {
  r_jobs : list StoredJob;
  r_total : Z;
  r_page : Z;
  r_totalPages : Z;
  r_limit : Z
}.

(** ** The world outside the process *)

Record Request : Type := mkRequest {
  req_url : jsstring;
  req_params : list (jsstring * jsstring)
}.

(** The statements the code sends to the database. *)
Inductive Statement : Type :=
  | SelectPage (q : Query) (from to : Z)
  | SelectAllJobs
  | UpsertIgnoreDuplicates (rows : list UpsertRow)
  | UpdateById (id : N) (t c l : jsstring) (d : option jsstring).

(** What [fetchJobListings] of the LinkedIn package can come to. *)
Inductive LinkedInService (number : Type) : Type :=
  | ModuleMissing (message : jsstring)
  | NotAFunction
  | ListingsReject (message : jsstring)
  | Listings (v : JsValue number).

Arguments ModuleMissing {number} message.
Arguments NotAFunction {number}.
Arguments ListingsReject {number} message.
Arguments Listings {number} v.

(** The network answers a request as it pleases, possibly depending on
    everything requested before; so does the database when it fails a
    statement or answers a page query.  The table itself is explicit. *)
Record World (number : Type) : Type := mkWorld {
  env_supabase_url : option jsstring;
  env_service_role_key : option jsstring;
  net_reply : list Request -> Request -> FetchResult number;
  net_log : list Request;
  linkedin : LinkedInService number;
  db_rows : list StoredJob;
  db_next_id : N;
  db_now : list Statement -> N;
  db_fault : list Statement -> Statement -> option PgError;
  db_page : list Statement -> Query -> Z -> Z -> option (list StoredJob) * option Z;
  db_log : list Statement
}.

Arguments mkWorld {number}.
Arguments env_supabase_url {number}.
Arguments env_service_role_key {number}.
Arguments net_reply {number}.
Arguments net_log {number}.
Arguments linkedin {number}.
Arguments db_rows {number}.
Arguments db_next_id {number}.
Arguments db_now {number}.
Arguments db_fault {number}.
Arguments db_page {number}.
Arguments db_log {number}.

(** ** Computations: state and exceptions *)

(** A thrown value: an [Error] with its message, or the error object of the
    database client that [getJobs] rethrows. *)
Inductive Thrown : Type :=
  | ErrorObject (message : jsstring)
  | PgThrown (e : PgError).

Inductive Completion (A : Type) : Type :=
  | Normal (a : A)
  | Throw (e : Thrown).

Arguments Normal {A} a.
Arguments Throw {A} e.

Definition M (number A : Type) : Type :=
  World number -> Completion A * World number.

Section Monad.
Context {number : Type}.

Definition ret {A} (a : A) : M number A := fun w => (Normal a, w).

Definition throw {A} (e : Thrown) : M number A := fun w => (Throw e, w).

Definition bind {A B} (m : M number A) (k : A -> M number B) : M number B :=
  fun w =>
    match m w with
    | (Normal a, w') => k a w'
    | (Throw e, w') => (Throw e, w')
    end.

(** [try { m } catch (e) { h(e) }] *)
Definition try_catch {A} (m : M number A) (h : Thrown -> M number A) : M number A :=
  fun w =>
    match m w with
    | (Normal a, w') => (Normal a, w')
    | (Throw e, w') => h e w'
    end.

(** [await Promise.all(items.map(f))], and every loop of the code that awaits
    once per element: the calls run in the order of the list.  (The calls of
    a [Promise.all] interleave at their awaits; the replies of the network
    are arbitrary in every interleaving.) *)
Fixpoint mapM {A B} (f : A -> M number B) (l : list A) : M number (list B) :=
  match l with
  | [] => ret []
  | x :: rest =>
      bind (f x) (fun y => bind (mapM f rest) (fun ys => ret (y :: ys)))
  end.

End Monad.

Notation "x <- m ;; k" := (bind m (fun x => k))
  (at level 100, m at next level, right associativity).

(** ** Primitives of the runtime *)

Section Primitives.
Context {number : Type}.

Definition logRequest (req : Request) (w : World number) : World number :=
  mkWorld (env_supabase_url w) (env_service_role_key w)
    (net_reply w) (net_log w ++ [req]) (linkedin w)
    (db_rows w) (db_next_id w) (db_now w) (db_fault w) (db_page w) (db_log w).

(** [await fetch(url, { signal })]: the request goes out, and the promise
    resolves to a response or rejects. *)
Definition fetch (req : Request) : M number (Response number) :=
  fun w =>
    match net_reply w (net_log w) req with
    | FetchRejects message => (Throw (ErrorObject message), logRequest req w)
    | FetchResponds res => (Normal res, logRequest req w)
    end.

(** [await res.json()] *)
Definition resJson (res : Response number) : M number (JsValue number) :=
  match res_json res with
  | BodyValue v => ret v
  | BodyRejects message => throw (ErrorObject message)
  end.

(** [v.k], which throws a [TypeError] on [null] and [undefined]. *)
Definition getPropStrict (k : jsstring) (v : JsValue number) : M number (JsValue number) :=
  if isNullish v
  then throw (ErrorObject (lit "Cannot read properties of null"))
  else ret (getProp k v).

(** [v?.k] *)
Definition getPropOpt (k : jsstring) (v : JsValue number) : JsValue number :=
  if isNullish v then JUndefined else getProp k v.

(** [v?.trim()]: [undefined] on a nullish [v], the trimmed string on a
    string, a [TypeError] on anything else (no other JSON value has a
    callable [trim]). *)
Definition trimOpt (v : JsValue number) : M number (option jsstring) :=
  match v with
  | JUndefined | JNull => ret None
  | JStr s => ret (Some (trim s))
  | _ => throw (ErrorObject (lit "trim is not a function"))
  end.

End Primitives.

(** ** lib/translate.ts: translation *)

Definition MYMEMORY_URL : jsstring := lit "https://api.mymemory.translated.net/get".

(** The URL [translateToEnglish] builds with [searchParams.set]. *)
Definition translateRequest (toTranslate : jsstring) : Request :=
  mkRequest MYMEMORY_URL
    [(lit "q", toTranslate); (lit "langpair", lit "auto|en")].

Section Translate.
Context {number : Type} `{JsNumber number}.

Definition translateToEnglish (text : jsstring) : M number jsstring :=
  let trimmed := trim text in
  if negb (str_truthy trimmed) || isLikelyEnglish trimmed then ret trimmed
  else
    let toTranslate :=
      if (MAX_CHARS_PER_REQUEST <? length trimmed)%nat
      then slice0 MAX_CHARS_PER_REQUEST trimmed
      else trimmed in
    try_catch
      (res <- fetch (translateRequest toTranslate) ;;
       if negb (res_ok res) then ret trimmed
       else
         data <- resJson res ;;
         quotaFinished <- getPropStrict (lit "quotaFinished") data ;;
         if truthy quotaFinished then ret trimmed
         else
           response <- getPropStrict (lit "response") data ;;
           translated <- trimOpt (getPropOpt (lit "translatedText") response) ;;
           match translated with
           | Some s => if str_truthy s then ret s else ret trimmed
           | None => ret trimmed
           end)
      (fun _ => ret trimmed).

(** [ensureJobEnglish]; the [delay]s between the calls leave no trace in
    the model. *)
Definition ensureJobEnglish {R} (job : JobText R) : M number (JobText R) :=
  title' <- translateToEnglish (title job) ;;
  company' <- translateToEnglish (company job) ;;
  location' <-
    match location job with
    | Some l => if str_truthy l then translateToEnglish l else ret l
    | None => ret []
    end ;;
  description' <-
    match description job with
    | Some d =>
        if str_truthy d && str_truthy (trim d)
        then d' <- translateToEnglish (slice0 MAX_CHARS_PER_REQUEST d) ;; ret (Some d')
        else ret (Some d)
    | None => ret None
    end ;;
  ret (mkJobText title' company' (Some location') description' (extra job)).

(** The loop of [ensureJobsEnglish]: [i] and [out] are the variables of the
    source, [fuel] bounds the number of iterations. *)
Fixpoint ensureJobsEnglish_loop {R} (fuel : nat) (jobs : list (JobText R))
    (i : nat) (out : list (JobText R)) : M number (list (JobText R)) :=
  match fuel with
  | O => ret out
  | S fuel' =>
      if (i <? length jobs)%nat then
        let batch := firstn CONCURRENCY (skipn i jobs) in
        translated <- mapM ensureJobEnglish batch ;;
        ensureJobsEnglish_loop fuel' jobs (i + CONCURRENCY) (out ++ translated)
      else ret out
  end.

Definition ensureJobsEnglish {R} (jobs : list (JobText R)) : M number (list (JobText R)) :=
  ensureJobsEnglish_loop (length jobs) jobs 0 [].

End Translate.

(** ** lib/job-sources.ts: the adapters *)

Section Sources.
Context {number : Type} `{JsNumber number}.

(** [fetchJson]: the abort after [FETCH_TIMEOUT_MS] shows as a rejected
    [fetch]; the [finally] block only clears the timer. *)
Definition fetchJson (url : jsstring) : M number (JsValue number) :=
  res <- fetch (mkRequest url []) ;;
  if negb (res_ok res)
  then throw (ErrorObject (res_status res ++ lit " " ++ res_statusText res))
  else resJson res.

(** [Array.isArray(v) ? v : []] *)
Definition arrayOrEmpty (v : JsValue number) : list (JsValue number) :=
  match v with JArr items => items | _ => [] end.

(** [Array.isArray(v) && v[0] != null ? String(v[0]) : null] *)
Definition firstAsString (v : JsValue number) : option jsstring :=
  if isArray v && negb (isNullish (firstItem v))
  then Some (toStr (firstItem v))
  else None.

Definition remotiveKeep (j : JsValue number) : bool :=
  isObject j && hasKeys j [lit "url"; lit "title"; lit "company_name"].

Definition remotiveJob (j : JsValue number) : NormalizedJob :=
  {| nj_title := toStr (nullishOr (getProp (lit "title") j) (JStr []));
     nj_company := toStr (nullishOr (getProp (lit "company_name") j) (JStr []));
     nj_location :=
       toStr (nullishOr (getProp (lit "candidate_required_location") j)
                (JStr (lit "Remote")));
     nj_category := strOrNull (getProp (lit "category") j);
     nj_description := strOrNull (getProp (lit "description") j);
     nj_publication_date := strOrNull (getProp (lit "publication_date") j);
     nj_apply_url := toStr (nullishOr (getProp (lit "url") j) (JStr []));
     nj_experience_level := strOrNull (getProp (lit "job_type") j) |}.

Definition fetchRemotive (limit : N) : M number (list NormalizedJob) :=
  data <- fetchJson (lit "https://remotive.com/api/remote-jobs?limit=" ++ decimal limit) ;;
  let jobs := arrayOrEmpty (getPropOpt (lit "jobs") data) in
  ret (map remotiveJob (List.filter remotiveKeep jobs)).

Definition remoteOkKeep (item : JsValue number) : bool :=
  isObject item && hasKey (lit "position") item && hasKey (lit "apply_url") item.

Definition remoteOkJob (j : JsValue number) : NormalizedJob :=
  {| nj_title := toStr (nullishOr (getProp (lit "position") j) (JStr []));
     nj_company := toStr (nullishOr (getProp (lit "company") j) (JStr []));
     nj_location :=
       toStr (nullishOr (getProp (lit "location") j) (JStr (lit "Remote")));
     nj_category := firstAsString (getProp (lit "tags") j);
     nj_description := strOrNull (getProp (lit "description") j);
     nj_publication_date := strOrNull (getProp (lit "date") j);
     nj_apply_url :=
       toStr (nullishOr (getProp (lit "apply_url") j)
                (nullishOr (getProp (lit "url") j) (JStr [])));
     nj_experience_level := None |}.

Definition fetchRemoteOk : M number (list NormalizedJob) :=
  data <- fetchJson (lit "https://remoteok.com/api") ;;
  if negb (isArray data) then ret []
  else
    let jobs := List.filter remoteOkKeep (arrayOrEmpty data) in
    ret (map remoteOkJob jobs).

Definition arbeitNowKeep (j : JsValue number) : bool :=
  isObject j && hasKeys j [lit "url"; lit "title"; lit "company_name"].

(** The callback of [map] in [fetchArbeitNow]; [toISOString] may throw. *)
Definition arbeitNowJob (j : JsValue number) : M number NormalizedJob :=
  let createdAt := getProp (lit "created_at") j in
  pubDate <-
    match createdAt with
    | JNum n =>
        match epochSecondsToISO n with
        | Some iso => ret (Some iso)
        | None => throw (ErrorObject (lit "Invalid time value"))
        end
    | _ => ret (strOrNull createdAt)
    end ;;
  let jobTypes := getProp (lit "job_types") j in
  let expLevel := firstAsString jobTypes in
  ret {| nj_title := toStr (nullishOr (getProp (lit "title") j) (JStr []));
         nj_company := toStr (nullishOr (getProp (lit "company_name") j) (JStr []));
         nj_location :=
           toStr (orElse
                    (orElse (getProp (lit "location") j)
                       (if truthy (getProp (lit "remote") j)
                        then JStr (lit "Remote") else JStr []))
                    (JStr (lit "Remote")));
         nj_category := firstAsString (getProp (lit "tags") j);
         nj_description := strOrNull (getProp (lit "description") j);
         nj_publication_date := pubDate;
         nj_apply_url := toStr (nullishOr (getProp (lit "url") j) (JStr []));
         nj_experience_level := expLevel |}.

Definition fetchArbeitNow : M number (list NormalizedJob) :=
  try_catch
    (data <- fetchJson (lit "https://www.arbeitnow.com/api/job-board-api") ;;
     let list := arrayOrEmpty (getPropOpt (lit "data") data) in
     mapM arbeitNowJob (List.filter arbeitNowKeep list))
    (fun _ => ret []).

Record FetchJobsResult : Type := mkFetchJobsResult {
  fr_source : jsstring;
  fr_count : nat;
  fr_jobs : list NormalizedJob;
  fr_error : option jsstring
}.

(** [e instanceof Error ? e.message : String(e)] *)
Definition errorMessage (e : Thrown) : jsstring :=
  match e with
  | ErrorObject message => message
  | PgThrown _ => lit "[object Object]"
  end.

(** [adapter.then((jobs) => ({ source, count, jobs })).catch((e) => ...)] *)
Definition settle (source : jsstring) (adapter : M number (list NormalizedJob))
  : M number FetchJobsResult :=
  try_catch
    (jobs <- adapter ;; ret (mkFetchJobsResult source (length jobs) jobs None))
    (fun e => ret (mkFetchJobsResult source 0 [] (Some (errorMessage e)))).

Definition fetchAllJobSources : M number (list FetchJobsResult) :=
  let results := [] in
  remotive <- settle (lit "remotive") (fetchRemotive 150) ;;
  let results := results ++ [remotive] in
  remoteok <- settle (lit "remoteok") fetchRemoteOk ;;
  let results := results ++ [remoteok] in
  arbeitnow <- settle (lit "arbeitnow") fetchArbeitNow ;;
  let results := results ++ [arbeitnow] in
  ret results.

(** ** lib/sources/jobicy.ts *)

Record JobicyJobRow : Type := mkJobicyJobRow {
  jr_title : jsstring;
  jr_company : jsstring;
  jr_location : jsstring;
  jr_description : option jsstring;
  jr_apply_url : jsstring
}.

Definition jobicyKeep (j : JsValue number) : bool :=
  isObject j && hasKey (lit "url") j && hasKey (lit "jobTitle") j.

Definition jobicyJob (j : JsValue number) : JobicyJobRow :=
  {| jr_title := toStr (nullishOr (getProp (lit "jobTitle") j) (JStr []));
     jr_company := toStr (nullishOr (getProp (lit "companyName") j) (JStr []));
     jr_location :=
       toStr (nullishOr (getProp (lit "location") j) (JStr (lit "Remote")));
     jr_description := strOrNull (getProp (lit "description") j);
     jr_apply_url := toStr (nullishOr (getProp (lit "url") j) (JStr [])) |}.

(** [FETCH_LIMIT] is 100; the [catch] block rethrows. *)
Definition fetchJobicyJobs : M number (list JobicyJobRow) :=
  try_catch
    (res <- fetch (mkRequest (lit "https://jobicy.com/api/v2/remote-jobs?count=" ++ decimal 100) []) ;;
     if negb (res_ok res)
     then throw (ErrorObject (res_status res ++ lit " " ++ res_statusText res))
     else
       data <- resJson res ;;
       let jobs := arrayOrEmpty (getPropOpt (lit "jobs") data) in
       ret (map jobicyJob (List.filter jobicyKeep jobs)))
    (fun e => throw e).

End Sources.

(** ** The database client *)

Record WriteResult : Type := mkWriteResult {
  wr_data : option (list N);
  wr_error : option PgError
}.

Definition newRow (id now : N) (r : UpsertRow) : StoredJob :=
  {| job_id := id;
     job_title := row_title r;
     job_company := row_company r;
     job_location := row_location r;
     job_category := None;
     job_description := row_description r;
     job_publication_date := None;
     job_apply_url := row_apply_url r;
     job_experience_level := None;
     job_created_at := now |}.

Definition hasApplyUrl (url : jsstring) (table : list StoredJob) : bool :=
  existsb (fun s => bool_decide (job_apply_url s = url)) table.

(** [INSERT ... ON CONFLICT (apply_url) DO NOTHING RETURNING id], which is
    what [upsert(rows, { onConflict: "apply_url", ignoreDuplicates: true })
    .select("id")] sends: a row whose [apply_url] is already in the table
    (or earlier in the same statement) is skipped, any other row is appended
    with a fresh [id].  The result is the table, the next free id and the
    ids returned. *)
Fixpoint insertIgnoringDuplicates (now : N) (rows : list UpsertRow)
    (table : list StoredJob) (next : N) : list StoredJob * N * list N :=
  match rows with
  | [] => (table, next, [])
  | r :: rest =>
      if hasApplyUrl (row_apply_url r) table
      then insertIgnoringDuplicates now rest table next
      else
        let '(table', next', ids) :=
          insertIgnoringDuplicates now rest (table ++ [newRow next now r]) (next + 1) in
        (table', next', next :: ids)
  end.

(** [UPDATE jobs SET title, company, location, description WHERE id = ..] *)
Definition updateRow (id : N) (t c l : jsstring) (d : option jsstring)
    (s : StoredJob) : StoredJob :=
  if job_id s =? id
  then {| job_id := job_id s;
          job_title := t;
          job_company := c;
          job_location := l;
          job_category := job_category s;
          job_description := d;
          job_publication_date := job_publication_date s;
          job_apply_url := job_apply_url s;
          job_experience_level := job_experience_level s;
          job_created_at := job_created_at s |}
  else s.

Section Storage.
Context {number : Type}.

Definition logStatement (s : Statement) (w : World number) : World number :=
  mkWorld (env_supabase_url w) (env_service_role_key w)
    (net_reply w) (net_log w) (linkedin w)
    (db_rows w) (db_next_id w) (db_now w) (db_fault w) (db_page w) (db_log w ++ [s]).

Definition setTable (table : list StoredJob) (next : N) (w : World number) : World number :=
  mkWorld (env_supabase_url w) (env_service_role_key w)
    (net_reply w) (net_log w) (linkedin w)
    table next (db_now w) (db_fault w) (db_page w) (db_log w).

(** [getSupabaseServer] of [lib/supabase.ts] *)
Definition getSupabaseServer : M number unit :=
  fun w =>
    if negb (str_truthy (default [] (env_supabase_url w)))
    then (Throw (ErrorObject (lit "Missing NEXT_PUBLIC_SUPABASE_URL")), w)
    else if negb (str_truthy (default [] (env_service_role_key w)))
    then (Throw (ErrorObject (lit "Missing SUPABASE_SERVICE_ROLE_KEY")), w)
    else (Normal tt, w).

(** [await supabase.from("jobs").upsert(rows, { onConflict: "apply_url",
    ignoreDuplicates: true }).select("id")]: a failed statement changes
    nothing. *)
Definition upsert (rows : list UpsertRow) : M number WriteResult :=
  fun w =>
    let stmt := UpsertIgnoreDuplicates rows in
    match db_fault w (db_log w) stmt with
    | Some e => (Normal (mkWriteResult None (Some e)), logStatement stmt w)
    | None =>
        let '(table, next, ids) :=
          insertIgnoringDuplicates (db_now w (db_log w)) rows (db_rows w) (db_next_id w) in
        (Normal (mkWriteResult (Some ids) None),
         logStatement stmt (setTable table next w))
    end.

(** [await supabase.from("jobs").update({..}).eq("id", id)], of which the
    caller reads [error]. *)
Definition update (id : N) (t c l : jsstring) (d : option jsstring)
  : M number (option PgError) :=
  fun w =>
    let stmt := UpdateById id t c l d in
    match db_fault w (db_log w) stmt with
    | Some e => (Normal (Some e), logStatement stmt w)
    | None =>
        (Normal None,
         logStatement stmt
           (setTable (map (updateRow id t c l d) (db_rows w)) (db_next_id w) w))
    end.

(** [await supabase.from("jobs").select("id, title, company, location,
    description")] *)
Definition selectAllJobs : M number (option (list StoredJob) * option PgError) :=
  fun w =>
    let stmt := SelectAllJobs in
    match db_fault w (db_log w) stmt with
    | Some e => (Normal (None, Some e), logStatement stmt w)
    | None => (Normal (Some (db_rows w), None), logStatement stmt w)
    end.

(** [await query.range(from, to)] *)
Definition range (q : Query) (from to : Z) : M number QueryResult :=
  fun w =>
    let stmt := SelectPage q from to in
    match db_fault w (db_log w) stmt with
    | Some e => (Normal (mkQueryResult None None (Some e)), logStatement stmt w)
    | None =>
        let '(data, count) := db_page w (db_log w) q from to in
        (Normal (mkQueryResult data count None), logStatement stmt w)
    end.

(** A loop that awaits in its body and carries mutable variables [s]. *)
Fixpoint foldM {A S} (body : S -> A -> M number S) (l : list A) (s : S) : M number S :=
  match l with
  | [] => ret s
  | x :: rest => s' <- body s x ;; foldM body rest s'
  end.

End Storage.

(** ** app/api/fetch-jobs/route.ts *)

Record SummaryEntry : Type := mkSummaryEntry {
  se_source : jsstring;
  se_fetched : nat;
  se_inserted : nat;
  se_error : option jsstring
}.

(** The JSON the route answers with: [{ ok: true, totalInserted, summary }],
    or [{ ok: false, error }] with status 500. *)
Inductive FetchJobsResponse : Type :=
  | FetchJobsOk (totalInserted : nat) (summary : list SummaryEntry)
  | FetchJobsFailed (error : jsstring).

(** [j.location || "Remote"] *)
Definition orRemote (l : option jsstring) : jsstring :=
  match l with
  | Some s => if str_truthy s then s else lit "Remote"
  | None => lit "Remote"
  end.

(** A [NormalizedJob] as a [T extends JobTextFields]. *)
Definition normalizedAsText (j : NormalizedJob) : JobText NormalizedJob :=
  mkJobText (nj_title j) (nj_company j) (Some (nj_location j)) (nj_description j) j.

Definition fetchJobsRow (j : JobText NormalizedJob) : UpsertRow :=
  {| row_title := title j;
     row_company := company j;
     row_location := orRemote (location j);
     row_description := description j;
     row_apply_url := nj_apply_url (extra j) |}.

(** [Array.isArray(data) ? data.length : 0] *)
Definition insertedCount (data : option (list N)) : nat :=
  match data with Some ids => length ids | None => 0%nat end.

Section FetchJobsRoute.
Context {number : Type} `{JsNumber number}.

(** The body of the [for] loop of [GET]; the state is [totalInserted] and
    [summary]. *)
Definition ingestSource (state : nat * list SummaryEntry) (r : FetchJobsResult)
  : M number (nat * list SummaryEntry) :=
  let '(totalInserted, summary) := state in
  let source := fr_source r in
  let count := fr_count r in
  if str_truthy (default [] (fr_error r)) then
    ret (totalInserted, summary ++ [mkSummaryEntry source 0 0 (fr_error r)])
  else
    let filtered := List.filter (fun j => str_truthy (trim (nj_apply_url j))) (fr_jobs r) in
    translated <- ensureJobsEnglish (map normalizedAsText filtered) ;;
    let rows := map fetchJobsRow translated in
    if (length rows =? 0)%nat then
      ret (totalInserted, summary ++ [mkSummaryEntry source count 0 None])
    else
      res <- upsert rows ;;
      match wr_error res with
      | Some upsertError =>
          ret (totalInserted,
               summary ++ [mkSummaryEntry source count 0 (pg_message upsertError)])
      | None =>
          let inserted := insertedCount (wr_data res) in
          ret ((totalInserted + inserted)%nat,
               summary ++ [mkSummaryEntry source count inserted None])
      end.

Definition GET_fetch_jobs : M number FetchJobsResponse :=
  try_catch
    (_ <- getSupabaseServer ;;
     results <- fetchAllJobSources ;;
     final <- foldM ingestSource results (0%nat, []) ;;
     ret (FetchJobsOk (fst final) (snd final)))
    (fun e =>
       ret (FetchJobsFailed
              (match e with
               | ErrorObject message => message
               | PgThrown _ => lit "Failed to fetch jobs"
               end))).

End FetchJobsRoute.

(** ** app/api/fetch-jobs-extra/route.ts *)




Section FetchJobsExtraRoute.
Context {number : Type} `{JsNumber number}.


End FetchJobsExtraRoute.

(** ** lib/scrapers/linkedinScraper.ts *)

Record LinkedInJob : Type := mkLinkedInJob {
  li_title : jsstring;
  li_company : jsstring;
  li_location : jsstring;
  li_description : jsstring;
  li_apply_url : jsstring
}.

Record ScrapeResult : Type := mkScrapeResult {
  sr_fetched : nat;
  sr_inserted : nat
}.

Definition linkedInAsText (j : LinkedInJob) : JobText LinkedInJob :=
  mkJobText (li_title j) (li_company j) (Some (li_location j)) (Some (li_description j)) j.

(** The [LinkedInJobRow] built from a translated job: the location
    defaults to "Worldwide" and the description to the empty string, both
    with [??]. *)
Definition linkedInRow (j : JobText LinkedInJob) : UpsertRow :=
  {| row_title := title j;
     row_company := company j;
     row_location := default (lit "Worldwide") (location j);
     row_description := Some (default [] (description j));
     row_apply_url := li_apply_url (extra j) |}.

Section LinkedIn.
Context {number : Type} `{JsNumber number}.

(** The callback of [map] in [fetchLinkedInJobs]; reading a property of a
    [null] item throws. *)
Definition linkedInJob (j : JsValue number) : M number LinkedInJob :=
  if isNullish j then throw (ErrorObject (lit "Cannot read properties of null"))
  else
    ret {| li_title := toStr (nullishOr (getProp (lit "title") j) (JStr []));
           li_company := toStr (nullishOr (getProp (lit "company") j) (JStr []));
           li_location :=
             toStr (nullishOr (getProp (lit "location") j) (JStr (lit "Worldwide")));
           li_description :=
             toStr (nullishOr (getProp (lit "description") j) (JStr []));
           li_apply_url :=
             toStr (nullishOr (getProp (lit "link") j)
                      (nullishOr (getProp (lit "job_url") j)
                         (nullishOr (getProp (lit "url") j) (JStr [])))) |}.

(** The dynamic import of the package and the call
    [fetchJobListings("remote developer", "Worldwide", "past_week")]. *)
Definition callFetchJobListings : M number (JsValue number) :=
  fun w =>
    match linkedin w with
    | ModuleMissing message =>
        if includes (lit "Cannot find module") message
           || includes (lit "ERR_MODULE_NOT_FOUND") message
        then (Throw (ErrorObject (lit "LinkedIn jobs API package is not installed or failed to install. Run: npm install @atharvh01/linkedin-jobs-api")), w)
        else (Throw (ErrorObject message), w)
    | NotAFunction =>
        (Throw (ErrorObject (lit "LinkedIn jobs API: fetchJobListings not found")), w)
    | ListingsReject message => (Throw (ErrorObject message), w)
    | Listings list => (Normal list, w)
    end.

Definition fetchLinkedInJobs : M number (list LinkedInJob) :=
  list <- callFetchJobListings ;;
  if negb (isArray list) then ret []
  else
    jobs <- mapM linkedInJob (arrayOrEmpty list) ;;
    ret (List.filter (fun j => (0 <? length (li_apply_url j))%nat) jobs).

Definition scrapeAndInsertLinkedInJobs : M number ScrapeResult :=
  jobs <- fetchLinkedInJobs ;;
  if (length jobs =? 0)%nat then ret (mkScrapeResult 0 0)
  else
    translated <- ensureJobsEnglish (map linkedInAsText jobs) ;;
    _ <- getSupabaseServer ;;
    let rows := map linkedInRow translated in
    res <- upsert rows ;;
    match wr_error res with
    | Some error => throw (PgThrown error)
    | None => ret (mkScrapeResult (length jobs) (insertedCount (wr_data res)))
    end.

End LinkedIn.

(** ** app/api/translate-jobs/route.ts *)

(** [{ success: false, error }] with status 500, [{ success: true, updated:
    0, message }], or [{ success: true, total, updated }]. *)
Inductive TranslateJobsResponse : Type :=
  | TranslateFailed (error : option jsstring)
  | NothingToTranslate
  | Translated (total updated : nat).

(** The object [POST] hands to [ensureJobsEnglish] for a stored row: the four
    text fields and nothing else. *)
Definition backfillInput (j : StoredJob) : JobText unit :=
  mkJobText (job_title j) (job_company j) (Some (job_location j)) (job_description j) tt.

(** [changed] of the loop of [POST]. *)
Definition backfillChanged (orig : StoredJob) (t : JobText unit) : bool :=
  bool_decide (title t ≠ job_title orig) ||
  bool_decide (company t ≠ job_company orig) ||
  bool_decide (location t ≠ Some (job_location orig)) ||
  bool_decide (description t ≠ job_description orig).

Section TranslateJobsRoute.
Context {number : Type} `{JsNumber number}.

(** The body of the loop [for (let i = 0; i < jobs.length; i++)]; the state
    is [updated].  [translated[i]] is [undefined] past the end of
    [translated], and reading [t.title] then throws. *)
Definition backfillStep (jobs : list StoredJob) (translated : list (JobText unit))
    (updated : nat) (i : nat) : M number nat :=
  match jobs !! i with
  | None => ret updated
  | Some orig =>
      match translated !! i with
      | None => throw (ErrorObject (lit "Cannot read properties of undefined"))
      | Some t =>
          if negb (backfillChanged orig t) then ret updated
          else
            updateError <-
              update (job_id orig) (title t) (company t)
                (default (job_location orig) (location t))
                (match description t with
                 | Some d => Some d
                 | None => job_description orig
                 end) ;;
            match updateError with
            | None => ret (S updated)
            | Some _ => ret updated
            end
      end
  end.

Definition POST_translate_jobs : M number TranslateJobsResponse :=
  try_catch
    (_ <- getSupabaseServer ;;
     sel <- selectAllJobs ;;
     match snd sel with
     | Some fetchError => ret (TranslateFailed (pg_message fetchError))
     | None =>
         let jobs := default [] (fst sel) in
         if (length jobs =? 0)%nat then ret NothingToTranslate
         else
           translated <- ensureJobsEnglish (map backfillInput jobs) ;;
           updated <- foldM (backfillStep jobs translated) (seq 0 (length jobs)) 0%nat ;;
           ret (Translated (length jobs) updated)
     end)
    (fun e => ret (TranslateFailed (Some (errorMessage e)))).

End TranslateJobsRoute.

(** ** lib/jobs.ts *)

Local Open Scope Z_scope.

Definition DEFAULT_LIMIT : Z := 12.
Definition PG_UNDEFINED_COLUMN : jsstring := lit "42703".

(** [Number(v) || d] for an optional number *)
Definition numberOr (v : option Z) (d : Z) : Z :=
  match v with
  | Some n => if n =? 0 then d else n
  | None => d
  end.

(** [v?.trim()] is truthy *)
Definition present (v : option jsstring) : bool :=
  match v with
  | Some s => str_truthy (trim s)
  | None => false
  end.

(** [`%${v.trim()}%`] *)
Definition wildcard (v : option jsstring) : jsstring :=
  (lit "%" ++ trim (default [] v) ++ lit "%")%list.

Record BuiltQuery : Type := mkBuiltQuery {
  bq_query : Query;
  bq_from : Z;
  bq_to : Z;
  bq_limit : Z;
  bq_page : Z
}.

Definition addCondition (c : Condition) (q : Query) : Query :=
  mkQuery (q_ascending q) (q_conditions q ++ [c]).

Definition buildJobsQuery (filters : JobFilters) (skipOptionalColumns : option bool)
  : BuiltQuery :=
  let limit := Z.min (numberOr (f_limit filters) DEFAULT_LIMIT) 50 in
  let page := Z.max 0 (numberOr (f_page filters) 0) in
  let from := page * limit in
  let to := from + limit - 1 in
  let sortAsc :=
    match f_sort filters with Some Oldest => true | _ => false end in
  let skip := default false skipOptionalColumns in
  let query := mkQuery sortAsc [] in
  let query :=
    if present (f_search filters) then
      let term := wildcard (f_search filters) in
      addCondition
        (OrFilter (lit "title.ilike." ++ term ++ lit ",company.ilike." ++ term)%list)
        query
    else query in
  let query :=
    if present (f_location filters)
    then addCondition (ILike (lit "location") (wildcard (f_location filters))) query
    else query in
  let query :=
    if negb skip && present (f_category filters)
    then addCondition (ILike (lit "category") (wildcard (f_category filters))) query
    else query in
  let query :=
    if negb skip && present (f_experience filters)
    then addCondition (ILike (lit "experience_level") (wildcard (f_experience filters))) query
    else query in
  let query :=
    if default false (f_remote filters)
    then addCondition (ILike (lit "location") (lit "%remote%")) query
    else query in
  mkBuiltQuery query from to limit page.

(** [isUndefinedColumn]: the code of the error is [PG_UNDEFINED_COLUMN], or
    its message, the empty string when there is none, includes "42703". *)
Definition isUndefinedColumn (error : option PgError) : bool :=
  bool_decide ((error ≫= pg_code) = Some PG_UNDEFINED_COLUMN) ||
  includes (lit "42703") (default [] (error ≫= pg_message)).

(** [Math.ceil(total / limit)] for a non-zero [limit] *)
Definition ceilDiv (total limit : Z) : Z := - ((- total) / limit).

(** [Math.ceil(total / limit) || 1] *)
Definition totalPagesOf (total limit : Z) : Z :=
  let pages := ceilDiv total limit in
  if pages =? 0 then 1 else pages.

Section GetJobs.
Context {number : Type}.

Definition getJobs (filters : JobFilters) : M number GetJobsResult :=
  let b := buildJobsQuery filters None in
  r <- range (bq_query b) (bq_from b) (bq_to b) ;;
  let error := qr_error r in
  fetched <-
    match error with
    | Some e =>
        if isUndefinedColumn error then
          let fallback := buildJobsQuery filters (Some true) in
          result <- range (bq_query fallback) (bq_from fallback) (bq_to fallback) ;;
          match qr_error result with
          | Some e' => throw (PgThrown e')
          | None => ret (qr_data result, qr_count result, bq_page fallback)
          end
        else throw (PgThrown e)
    | None => ret (qr_data r, qr_count r, bq_page b)
    end ;;
  let '(data, count, page) := fetched in
  let limit := bq_limit b in
  let total := default 0 count in
  let totalPages := totalPagesOf total limit in
  ret (mkGetJobsResult (default [] data) total page totalPages limit).

End GetJobs.

Local Close Scope Z_scope.

(** ** Vocabulary of the specification *)

(** The Unicode blocks the heuristic treats as non-Latin scripts. *)
Definition Arabic (c : N) : Prop := 0x0600 <= c <= 0x06FF \/ 0x0750 <= c <= 0x077F.
Definition Cyrillic (c : N) : Prop := 0x0400 <= c <= 0x04FF.
Definition CJK (c : N) : Prop := 0x4E00 <= c <= 0x9FFF.
Definition Hebrew (c : N) : Prop := 0x0590 <= c <= 0x05FF.
Definition Thai (c : N) : Prop := 0x0E00 <= c <= 0x0E7F.

Definition NonLatinScript (c : N) : Prop :=
  Arabic c \/ Cyrillic c \/ CJK c \/ Hebrew c \/ Thai c.

(** The common Latin letters with diacritics: the letters of the character
    class and their capitals. *)
Definition LatinDiacritic (u : N) : Prop :=
  In u diacriticClass \/ In u (map upperPartner diacriticClass).

(** A string without surrogate code units: its characters are its code
    units. *)
Definition NoSurrogates (s : jsstring) : Prop :=
  forall u, In u s -> isHighSurrogate u = false /\ isLowSurrogate u = false.

(** [w'] is [w] after some more requests went out: nothing but the log of
    the network differs. *)
Definition netStep {number : Type} (w w' : World number) : Prop :=
  exists requests,
    w' = mkWorld (env_supabase_url w) (env_service_role_key w)
           (net_reply w) (net_log w ++ requests) (linkedin w)
           (db_rows w) (db_next_id w) (db_now w) (db_fault w) (db_page w) (db_log w).

(** The provider signals that the quota is used up. *)
Definition QuotaFinished {number : Type} `{JsNumber number} (data : JsValue number) : Prop :=
  truthy (getProp (lit "quotaFinished") data) = true.

(** The provider's answer carries the translated text [s]. *)
Definition TranslatedText {number : Type} (data : JsValue number) (s : jsstring) : Prop :=
  getProp (lit "translatedText") (getProp (lit "response") data) = JStr s.

(** The text [translateToEnglish] sends for a trimmed input. *)
Definition toTranslate (trimmed : jsstring) : jsstring :=
  if (MAX_CHARS_PER_REQUEST <? length trimmed)%nat
  then slice0 MAX_CHARS_PER_REQUEST trimmed
  else trimmed.

(** The translation a reply of the provider offers, in the words of the
    specification: the translated text of a successful answer that does not
    signal quota exhaustion, when that text is not empty. *)
Definition offeredTranslation {number : Type} `{JsNumber number}
    (reply : FetchResult number) : option jsstring :=
  match reply with
  | FetchRejects _ => None
  | FetchResponds res =>
      if res_ok res then
        match res_json res with
        | BodyRejects _ => None
        | BodyValue data =>
            if isNullish data then None
            else if truthy (getProp (lit "quotaFinished") data) then None
            else
              match getProp (lit "translatedText") (getProp (lit "response") data) with
              | JStr s => if str_truthy (trim s) then Some (trim s) else None
              | _ => None
              end
        end
      else None
  end.

(** What [ensureJobEnglish] does to a record: the record keeps everything
    but its four text fields, [location] comes out as a string, and
    [description] is absent afterwards exactly when it was absent before. *)
Definition rewritesText {R : Type} (job t : JobText R) : Prop :=
  extra t = extra job /\
  is_Some (location t) /\
  (description job = None <-> description t = None).

(** The client is configured: both environment variables are set. *)
Definition Configured {number : Type} (w : World number) : Prop :=
  str_truthy (default [] (env_supabase_url w)) = true /\
  str_truthy (default [] (env_service_role_key w)) = true.

(** The database fails no statement. *)
Definition NoFaults {number : Type} (w : World number) : Prop :=
  forall log stmt, db_fault w log stmt = None.






#[export] Instance StoredJob_eq_dec : EqDecision StoredJob.
Proof. solve_decision. Defined.


(** [t] is what [ensureJobEnglish] made of [job]: besides [rewritesText],
    the location of [t] is the translation of a location that was there and
    not empty, and the empty string otherwise. *)
Definition translatedFrom {number : Type} `{JsNumber number} {R : Type}
    (job t : JobText R) : Prop :=
  rewritesText job t /\
  match location job with
  | Some l =>
      if str_truthy l
      then exists w1 w2 : World number,
             translateToEnglish l w1 = (Normal (default [] (location t)), w2)
      else location t = Some []
  | None => location t = Some []
  end.

(** The records of a source that [GET] keeps: those with an [apply_url]
    that is not blank. *)
Definition keptJobs (jobs : list NormalizedJob) : list NormalizedJob :=
  List.filter (fun j => str_truthy (trim (nj_apply_url j))) jobs.

(** [row] is the storage row the orchestrator builds for the normalized
    record [job]: same [apply_url], a location that is never empty, and
    ["Remote"] when the record has no location or the adapter's default. *)
Definition rowFor (job : NormalizedJob) (row : UpsertRow) : Prop :=
  row_apply_url row = nj_apply_url job /\
  row_location row <> [] /\
  (nj_location job = [] \/ nj_location job = lit "Remote" ->
   row_location row = lit "Remote").

(** The table only grew: the rows that were there are there, unchanged and
    in place. *)
Definition tableGrows {number : Type} (w w' : World number) : Prop :=
  exists added, db_rows w' = db_rows w ++ added.

(** The requests of the three adapters of [fetchAllJobSources]. *)
Definition remotiveRequest : Request :=
  mkRequest (lit "https://remotive.com/api/remote-jobs?limit=" ++ decimal 150) [].
Definition remoteOkRequest : Request :=
  mkRequest (lit "https://remoteok.com/api") [].
Definition arbeitNowRequest : Request :=
  mkRequest (lit "https://www.arbeitnow.com/api/job-board-api") [].

(** A fetch failure in the sense of the specification: the request times
    out or is otherwise rejected, or the response has a non-success status.
    The value is the message of the error [fetchJson] throws. *)
Definition fetchFailure {number : Type} (reply : FetchResult number) : option jsstring :=
  match reply with
  | FetchRejects message => Some message
  | FetchResponds res =>
      if res_ok res then None
      else Some (res_status res ++ lit " " ++ res_statusText res)
  end.

(** The body of a successful JSON response. *)
Definition jsonBody {number : Type} (reply : FetchResult number) : option (JsValue number) :=
  match reply with
  | FetchRejects _ => None
  | FetchResponds res =>
      if res_ok res then
        match res_json res with
        | BodyValue v => Some v
        | BodyRejects _ => None
        end
      else None
  end.


(** The database log only grew. *)
Definition logGrows {number : Type} (w w' : World number) : Prop :=
  exists more, db_log w' = db_log w ++ more.

(** [o] is the normalized record the ArbeitNow adapter makes of [j]. *)
Definition arbeitNowNormalizes {number : Type} `{JsNumber number}
    (j : JsValue number) (o : NormalizedJob) : Prop :=
  forall w : World number, arbeitNowJob j w = (Normal o, w).




(** A condition on one of the optional columns [category] and
    [experience_level]. *)
Definition onOptionalColumn (c : Condition) : bool :=
  match c with
  | OrFilter _ => false
  | ILike column _ =>
      bool_decide (column = lit "category") ||
      bool_decide (column = lit "experience_level")
  end.

(** The first query of [getJobs] and the query of its retry. *)
Definition firstQuery (filters : JobFilters) : Statement :=
  let b := buildJobsQuery filters None in
  SelectPage (bq_query b) (bq_from b) (bq_to b).

Definition retryQuery (filters : JobFilters) : Statement :=
  let b := buildJobsQuery filters (Some true) in
  SelectPage (bq_query b) (bq_from b) (bq_to b).

(** The result [getJobs] builds from the rows and the count of a page. *)
Definition pageResult (filters : JobFilters)
    (page : option (list StoredJob) * option Z) : GetJobsResult :=
  let b := buildJobsQuery filters None in
  let total := default 0%Z (snd page) in
  mkGetJobsResult (default [] (fst page)) total (bq_page b)
    (totalPagesOf total (bq_limit b)) (bq_limit b).

(** ** A runtime for integer-valued numbers

    An instance of the number interface for the numbers that are integers
    of magnitude below 2^53 (ids, counts, epoch seconds), which JavaScript
    prints in plain decimal; it is what the examples below run on. *)

Definition zToString (z : Z) : jsstring :=
  if (z <? 0)%Z then lit "-" ++ decimal (Z.abs_N z) else decimal (Z.to_N z).

(** [n] printed with at least [width] digits. *)
Definition padded (width : nat) (n : Z) : jsstring :=
  let digits := decimal (Z.to_N n) in
  repeat 0x30 (width - length digits) ++ digits.

(** The proleptic Gregorian date of a day number counted from 1970-01-01. *)
Definition civilFromDays (days : Z) : Z * Z * Z :=
  let z := (days + 719468)%Z in
  let era := (z / 146097)%Z in
  let doe := (z - era * 146097)%Z in
  let yoe := ((doe - doe / 1460 + doe / 36524 - doe / 146096) / 365)%Z in
  let doy := (doe - (365 * yoe + yoe / 4 - yoe / 100))%Z in
  let mp := ((5 * doy + 2) / 153)%Z in
  let d := (doy - (153 * mp + 2) / 5 + 1)%Z in
  let m := (if (mp <? 10)%Z then mp + 3 else mp - 9)%Z in
  let y := (yoe + era * 400 + (if (m <=? 2)%Z then 1 else 0))%Z in
  (y, m, d).

Definition isoYear (y : Z) : jsstring :=
  if ((0 <=? y) && (y <=? 9999))%Z then padded 4 y
  else if (y <? 0)%Z then lit "-" ++ padded 6 (- y)
  else lit "+" ++ padded 6 y.

(** [new Date(seconds * 1000).toISOString()]; a time value beyond
    8.64e15 milliseconds is an invalid date. *)
Definition zEpochSecondsToISO (seconds : Z) : option jsstring :=
  if (8640000000000 <? Z.abs seconds)%Z then None
  else
    let '(y, m, d) := civilFromDays (seconds / 86400) in
    let s := (seconds mod 86400)%Z in
    Some (isoYear y ++ lit "-" ++ padded 2 m ++ lit "-" ++ padded 2 d ++ lit "T" ++
          padded 2 (s / 3600) ++ lit ":" ++ padded 2 (s mod 3600 / 60) ++ lit ":" ++
          padded 2 (s mod 60) ++ lit ".000Z").

#[export] Instance integerNumbers : JsNumber Z := {
  numberToString := zToString;
  numberTruthy := fun z => negb (z =? 0)%Z;
  epochSecondsToISO := zEpochSecondsToISO
}.

(** A world with a configured database client in which no request gets an
    answer, no statement fails and the table is empty. *)
Definition quietWorld : World Z :=
  {| env_supabase_url := Some (lit "https://db.example");
     env_service_role_key := Some (lit "key");
     net_reply := fun _ _ => FetchRejects (lit "fetch failed");
     net_log := [];
     linkedin := NotAFunction;
     db_rows := [];
     db_next_id := 1;
     db_now := fun _ => 0;
     db_fault := fun _ _ => None;
     db_page := fun _ _ _ _ => (None, None);
     db_log := [] |}.

(** The answer of the translation provider that carries [text]. *)
Definition providerAnswer (text : jsstring) : FetchResult Z :=
  FetchResponds
    (mkResponse true (lit "200") (lit "OK")
       (BodyValue
          (JObj {[ lit "response" := JObj {[ lit "translatedText" := JStr text ]} ]}))).

(** A world like [quietWorld] in which every request is answered by the
    translation provider, with the text "Remote engineer wanted". *)
Definition translatingWorld : World Z :=
  {| env_supabase_url := Some (lit "https://db.example");
     env_service_role_key := Some (lit "key");
     net_reply := fun _ _ => providerAnswer (lit "Remote engineer wanted");
     net_log := [];
     linkedin := NotAFunction;
     db_rows := [];
     db_next_id := 1;
     db_now := fun _ => 0;
     db_fault := fun _ _ => None;
     db_page := fun _ _ _ _ => (None, None);
     db_log := [] |}.



(** A fetched source with one English listing. *)
Definition oneListing : FetchJobsResult :=
  {| fr_source := lit "remotive";
     fr_count := 1;
     fr_jobs :=
       [ {| nj_title := lit "Backend Engineer";
            nj_company := lit "Acme";
            nj_location := lit "Remote";
            nj_category := None;
            nj_description := None;
            nj_publication_date := None;
            nj_apply_url := lit "https://jobs.example/1";
            nj_experience_level := None |} ];
     fr_error := None |}.

(** A successful response with the JSON body [body]. *)
Definition okResponse (body : JsValue Z) : FetchResult Z :=
  FetchResponds (mkResponse true (lit "200") (lit "OK") (BodyValue body)).

(** A world like [quietWorld] in which every request is answered with the
    JSON body [body]. *)
Definition answering (body : JsValue Z) : World Z :=
  {| env_supabase_url := Some (lit "https://db.example");
     env_service_role_key := Some (lit "key");
     net_reply := fun _ _ => okResponse body;
     net_log := [];
     linkedin := NotAFunction;
     db_rows := [];
     db_next_id := 1;
     db_now := fun _ => 0;
     db_fault := fun _ _ => None;
     db_page := fun _ _ _ _ => (None, None);
     db_log := [] |}.





(** A world like [quietWorld] whose database counts [count] rows for every
    page query. *)
Definition counting (count : Z) : World Z :=
  {| env_supabase_url := Some (lit "https://db.example");
     env_service_role_key := Some (lit "key");
     net_reply := fun _ _ => FetchRejects (lit "fetch failed");
     net_log := [];
     linkedin := NotAFunction;
     db_rows := [];
     db_next_id := 1;
     db_now := fun _ => 0;
     db_fault := fun _ _ => None;
     db_page := fun _ _ _ _ => (Some [], Some count);
     db_log := [] |}.


(** Filters that ask for a category, with the page size of the listing
    page. *)
Definition categoryFilters : JobFilters :=
  {| f_search := Some (lit "rust");
     f_location := None;
     f_category := Some (lit "Software");
     f_experience := None;
     f_remote := Some true;
     f_sort := Some Newest;
     f_page := Some 0%Z;
     f_limit := Some 12%Z |}.

(** ** app/api/scrape-linkedin/route.ts *)

(** [{ success: true, fetched, inserted }], or [{ success: false, error }]
    with status 500. *)
Inductive ScrapeResponse : Type :=
  | ScrapeOk (fetched inserted : nat)
  | ScrapeFailed (error : jsstring).

Section ScrapeRoute.
Context {number : Type} `{JsNumber number}.

(** [runScrape], which [GET] and [POST] both return.  The message of the
    failure is [e.message] for an [Error], and [String(e)] for the error
    object of the database client. *)
Definition runScrape : M number ScrapeResponse :=
  try_catch
    (r <- scrapeAndInsertLinkedInJobs ;;
     ret (ScrapeOk (sr_fetched r) (sr_inserted r)))
    (fun e => ret (ScrapeFailed (errorMessage e))).

Definition GET_scrape_linkedin : M number ScrapeResponse := runScrape.
Definition POST_scrape_linkedin : M number ScrapeResponse := runScrape.

End ScrapeRoute.

(** ** URLSearchParams

    The query string of a link is kept as the list of name-value pairs that
    [params.toString()] serializes, in order.  Names and values are stored
    as the platform stores them: with each surrogate code unit that has no
    partner replaced by U+FFFD. *)

Abbreviation SearchParams := (list (jsstring * jsstring)).

Fixpoint usv (s : jsstring) : jsstring :=
  match s with
  | [] => []
  | hi :: rest =>
      match rest with
      | lo :: rest' =>
          if isHighSurrogate hi && isLowSurrogate lo then hi :: lo :: usv rest'
          else (if isHighSurrogate hi || isLowSurrogate hi then 0xFFFD else hi) :: usv rest
      | [] => [if isHighSurrogate hi || isLowSurrogate hi then 0xFFFD else hi]
      end
  end.

Definition hasName (name : jsstring) (p : jsstring * jsstring) : bool :=
  bool_decide (fst p = usv name).

(** [params.append(name, value)] *)
Definition paramsAppend (name value : jsstring) (ps : SearchParams) : SearchParams :=
  ps ++ [(usv name, usv value)].

(** [params.delete(name)] *)
Definition paramsDelete (name : jsstring) (ps : SearchParams) : SearchParams :=
  List.filter (fun p => negb (hasName name p)) ps.

(** [params.set(name, value)]: the first pair of that name takes the value
    and the other pairs of that name go; without such a pair, one is
    appended. *)
Fixpoint paramsSet (name value : jsstring) (ps : SearchParams) : SearchParams :=
  match ps with
  | [] => [(usv name, usv value)]
  | p :: rest =>
      if hasName name p then (usv name, usv value) :: paramsDelete name rest
      else p :: paramsSet name value rest
  end.

(** A link of the listing page: [`${path}?${params.toString()}`]. *)
Record Href : Type := mkHref {
  href_path : jsstring;
  href_params : SearchParams
}.

(** ** components/JobsPagination.tsx *)

(** A value of the [searchParams] object of the page. *)
Inductive ParamValue : Type :=
  | PString (s : jsstring)
  | PArray (values : list jsstring)
  | PUndefined.

(** What the component renders, from left to right. *)
Inductive PaginationItem : Type :=
  | Previous (href : option Href)     (* a link, or the disabled label *)
  | PageLink (label : Z) (href : Href)
  | CurrentPage (label : Z)
  | Ellipsis
  | Next (href : option Href).

Module JobsPagination.

Local Open Scope Z_scope.

(** [searchParams] is given as [Object.entries] lists it. *)
Definition buildUrl (searchParams : list (jsstring * ParamValue)) (page : Z) : Href :=
  let params : SearchParams := [] in
  let params :=
    fold_left
      (fun params '(key, value) =>
         if bool_decide (key = lit "page") then params
         else
           match value with
           | PArray values => fold_left (fun ps v => paramsAppend key v ps) values params
           | PString s => if str_truthy s then paramsSet key s params else params
           | PUndefined => params
           end)
      searchParams params in
  let params := paramsSet (lit "page") (zToString page) params in
  mkHref (lit "/jobs") params.

(** The loop [for (let i = start; i <= end; i++) range.push(i)]. *)
Fixpoint pushRange (fuel : nat) (i end_ : Z) (range : list Z) : list Z :=
  match fuel with
  | O => range
  | S fuel' =>
      if i <=? end_ then pushRange fuel' (i + 1) end_ (range ++ [i]) else range
  end.

Definition getPageNumbers (currentPage totalPages : Z) : list Z :=
  let delta := 2 in
  let start := Z.max 0 (currentPage - delta) in
  let end_ := Z.min (totalPages - 1) (currentPage + delta) in
  pushRange (Z.to_nat (end_ - start + 1)) start end_ [].

Definition JobsPagination (currentPage totalPages : Z)
    (searchParams : list (jsstring * ParamValue)) : list PaginationItem :=
  let prevPage := Z.max 0 (currentPage - 1) in
  let nextPage := Z.min (totalPages - 1) (currentPage + 1) in
  let prevUrl := buildUrl searchParams prevPage in
  let nextUrl := buildUrl searchParams nextPage in
  let showPrev := 0 <? currentPage in
  let showNext := currentPage <? totalPages - 1 in
  [Previous (if showPrev then Some prevUrl else None)] ++
  (if 2 <? currentPage
   then [PageLink 1 (buildUrl searchParams 0)] ++
        (if 3 <? currentPage then [Ellipsis] else [])
   else []) ++
  map (fun p =>
         if p =? currentPage then CurrentPage (p + 1)
         else PageLink (p + 1) (buildUrl searchParams p))
    (getPageNumbers currentPage totalPages) ++
  (if currentPage <? totalPages - 3
   then (if currentPage <? totalPages - 4 then [Ellipsis] else []) ++
        [PageLink totalPages (buildUrl searchParams (totalPages - 1))]
   else []) ++
  [Next (if showNext then Some nextUrl else None)].

End JobsPagination.

(** ** components/JobsSearchBar.tsx *)

Module JobsSearchBar.

(** [handleSubmit] on the state [search], [location]: the link it pushes. *)
Definition handleSubmit (search location : jsstring) : Href :=
  let params : SearchParams := [] in
  let params :=
    if str_truthy (trim search) then paramsSet (lit "search") (trim search) params
    else params in
  let params :=
    if str_truthy (trim location) then paramsSet (lit "location") (trim location) params
    else params in
  let params := paramsSet (lit "page") (lit "0") params in
  mkHref (lit "/jobs") params.

End JobsSearchBar.

(** ** components/JobsFilters.tsx *)

(** The state of the filter panel. *)
Record FilterState : Type := mkFilterState {
  st_search : jsstring;
  st_location : jsstring;
  st_category : jsstring;
  st_experience : jsstring;
  st_remote : bool;
  st_sort : jsstring
}.

Module JobsFilters.

(** [getString] on an optional text. *)
Definition getString (value : option jsstring) : jsstring :=
  match value with None => [] | Some s => s end.

(** [applyFilters(overrides)] with the parameters of the current URL: the
    link it pushes.  [page] is [overrides?.page]. *)
Definition applyFilters (st : FilterState) (searchParams : SearchParams)
    (page : option Z) : Href :=
  let params := searchParams in
  let params := paramsSet (lit "page") (zToString (default 0%Z page)) params in
  let params :=
    if str_truthy (trim (st_search st))
    then paramsSet (lit "search") (trim (st_search st)) params
    else paramsDelete (lit "search") params in
  let params :=
    if str_truthy (trim (st_location st))
    then paramsSet (lit "location") (trim (st_location st)) params
    else paramsDelete (lit "location") params in
  let params :=
    if str_truthy (trim (st_category st))
    then paramsSet (lit "category") (trim (st_category st)) params
    else paramsDelete (lit "category") params in
  let params :=
    if str_truthy (st_experience st)
    then paramsSet (lit "experience") (st_experience st) params
    else paramsDelete (lit "experience") params in
  let params :=
    if st_remote st then paramsSet (lit "remote") (lit "1") params
    else paramsDelete (lit "remote") params in
  let params :=
    if str_truthy (st_sort st) && negb (bool_decide (st_sort st = lit "newest"))
    then paramsSet (lit "sort") (st_sort st) params
    else paramsDelete (lit "sort") params in
  mkHref (lit "/jobs") params.

(** [hasActiveFilters], as the condition of the "Clear all" button reads
    it. *)
Definition hasActiveFilters (st : FilterState) : bool :=
  str_truthy (trim (st_search st)) ||
  str_truthy (trim (st_location st)) ||
  str_truthy (trim (st_category st)) ||
  str_truthy (st_experience st) ||
  st_remote st ||
  (str_truthy (st_sort st) && negb (bool_decide (st_sort st = lit "newest"))).

End JobsFilters.

(** ** components/JobCard.tsx *)

(** The [job] of the properties of a card. *)
Record CardJob : Type := mkCardJob {
  cj_title : option jsstring;
  cj_company : option jsstring;
  cj_company_name : option jsstring;
  cj_location : option jsstring;
  cj_candidate_required_location : option jsstring;
  cj_description : option jsstring;
  cj_apply_url : option jsstring;
  cj_url : option jsstring
}.

(** What the card shows of it, but for the date and the badges that repeat
    a field. *)
Record CardView : Type := mkCardView {
  cv_company : jsstring;
  cv_location : jsstring;
  cv_applyUrl : jsstring;
  cv_title : jsstring;
  cv_snippet : jsstring;
  cv_ellipsis : bool;       (* the snippet is followed by an ellipsis *)
  cv_remote : bool          (* the "Remote" badge *)
}.

Module JobCard.

(** [html.replace(/<[^>]*>/g, empty)]: at a "<" that has a ">" after it, all
    up to the first such ">" goes; any other code unit stays. *)
Fixpoint removeTags (s : jsstring) : jsstring :=
  match s with
  | [] => []
  | u :: rest =>
      if u =? 0x3C then
        match (fix closing (t : jsstring) : option jsstring :=
                 match t with
                 | [] => None
                 | v :: t' => if v =? 0x3E then Some (removeTags t') else closing t'
                 end) rest with
        | Some stripped => stripped
        | None => u :: removeTags rest
        end
      else u :: removeTags rest
  end.

Definition stripHtml (html : option jsstring) : jsstring :=
  match html with
  | Some h => if str_truthy h then trim (removeTags h) else []
  | None => []
  end.

(** The upper-case form of an ASCII letter.  A regular expression with the
    [i] flag and no [u] flag compares upper-case forms, and never lets a
    character beyond ASCII match an ASCII one. *)
Definition asciiUpper (u : N) : N :=
  if (0x61 <=? u) && (u <=? 0x7A) then u - 0x20 else u.

(** [/remote/i.test(loc)] *)
Definition isRemote (loc : option jsstring) : bool :=
  match loc with
  | Some l => if str_truthy l then includes (lit "REMOTE") (map asciiUpper l) else false
  | None => false
  end.

(** A member of [[mwd]] under the [i] flag. *)
Definition genderLetter (u : N) : bool :=
  existsb (N.eqb (asciiUpper u)) [0x4D; 0x57; 0x44].

(** [\([mwd]\/[mwd]\/[mwd]\)] at the head of [s]: what follows it. *)
Definition matchDesignation (s : jsstring) : option jsstring :=
  match s with
  | p :: a :: s1 :: b :: s2 :: c :: q :: rest =>
      if (p =? 0x28) && genderLetter a && (s1 =? 0x2F) && genderLetter b &&
         (s2 =? 0x2F) && genderLetter c && (q =? 0x29)
      then Some rest else None
  | _ => None
  end.

(** [\s*\([mwd]\/[mwd]\/[mwd]\)\s*] at the head of [s]: what follows it.
    The white space before the parenthesis is all of it (with less of it
    the parenthesis cannot follow), and so is the white space after. *)
Definition matchPattern (s : jsstring) : option jsstring :=
  match matchDesignation (trimStart s) with
  | Some rest => Some (trimStart rest)
  | None => None
  end.

(** [text.replace(/\s*\([mwd]\/[mwd]\/[mwd]\)\s*/gi, " ")]: from left to
    right, a match is replaced and the search goes on after it, any other
    code unit is kept.  Every step uses up a code unit at least, so the
    [fuel] of [stripGenderDesignation] is enough. *)
Fixpoint replaceDesignations (fuel : nat) (s : jsstring) : jsstring :=
  match fuel with
  | O => s
  | S fuel' =>
      match matchPattern s with
      | Some rest => 0x20 :: replaceDesignations fuel' rest
      | None =>
          match s with
          | [] => []
          | u :: s' => u :: replaceDesignations fuel' s'
          end
      end
  end.

(** [s.replace(/\s+/g, " ")]: [inRun] says that the code unit before was
    white space. *)
Fixpoint collapseSpaces (inRun : bool) (s : jsstring) : jsstring :=
  match s with
  | [] => []
  | u :: rest =>
      if isWhiteSpace u
      then (if inRun then collapseSpaces true rest else 0x20 :: collapseSpaces true rest)
      else u :: collapseSpaces false rest
  end.

Definition stripGenderDesignation (text : option jsstring) : jsstring :=
  match text with
  | Some t =>
      if str_truthy t
      then trim (collapseSpaces false (replaceDesignations (S (length t)) t))
      else []
  | None => []
  end.

(** [a || b] on strings *)
Definition orString (a b : jsstring) : jsstring := if str_truthy a then a else b.

Definition JobCard (job : CardJob) : CardView :=
  let company := default (default (lit "Company") (cj_company_name job)) (cj_company job) in
  let location :=
    default (default [0x2014] (cj_candidate_required_location job)) (cj_location job) in
  let applyUrl := default (default (lit "#") (cj_url job)) (cj_apply_url job) in
  let title :=
    orString (stripGenderDesignation (cj_title job))
      (orString (default [] (cj_title job)) []) in
  let snippet := slice0 160 (stripHtml (cj_description job)) in
  let remote := isRemote (Some location) in
  {| cv_company := company;
     cv_location := location;
     cv_applyUrl := applyUrl;
     cv_title := title;
     cv_snippet := snippet;
     cv_ellipsis :=
       str_truthy snippet && (160 <? length (stripHtml (cj_description job)))%nat;
     cv_remote := remote |}.

End JobCard.

(** ** lib/sources/jobicy.ts

    The adapter as this file has it: it keeps the records whose [url] and
    [jobTitle] are truthy, and reads [jobGeo], [jobExcerpt] and
    [jobDescription]. *)

Module JobicySource.
Section JobicySource.
Context {number : Type} `{JsNumber number}.

(** [j?.url && j?.jobTitle], as [filter] reads it *)
Definition jobicyKeep (j : JsValue number) : bool :=
  truthy (getPropOpt (lit "url") j) && truthy (getPropOpt (lit "jobTitle") j).

Definition jobicyJob (j : JsValue number) : JobicyJobRow :=
  {| jr_title := toStr (nullishOr (getProp (lit "jobTitle") j) (JStr []));
     jr_company := toStr (nullishOr (getProp (lit "companyName") j) (JStr []));
     jr_location :=
       toStr (nullishOr (getProp (lit "jobGeo") j) (JStr (lit "Remote")));
     jr_description :=
       if negb (isNullish (getProp (lit "jobExcerpt") j))
       then Some (toStr (getProp (lit "jobExcerpt") j))
       else strOrNull (getProp (lit "jobDescription") j);
     jr_apply_url := toStr (nullishOr (getProp (lit "url") j) (JStr [])) |}.

Definition fetchJobicyJobs : M number (list JobicyJobRow) :=
  try_catch
    (res <- fetch (mkRequest (lit "https://jobicy.com/api/v2/remote-jobs?count=" ++ decimal 100) []) ;;
     if negb (res_ok res)
     then throw (ErrorObject (res_status res ++ lit " " ++ res_statusText res))
     else
       data <- resJson res ;;
       let jobs := arrayOrEmpty (getPropOpt (lit "jobs") data) in
       ret (map jobicyJob (List.filter jobicyKeep jobs)))
    (fun e => throw e).

End JobicySource.
End JobicySource.

(** ** lib/scrapers/linkedinScraperSpinlud.ts *)

Module Spinlud.

(** What the scraper hands to the [data] event. *)
Record ScraperData : Type := mkScraperData {
  sd_title : option jsstring;
  sd_company : option jsstring;
  sd_place : option jsstring;
  sd_date : option jsstring;
  sd_dateText : option jsstring;
  sd_link : option jsstring
}.

Record LinkedInJobRow : Type := mkLinkedInJobRow {
  lr_title : jsstring;
  lr_company : jsstring;
  lr_location : jsstring;
  lr_posted_date : jsstring;
  lr_job_url : jsstring;
  lr_source : jsstring
}.

Definition SOURCE : jsstring := lit "LinkedIn".

Definition mapJobToRow (data : ScraperData) : LinkedInJobRow :=
  {| lr_title := default [] (sd_title data);
     lr_company := default [] (sd_company data);
     lr_location := default [] (sd_place data);
     lr_posted_date := default (default [] (sd_dateText data)) (sd_date data);
     lr_job_url := default [] (sd_link data);
     lr_source := SOURCE |}.

(** The handler of the [data] event, on the array [jobs]. *)
Definition onData (jobs : list LinkedInJobRow) (data : ScraperData) : list LinkedInJobRow :=
  match sd_link data with
  | Some link => if str_truthy (trim link) then jobs ++ [mapJobToRow data] else jobs
  | None => jobs
  end.

(** [rows] of the handler of the [end] event: what it hands to [upsert]. *)
Definition rowsOf (jobs : list LinkedInJobRow) : list LinkedInJobRow :=
  map (fun r => mkLinkedInJobRow (lr_title r) (lr_company r) (lr_location r)
                  (lr_posted_date r) (lr_job_url r) (lr_source r))
    (List.filter (fun r => (0 <? length (lr_job_url r))%nat) jobs).

End Spinlud.

(** ** Further vocabulary *)

(** A string that neither begins nor ends with white space. *)
Definition Trimmed (s : jsstring) : Prop :=
  (forall u rest, s = u :: rest -> isWhiteSpace u = false) /\
  (forall u front, s = front ++ [u] -> isWhiteSpace u = false).

(** A text [translateToEnglish] leaves to itself: blank, or likely English
    once trimmed. *)
Definition LooksEnglish (s : jsstring) : Prop :=
  trim s = [] \/ isLikelyEnglish (trim s) = true.

(** A request to the translation provider as the API limit wants it: a
    text of one to [MAX_CHARS_PER_REQUEST] code units, to be translated
    from any language to English. *)
Definition TranslationRequest (req : Request) : Prop :=
  exists q,
    req = mkRequest MYMEMORY_URL [(lit "q", q); (lit "langpair", lit "auto|en")] /\
    q <> [] /\ (length q <= MAX_CHARS_PER_REQUEST)%nat.

(** [w'] is [w] after exactly [requests] went out, in this order; nothing
    but the log of the network differs. *)
Definition sent {number : Type} (requests : list Request) (w w' : World number) : Prop :=
  w' = mkWorld (env_supabase_url w) (env_service_role_key w)
         (net_reply w) (net_log w ++ requests) (linkedin w)
         (db_rows w) (db_next_id w) (db_now w) (db_fault w) (db_page w) (db_log w).

(** What [ensureJobEnglish] makes of a job whose texts it leaves to
    themselves: every text trimmed, the description cut to the request
    budget before that. *)
Definition trimmedJob {R : Type} (job : JobText R) : JobText R :=
  mkJobText (trim (title job)) (trim (company job))
    (Some (trim (default [] (location job))))
    (match description job with
     | Some d =>
         if str_truthy d && str_truthy (trim d)
         then Some (trim (slice0 MAX_CHARS_PER_REQUEST d))
         else Some d
     | None => None
     end)
    (extra job).

(** A job none of whose texts [ensureJobEnglish] would send out. *)
Definition EnglishJob {R : Type} (job : JobText R) : Prop :=
  LooksEnglish (title job) /\ LooksEnglish (company job) /\
  LooksEnglish (default [] (location job)) /\
  LooksEnglish (slice0 MAX_CHARS_PER_REQUEST (default [] (description job))).

(** What every run of [ensureJobEnglish] makes sure of in its result [t]. *)
Definition tidied {R : Type} (job t : JobText R) : Prop :=
  extra t = extra job /\
  Trimmed (title t) /\ Trimmed (company t) /\
  (exists l, location t = Some l /\ Trimmed l) /\
  (title t = [] <-> trim (title job) = []) /\
  (company t = [] <-> trim (company job) = []) /\
  (EnglishJob job -> t = trimmedJob job).


(** A stored row as the ingestion routes mean to write it: an [apply_url]
    that is not blank, a title and a company without white space around
    them, and a location that is not empty. *)
Definition TidyRow (s : StoredJob) : Prop :=
  trim (job_apply_url s) <> [] /\
  Trimmed (job_title s) /\ Trimmed (job_company s) /\
  job_location s <> [] /\ Trimmed (job_location s).

(** [s'] is the row [s] with, at most, its four text fields rewritten. *)
Definition SameIdentity (s s' : StoredJob) : Prop :=
  job_id s' = job_id s /\
  job_apply_url s' = job_apply_url s /\
  job_category s' = job_category s /\
  job_publication_date s' = job_publication_date s /\
  job_experience_level s' = job_experience_level s /\
  job_created_at s' = job_created_at s.

(** The filters [filters] asked for page [p]. *)
Definition withPage (p : option Z) (filters : JobFilters) : JobFilters :=
  {| f_search := f_search filters;
     f_location := f_location filters;
     f_category := f_category filters;
     f_experience := f_experience filters;
     f_remote := f_remote filters;
     f_sort := f_sort filters;
     f_page := p;
     f_limit := f_limit filters |}.

(** A text filter in normal form: trimmed, and absent when blank. *)
Definition cleanFilter (v : option jsstring) : option jsstring :=
  match v with
  | Some s => if str_truthy (trim s) then Some (trim s) else None
  | None => None
  end.

Definition cleanFilters (filters : JobFilters) : JobFilters :=
  {| f_search := cleanFilter (f_search filters);
     f_location := cleanFilter (f_location filters);
     f_category := cleanFilter (f_category filters);
     f_experience := cleanFilter (f_experience filters);
     f_remote := f_remote filters;
     f_sort := f_sort filters;
     f_page := f_page filters;
     f_limit := f_limit filters |}.

(** The values a [URLSearchParams] holds under a name, in order:
    [params.getAll(name)]. *)
Definition paramsGetAll (name : jsstring) (ps : SearchParams) : list jsstring :=
  map snd (List.filter (hasName name) ps).

(** The pairs [buildUrl] writes for one entry of [searchParams]. *)
Definition entryPairs (entry : jsstring * ParamValue) : SearchParams :=
  match snd entry with
  | PArray values => map (fun v => (usv (fst entry), usv v)) values
  | PString s => if str_truthy s then [(usv (fst entry), usv s)] else []
  | PUndefined => []
  end.



(** The values of a parameter that is there once, with the value [v], or
    not at all. *)
Definition onceIf (shown : bool) (v : jsstring) : list jsstring :=
  if shown then [usv v] else [].

(** The parameters the filter panel writes. *)
Definition filterNames : list jsstring :=
  [lit "search"; lit "location"; lit "category"; lit "experience";
   lit "remote"; lit "sort"].

(** What follows the first ">" of [t], if there is one. *)
Fixpoint afterTag (t : jsstring) : option jsstring :=
  match t with
  | [] => None
  | v :: t' => if v =? 0x3E then Some t' else afterTag t'
  end.

(** [s] has a tag: a "<" with a ">" somewhere after it. *)
Definition HasTag (s : jsstring) : Prop :=
  exists pre mid post, s = pre ++ [0x3C] ++ mid ++ [0x3E] ++ post.

(** A gender designation: "(m/w/d)" with the letters m, w and d in any
    order, any number of times and either case. *)
Definition GenderLetter (u : N) : Prop :=
  In u [0x6D; 0x77; 0x64; 0x4D; 0x57; 0x44].

Definition Designation (d : jsstring) : Prop :=
  exists a b c,
    GenderLetter a /\ GenderLetter b /\ GenderLetter c /\
    d = [0x28; a; 0x2F; b; 0x2F; c; 0x29].

Definition HasDesignation (s : jsstring) : Prop :=
  exists pre d post, Designation d /\ s = pre ++ d ++ post.

(** White space only comes as single spaces. *)
Definition SingleSpaced (s : jsstring) : Prop :=
  forall pre u post,
    s = pre ++ u :: post -> isWhiteSpace u = true ->
    u = 0x20 /\ forall v post', post = v :: post' -> isWhiteSpace v = false.

(** [w] spells "remote", each letter in either case. *)
Definition SpellsRemote (w : jsstring) : Prop :=
  Forall2 (fun u c => u = c \/ u = c + 0x20) w (lit "REMOTE").

(** ** Further examples *)

(** A listing in English, with white space around its title. *)
Definition englishJob : JobText unit :=
  mkJobText (lit "  Backend Engineer ") (lit "Acme") (Some (lit "Remote"))
    (Some (lit "Build and run our services.")) tt.

(** An ArbeitNow feed of two records, the second with a [created_at] that
    is no date. *)
Definition arbeitNowRecord (url : jsstring) (created : Z) : JsValue Z :=
  JObj {[ lit "url" := JStr url;
          lit "title" := JStr (lit "Developer");
          lit "company_name" := JStr (lit "Acme");
          lit "created_at" := JNum created ]}.

Definition arbeitNowFeed : JsValue Z :=
  JObj {[ lit "data" :=
            JArr [arbeitNowRecord (lit "https://a.example/1") 1700000000%Z;
                  arbeitNowRecord (lit "https://a.example/2") 8640000000001%Z] ]}.

(** A world like [quietWorld] without the environment of the database
    client. *)
Definition unconfiguredWorld : World Z :=
  {| env_supabase_url := None;
     env_service_role_key := Some (lit "key");
     net_reply := fun _ _ => FetchRejects (lit "fetch failed");
     net_log := [];
     linkedin := NotAFunction;
     db_rows := [];
     db_next_id := 1;
     db_now := fun _ => 0;
     db_fault := fun _ _ => None;
     db_page := fun _ _ _ _ => (None, None);
     db_log := [] |}.

(** A feed with one listing under the key [jobs], as Remotive and Jobicy
    answer, its title with white space around it. *)
Definition oneJobFeed : JsValue Z :=
  JObj {[ lit "jobs" :=
            JArr [JObj {[ lit "url" := JStr (lit "https://jobs.example/7");
                          lit "title" := JStr (lit " Backend Engineer ");
                          lit "jobTitle" := JStr (lit " Backend Engineer ");
                          lit "company_name" := JStr (lit "Acme") ]}] ]}.


(** * Properties *)

Local Close Scope N_scope.

(** ** The runtime for integer-valued numbers, on known values *)

Example iso_2023 :
  zEpochSecondsToISO 1700000000 = Some (lit "2023-11-14T22:13:20.000Z").
Proof. vm_compute. reflexivity. Qed.

Example iso_epoch : zEpochSecondsToISO 0 = Some (lit "1970-01-01T00:00:00.000Z").
Proof. vm_compute. reflexivity. Qed.

Example iso_leap_day :
  zEpochSecondsToISO 951782400 = Some (lit "2000-02-29T00:00:00.000Z").
Proof. vm_compute. reflexivity. Qed.

Example iso_last_day :
  zEpochSecondsToISO 8640000000000 = Some (lit "+275760-09-13T00:00:00.000Z").
Proof. vm_compute. reflexivity. Qed.

Example iso_out_of_range : zEpochSecondsToISO 8640000000001 = None.
Proof. reflexivity. Qed.

Example toStr_array :
  toStr (JArr [JNum 1%Z; JNull; JStr (lit "a"); JArr [JNum (-2)%Z; JBool true]])
  = lit "1,,a,-2,true".
Proof. vm_compute. reflexivity. Qed.

(** ** Strings *)

Lemma trimStart_keeps (u : N) (s : jsstring) :
  In u s -> isWhiteSpace u = false -> In u (trimStart s).
Proof.
  induction s as [|v rest IH]; simpl; [tauto|].
  intros [-> | Hin] Hws.
  - rewrite Hws. now left.
  - destruct (isWhiteSpace v); [now apply IH | now right].
Qed.

Lemma trimStart_incl (s : jsstring) : incl (trimStart s) s.
Proof.
  induction s as [|v rest IH]; simpl; [apply incl_refl|].
  destruct (isWhiteSpace v); [now apply incl_tl | apply incl_refl].
Qed.

Lemma trim_keeps (u : N) (s : jsstring) :
  In u s -> isWhiteSpace u = false -> In u (trim s).
Proof.
  intros Hin Hws. unfold trim, trimEnd.
  apply -> in_rev. apply trimStart_keeps; [|exact Hws].
  apply -> in_rev. now apply trimStart_keeps.
Qed.

Lemma trim_incl (s : jsstring) : incl (trim s) s.
Proof.
  intros u Hin. unfold trim, trimEnd in Hin.
  apply in_rev in Hin. apply trimStart_incl in Hin.
  apply in_rev in Hin. now apply trimStart_incl in Hin.
Qed.

Lemma trimStart_length (s : jsstring) : length (trimStart s) <= length s.
Proof.
  induction s as [|v rest IH]; simpl; [lia|].
  destruct (isWhiteSpace v); simpl; lia.
Qed.

Lemma trim_length (s : jsstring) : length (trim s) <= length s.
Proof.
  unfold trim, trimEnd. rewrite length_rev.
  etransitivity; [apply trimStart_length|].
  rewrite length_rev. apply trimStart_length.
Qed.

Lemma codePoints_cons2 (hi lo : N) (rest : jsstring) :
  codePoints (hi :: lo :: rest) =
  if isHighSurrogate hi && isLowSurrogate lo
  then (0x10000 + (hi - 0xD800) * 0x400 + (lo - 0xDC00))%N :: codePoints rest
  else hi :: codePoints (lo :: rest).
Proof. reflexivity. Qed.

(** An induction principle that follows the recursion of [codePoints]. *)
Lemma codePoints_ind (P : jsstring -> Prop) :
  P [] ->
  (forall u, P [u]) ->
  (forall hi lo rest,
      isHighSurrogate hi && isLowSurrogate lo = true -> P rest -> P (hi :: lo :: rest)) ->
  (forall hi lo rest,
      isHighSurrogate hi && isLowSurrogate lo = false -> P (lo :: rest) -> P (hi :: lo :: rest)) ->
  forall s, P s.
Proof.
  intros Hnil Hone Hpair Hstep s.
  assert (Hboth : P s /\ forall u, P (u :: s)).
  { induction s as [|v rest [IH1 IH2]]; [split; auto|].
    split; [apply IH2|].
    intros u. destruct (isHighSurrogate u && isLowSurrogate v) eqn:E.
    - now apply Hpair.
    - apply Hstep; [exact E | apply IH2]. }
  apply Hboth.
Qed.

Lemma codePoints_unit (u : N) (s : jsstring) :
  In u s -> isHighSurrogate u = false -> isLowSurrogate u = false ->
  In u (codePoints s).
Proof.
  intros Hin Hhi Hlo. revert Hin.
  induction s as [|v|hi lo rest E IH|hi lo rest E IH] using codePoints_ind.
  - tauto.
  - simpl. tauto.
  - rewrite codePoints_cons2, E. apply andb_prop in E as [E1 E2].
    intros [-> | [-> | Hin]]; [congruence | congruence |].
    right. now apply IH.
  - rewrite codePoints_cons2, E. intros [-> | Hin]; [now left | right; now apply IH].
Qed.

(** A code point of a string is one of its code units or lies beyond the
    Basic Multilingual Plane. *)
Lemma codePoints_origin (c : N) (s : jsstring) :
  In c (codePoints s) -> In c s \/ (0x10000 <= c)%N.
Proof.
  induction s as [|v|hi lo rest E IH|hi lo rest E IH] using codePoints_ind.
  - tauto.
  - simpl. tauto.
  - rewrite codePoints_cons2, E. intros [<- | Hin]; [right; lia|].
    destruct (IH Hin) as [Hin' | Hbig]; [left; right; now right | now right].
  - rewrite codePoints_cons2, E. intros [<- | Hin]; [left; now left|].
    destruct (IH Hin) as [Hin' | Hbig]; [left; now right | now right].
Qed.

Lemma codePoints_no_surrogates (s : jsstring) :
  NoSurrogates s -> codePoints s = s.
Proof.
  induction s as [|v|hi lo rest E IH|hi lo rest E IH] using codePoints_ind;
    intros Hns; try reflexivity.
  - apply andb_prop in E as [E1 _].
    destruct (Hns hi (or_introl eq_refl)). congruence.
  - rewrite codePoints_cons2, E. f_equal. apply IH. intros u Hu. apply Hns. now right.
Qed.

(** ** isLikelyEnglish *)

Lemma nonLatinCode_spec (c : N) : nonLatinCode c = true <-> NonLatinScript c.
Proof.
  unfold nonLatinCode, NonLatinScript, Arabic, Cyrillic, CJK, Hebrew, Thai.
  repeat match goal with
         | |- context [if ?b then _ else _] => destruct b eqn:?
         end;
    repeat match goal with
           | E : (_ && _)%bool = true |- _ => apply andb_prop in E as [? ?]
           | E : (_ && _)%bool = false |- _ => apply andb_false_iff in E
           | E : (_ <=? _)%N = true |- _ => apply N.leb_le in E
           end;
    split; intros Hx; try discriminate; try reflexivity; try lia;
    repeat match goal with
           | E : _ \/ _ |- _ => destruct E
           | E : (_ <=? _)%N = false |- _ => apply N.leb_gt in E
           end; lia.
Qed.

Lemma NonLatinScript_bmp (c : N) :
  NonLatinScript c ->
  isWhiteSpace c = false /\ isHighSurrogate c = false /\ isLowSurrogate c = false /\
  (c < 0x10000)%N.
Proof.
  unfold NonLatinScript, Arabic, Cyrillic, CJK, Hebrew, Thai,
    isWhiteSpace, isHighSurrogate, isLowSurrogate.
  intros Hc.
  repeat split;
    repeat match goal with
           | |- (_ || _)%bool = false => apply orb_false_iff; split
           | |- (_ && _)%bool = false => apply andb_false_iff
           | |- (_ =? _)%N = false => apply N.eqb_neq
           end;
    try lia;
    rewrite ?N.leb_gt, ?N.leb_le; lia.
Qed.

(** The scan for a non-Latin script finds exactly the code units of the
    text that lie in one of the blocks: trimming and the pairing of
    surrogates do not touch them. *)
Lemma hasNonLatinScript_trim (text : jsstring) :
  hasNonLatinScript (trim text) = true <-> exists u, In u text /\ NonLatinScript u.
Proof.
  unfold hasNonLatinScript. rewrite existsb_exists. split.
  - intros (c & Hin & Hc). apply nonLatinCode_spec in Hc.
    exists c. split; [|exact Hc].
    destruct (codePoints_origin _ _ Hin) as [Hu | Hbig].
    + now apply trim_incl.
    + apply NonLatinScript_bmp in Hc. lia.
  - intros (u & Hin & Hu). exists u. split; [|now apply nonLatinCode_spec].
    destruct (NonLatinScript_bmp _ Hu) as (Hws & Hhi & Hlo & _).
    apply codePoints_unit; auto. now apply trim_keeps.
Qed.

Lemma matchesDiacriticClass_spec (u : N) :
  matchesDiacriticClass u = true <-> LatinDiacritic u.
Proof.
  unfold matchesDiacriticClass, LatinDiacritic. rewrite existsb_exists. split.
  - intros (m & Hm & E). apply orb_prop in E as [E | E]; apply N.eqb_eq in E; subst u.
    + now left.
    + right. now apply in_map.
  - intros [Hin | Hin].
    + exists u. split; [exact Hin|]. now rewrite N.eqb_refl.
    + apply in_map_iff in Hin as (m & <- & Hm). exists m. split; [exact Hm|].
      rewrite N.eqb_refl. apply orb_true_r.
Qed.

Lemma LatinDiacritic_not_space (u : N) : LatinDiacritic u -> isWhiteSpace u = false.
Proof.
  intros [Hin | Hin]; vm_compute in Hin;
    repeat (destruct Hin as [<- | Hin]; [reflexivity|]); destruct Hin.
Qed.

Lemma testDiacritics_trim (text : jsstring) :
  testDiacritics (trim text) = true <-> exists u, In u text /\ LatinDiacritic u.
Proof.
  unfold testDiacritics. rewrite existsb_exists. split.
  - intros (u & Hin & Hu). exists u. split; [now apply trim_incl|].
    now apply matchesDiacriticClass_spec.
  - intros (u & Hin & Hu). exists u. split; [|now apply matchesDiacriticClass_spec].
    apply trim_keeps; [exact Hin | now apply LatinDiacritic_not_space].
Qed.

Lemma isLikelyEnglish_long (text : jsstring) :
  2 <= length text ->
  isLikelyEnglish text =
  negb (hasNonLatinScript (trim text)) &&
  negb (3 * length (trim text) <? 20 * countNonAscii (trim text)) &&
  negb (testDiacritics (trim text)).
Proof.
  intros Hlen. unfold isLikelyEnglish.
  destruct text as [|u text]; [simpl in Hlen; lia|].
  replace (length (u :: text) <? 2) with false
    by (symmetry; apply Nat.ltb_ge; exact Hlen).
  simpl negb at 1. simpl orb.
  destruct (hasNonLatinScript _); [reflexivity|].
  destruct (_ <? _); [reflexivity|].
  now destruct (testDiacritics _).
Qed.

(** C4, as stated: a string that contains a CJK character and is still
    deemed English -- a single ideograph is "very short text". *)
Lemma isLikelyEnglish_single_ideograph :
  (exists u, In u [0x62DB%N] /\ CJK u) /\ isLikelyEnglish [0x62DB%N] = true.
Proof.
  split; [|reflexivity].
  exists 0x62DB%N. split; [now left | unfold CJK; lia].
Qed.

(** C4, amended: a text of fewer than two code units is deemed English; a
    text of at least two code units is not deemed English when one of its
    code units lies in an Arabic, Cyrillic, CJK, Hebrew or Thai block, when
    the non-ASCII code points of the trimmed text number more than 15% of
    its length, or when it contains a common Latin letter with a diacritic,
    and is deemed English otherwise.  In a trimmed text without surrogates
    the non-ASCII code points are the non-ASCII code units.  The Chinese
    sentence of the specification is not deemed English, the English one
    is. *)
Theorem isLikelyEnglish_decision (text : jsstring) :
  let t := trim text in
  (length text < 2 -> isLikelyEnglish text = true) /\
  (2 <= length text ->
   ((exists u, In u text /\ NonLatinScript u) -> isLikelyEnglish text = false) /\
   (3 * length t < 20 * countNonAscii t -> isLikelyEnglish text = false) /\
   ((exists u, In u text /\ LatinDiacritic u) -> isLikelyEnglish text = false) /\
   ((forall u, In u text -> ~ NonLatinScript u) ->
    20 * countNonAscii t <= 3 * length t ->
    (forall u, In u text -> ~ LatinDiacritic u) ->
    isLikelyEnglish text = true)) /\
  (NoSurrogates t ->
   countNonAscii t = length (List.filter (fun u => (127 <? u)%N) t)) /\
  isLikelyEnglish chineseSentence = false /\
  isLikelyEnglish englishSentence = true.
Proof.
  intros t. split; [|split; [|split; [|split; reflexivity]]].
  - intros Hshort. unfold isLikelyEnglish.
    replace (length text <? 2) with true by (symmetry; now apply Nat.ltb_lt).
    now rewrite orb_true_r.
  - intros Hlen. rewrite (isLikelyEnglish_long text Hlen). fold t.
    split; [|split; [|split]].
    + intros Hex. apply hasNonLatinScript_trim in Hex. fold t in Hex.
      now rewrite Hex.
    + intros Hmany. apply Nat.ltb_lt in Hmany. rewrite Hmany.
      now rewrite andb_false_r.
    + intros Hex. apply testDiacritics_trim in Hex. fold t in Hex.
      rewrite Hex. now rewrite andb_false_r.
    + intros Hscript Hfew Hdia.
      assert (E1 : hasNonLatinScript t = false).
      { destruct (hasNonLatinScript t) eqn:E; [|reflexivity].
        apply hasNonLatinScript_trim in E as (u & Hin & Hu).
        now destruct (Hscript u Hin). }
      assert (E2 : (3 * length t <? 20 * countNonAscii t) = false)
        by (apply Nat.ltb_ge; exact Hfew).
      assert (E3 : testDiacritics t = false).
      { destruct (testDiacritics t) eqn:E; [|reflexivity].
        apply testDiacritics_trim in E as (u & Hin & Hu).
        now destruct (Hdia u Hin). }
      now rewrite E1, E2, E3.
  - intros Hns. unfold countNonAscii. now rewrite codePoints_no_surrogates.
Qed.

Lemma isLikelyEnglish_decision_witness :
  isLikelyEnglish [] = true /\
  isLikelyEnglish chineseSentence = false /\
  isLikelyEnglish [0x63%N; 0x61%N; 0x66%N; 0xE9%N; 0x20%N] = false.
Proof.
  split; [|split].
  - refine (proj1 (isLikelyEnglish_decision []) _). simpl. lia.
  - refine (proj1 (proj1 (proj2 (isLikelyEnglish_decision chineseSentence)) _) _).
    + simpl. lia.
    + exists 0x62DB%N. split; [now left|].
      unfold NonLatinScript, CJK. right. right. left. lia.
  - refine (proj1 (proj2 (proj1 (proj2
      (isLikelyEnglish_decision [0x63%N; 0x61%N; 0x66%N; 0xE9%N; 0x20%N])) _)) _).
    + simpl. lia.
    + vm_compute. lia.
Defined.

(** ** Computations *)

Section MonadFacts.
Context {number : Type}.

Lemma netStep_refl (w : World number) : netStep w w.
Proof. exists []. rewrite app_nil_r. now destruct w. Qed.

Lemma netStep_trans (w1 w2 w3 : World number) :
  netStep w1 w2 -> netStep w2 w3 -> netStep w1 w3.
Proof.
  intros [r1 ->] [r2 ->]. exists (r1 ++ r2). simpl. now rewrite app_assoc.
Qed.

Lemma netStep_logRequest (req : Request) (w : World number) :
  netStep w (logRequest req w).
Proof. now exists [req]. Qed.

Lemma netStep_db_rows (w w' : World number) :
  netStep w w' -> db_rows w' = db_rows w.
Proof. now intros [r ->]. Qed.

Lemma bind_normal {A B} (m : M number A) (k : A -> M number B) w a w' :
  m w = (Normal a, w') -> bind m k w = k a w'.
Proof. intros E. unfold bind. now rewrite E. Qed.

Lemma bind_throw {A B} (m : M number A) (k : A -> M number B) w e w' :
  m w = (Throw e, w') -> bind m k w = (Throw e, w').
Proof. intros E. unfold bind. now rewrite E. Qed.

(** [mapM] over a concatenation runs the first part, then the second. *)
Lemma mapM_app {A B} (f : A -> M number B) (l1 l2 : list A) (w : World number) :
  mapM f (l1 ++ l2) w =
  match mapM f l1 w with
  | (Normal ys1, w1) =>
      match mapM f l2 w1 with
      | (Normal ys2, w2) => (Normal (ys1 ++ ys2), w2)
      | (Throw e, w2) => (Throw e, w2)
      end
  | (Throw e, w1) => (Throw e, w1)
  end.
Proof.
  revert w. induction l1 as [|x l1 IH]; intros w; simpl.
  - unfold ret. now destruct (mapM f l2 w) as [[ys|e] w2].
  - unfold bind, ret. destruct (f x w) as [[y|e] w1]; [|reflexivity].
    rewrite IH.
    destruct (mapM f l1 w1) as [[ys1|e] w2]; [|reflexivity].
    destruct (mapM f l2 w2) as [[ys2|e] w3]; reflexivity.
Qed.

(** When [f] always completes normally, only talks to the network and
    relates its argument to its result by [P], then so does [mapM f],
    element by element. *)
Lemma mapM_normal {A B} (f : A -> M number B) (P : A -> B -> Prop) :
  (forall x w, exists y w', f x w = (Normal y, w') /\ netStep w w' /\ P x y) ->
  forall l w, exists ys w',
    mapM f l w = (Normal ys, w') /\ netStep w w' /\ Forall2 P l ys.
Proof.
  intros Hf. induction l as [|x l IH]; intros w; simpl.
  - exists [], w. split; [reflexivity|]. split; [apply netStep_refl | constructor].
  - destruct (Hf x w) as (y & w1 & E1 & S1 & Hy).
    destruct (IH w1) as (ys & w2 & E2 & S2 & Hys).
    exists (y :: ys), w2. split.
    + rewrite (bind_normal _ _ _ _ _ E1). now rewrite (bind_normal _ _ _ _ _ E2).
    + split; [now apply netStep_trans with w1 | now constructor].
Qed.

End MonadFacts.

(** ** translateToEnglish *)

Section TranslateFacts.
Context {number : Type} `{JsNumber number}.

Lemma getPropOpt_getProp (k : jsstring) (v : JsValue number) :
  getPropOpt k v = getProp k v.
Proof. now destruct v. Qed.

Lemma str_truthy_nonempty (s : jsstring) : str_truthy s = true <-> s <> [].
Proof. destruct s; simpl; split; congruence. Qed.

Lemma translateToEnglish_skip (text : jsstring) (w : World number) :
  trim text = [] \/ isLikelyEnglish (trim text) = true ->
  translateToEnglish text w = (Normal (trim text), w).
Proof.
  intros Hskip. unfold translateToEnglish.
  destruct Hskip as [-> | ->]; [reflexivity|].
  now rewrite orb_true_r.
Qed.

Lemma translateToEnglish_request (text : jsstring) (w : World number) :
  trim text <> [] -> isLikelyEnglish (trim text) = false ->
  let req := translateRequest (toTranslate (trim text)) in
  translateToEnglish text w =
  (Normal (default (trim text) (offeredTranslation (net_reply w (net_log w) req))),
   logRequest req w).
Proof.
  intros Hne Hforeign req. unfold translateToEnglish.
  apply str_truthy_nonempty in Hne. rewrite Hne, Hforeign. change (negb true || false) with false. cbv iota.
  fold (toTranslate (trim text)). fold req.
  unfold try_catch, bind, fetch, resJson, getPropStrict, ret, throw.
  destruct (net_reply w (net_log w) req) as [message|res]; [reflexivity|].
  simpl. destruct (res_ok res); simpl; [|reflexivity].
  destruct (res_json res) as [data|message]; simpl; [|reflexivity].
  destruct (isNullish data) eqn:Hnull; simpl; [reflexivity|].
  destruct (truthy (getProp (lit "quotaFinished") data)); simpl; [reflexivity|].
  rewrite getPropOpt_getProp. unfold trimOpt, ret, throw.
  destruct (getProp (lit "translatedText") (getProp (lit "response") data))
    as [| | | |s| |]; simpl; try reflexivity.
  now destruct (str_truthy (trim s)).
Qed.

(** [translateToEnglish] always completes normally and only talks to the
    network. *)
Lemma translateToEnglish_normal (text : jsstring) (w : World number) :
  exists v w', translateToEnglish text w = (Normal v, w') /\ netStep w w'.
Proof.
  destruct (trim text) as [|u t] eqn:Ht.
  - exists [], w. rewrite translateToEnglish_skip; rewrite Ht; auto using netStep_refl.
  - destruct (isLikelyEnglish (trim text)) eqn:He.
    + exists (trim text), w. rewrite translateToEnglish_skip; auto using netStep_refl.
    + eexists _, _. rewrite translateToEnglish_request; [|rewrite Ht; discriminate|exact He].
      split; [reflexivity | apply netStep_logRequest].
Qed.

Lemma offeredTranslation_Some (reply : FetchResult number) (v : jsstring) :
  offeredTranslation reply = Some v <->
  exists res data s,
    reply = FetchResponds res /\ res_ok res = true /\
    res_json res = BodyValue data /\ ~ QuotaFinished data /\
    TranslatedText data s /\ trim s <> [] /\ v = trim s.
Proof.
  unfold QuotaFinished, TranslatedText. split.
  - destruct reply as [message|res]; simpl; [discriminate|].
    destruct (res_ok res) eqn:Hok; [|discriminate].
    destruct (res_json res) as [data|message] eqn:Hbody; [|discriminate].
    destruct (isNullish data); [discriminate|].
    destruct (truthy (getProp (lit "quotaFinished") data)) eqn:Hq; [discriminate|].
    destruct (getProp (lit "translatedText") (getProp (lit "response") data))
      as [| | | |s| |] eqn:Ht; try discriminate.
    destruct (str_truthy (trim s)) eqn:Hs; [|discriminate].
    intros [= <-]. exists res, data, s.
    repeat split; auto; [congruence | now apply str_truthy_nonempty].
  - intros (res & data & s & -> & Hok & Hbody & Hq & Ht & Hs & ->). simpl.
    rewrite Hok, Hbody.
    destruct data; try discriminate Ht.
    simpl isNullish. cbv iota.
    destruct (truthy (getProp (lit "quotaFinished") (JObj fields))); [congruence|].
    rewrite Ht. apply str_truthy_nonempty in Hs. now rewrite Hs.
Qed.

End TranslateFacts.

(** C5: [translateToEnglish] never raises.  On an input that is empty or
    deemed English once trimmed it returns the trimmed input and leaves the
    world as it is: no request goes out (so the empty string yields the
    empty string).  Otherwise exactly one request goes out, for the trimmed
    text cut to the character budget, and the result is the trimmed
    translated text when the provider answers successfully, without
    signalling quota exhaustion and with a translated text that is not
    empty, and only then; on a transport failure or timeout, a non-success
    status, an unreadable body, quota exhaustion or an empty result it is
    the trimmed input. *)
Theorem translateToEnglish_best_effort
    {number : Type} `{JsNumber number} (text : jsstring) (w : World number) :
  let trimmed := trim text in
  let req := translateRequest (toTranslate trimmed) in
  let reply := net_reply w (net_log w) req in
  (exists v w', translateToEnglish text w = (Normal v, w')) /\
  (trimmed = [] \/ isLikelyEnglish trimmed = true ->
   translateToEnglish text w = (Normal trimmed, w)) /\
  translateToEnglish [] w = (Normal [], w) /\
  (trimmed <> [] -> isLikelyEnglish trimmed = false ->
   exists v,
     translateToEnglish text w = (Normal v, logRequest req w) /\
     (v <> trimmed ->
      exists res data s,
        reply = FetchResponds res /\ res_ok res = true /\
        res_json res = BodyValue data /\ ~ QuotaFinished data /\
        TranslatedText data s /\ trim s <> [] /\ v = trim s) /\
     (forall res data s,
        reply = FetchResponds res -> res_ok res = true ->
        res_json res = BodyValue data -> ~ QuotaFinished data ->
        TranslatedText data s -> trim s <> [] -> v = trim s) /\
     (forall message, reply = FetchRejects message -> v = trimmed) /\
     (forall res, reply = FetchResponds res -> res_ok res = false -> v = trimmed) /\
     (forall res message,
        reply = FetchResponds res -> res_json res = BodyRejects message ->
        v = trimmed) /\
     (forall res data,
        reply = FetchResponds res -> res_json res = BodyValue data ->
        QuotaFinished data -> v = trimmed) /\
     (forall res data,
        reply = FetchResponds res -> res_json res = BodyValue data ->
        (forall s, TranslatedText data s -> trim s = []) -> v = trimmed)).
Proof.
  intros trimmed req reply.
  split; [|split; [|split]].
  - destruct (translateToEnglish_normal text w) as (v & w' & E & _). now exists v, w'.
  - apply translateToEnglish_skip.
  - now apply translateToEnglish_skip; left.
  - intros Hne Hforeign.
    pose proof (translateToEnglish_request text w Hne Hforeign) as Hrun.
    cbv zeta in Hrun. fold trimmed req reply in Hrun.
    exists (default trimmed (offeredTranslation reply)).
    split; [exact Hrun|].
    split; [|split; [|split; [|split; [|split; [|split]]]]].
    + intros Hdiff. destruct (offeredTranslation reply) as [v|] eqn:E;
        [|now destruct Hdiff].
      now apply offeredTranslation_Some in E.
    + intros res data s E Hok Hbody Hq Ht Hs.
      assert (E' : offeredTranslation reply = Some (trim s))
        by (apply offeredTranslation_Some; exists res, data, s; intuition).
      now rewrite E'.
    + intros message E. now rewrite E.
    + intros res E Hok. rewrite E. simpl. now rewrite Hok.
    + intros res message E Hbody. rewrite E. simpl. rewrite Hbody.
      now destruct (res_ok res).
    + intros res data E Hbody Hq.
      destruct (offeredTranslation reply) as [v|] eqn:E'; [|reflexivity].
      apply offeredTranslation_Some in E'
        as (res' & data' & s & E1 & _ & Hbody' & Hq' & _).
      rewrite E in E1. injection E1 as <-. rewrite Hbody in Hbody'.
      injection Hbody' as <-. now destruct Hq'.
    + intros res data E Hbody Hempty.
      destruct (offeredTranslation reply) as [v|] eqn:E'; [|reflexivity].
      apply offeredTranslation_Some in E'
        as (res' & data' & s & E1 & _ & Hbody' & _ & Ht & Hs & _).
      rewrite E in E1. injection E1 as <-. rewrite Hbody in Hbody'.
      injection Hbody' as <-. now destruct Hs; apply Hempty.
Qed.

Lemma translateToEnglish_best_effort_witness :
  exists v,
    translateToEnglish chineseSentence translatingWorld =
    (Normal v, logRequest (translateRequest chineseSentence) translatingWorld)
    /\ v = lit "Remote engineer wanted".
Proof.
  destruct (translateToEnglish_best_effort chineseSentence translatingWorld)
    as (_ & _ & _ & Hrequest).
  destruct Hrequest as (v & Hrun & _ & Hgood & _).
  - vm_compute. discriminate.
  - vm_compute. reflexivity.
  - exists v. split; [exact Hrun|].
    refine (Hgood _ _ (lit "Remote engineer wanted") eq_refl eq_refl eq_refl _ _ _).
    + vm_compute. discriminate.
    + vm_compute. reflexivity.
    + vm_compute. discriminate.
Defined.

(** ** ensureJobEnglish and ensureJobsEnglish *)

Section EnsureFacts.
Context {number : Type} `{JsNumber number}.

Lemma ensureJobEnglish_normal {R} (job : JobText R) (w : World number) :
  exists t w',
    ensureJobEnglish job w = (Normal t, w') /\ netStep w w' /\
    translatedFrom job t.
Proof.
  unfold ensureJobEnglish.
  destruct (translateToEnglish_normal (title job) w) as (t1 & w1 & E1 & S1).
  rewrite (bind_normal _ _ _ _ _ E1).
  destruct (translateToEnglish_normal (company job) w1) as (t2 & w2 & E2 & S2).
  rewrite (bind_normal _ _ _ _ _ E2).
  assert (Hloc : exists l w3,
             match location job with
             | Some l => if str_truthy l then translateToEnglish l else ret l
             | None => ret []
             end w2 = (Normal l, w3) /\ netStep w2 w3 /\
             match location job with
             | Some l0 =>
                 if str_truthy l0
                 then exists w1 w2 : World number,
                        translateToEnglish l0 w1 = (Normal l, w2)
                 else l = []
             | None => l = []
             end).
  { destruct (location job) as [l|]; [destruct (str_truthy l) eqn:Hl|].
    - destruct (translateToEnglish_normal l w2) as (l' & w3 & E3 & S3).
      exists l', w3. split; [exact E3|]. split; [exact S3|]. now exists w2, w3.
    - exists l, w2. split; [reflexivity|]. split; [apply netStep_refl|].
      now destruct l.
    - exists [], w2. split; [reflexivity|]. split; [apply netStep_refl | reflexivity]. }
  destruct Hloc as (t3 & w3 & E3 & S3 & Hloc). rewrite (bind_normal _ _ _ _ _ E3).
  assert (Hdesc : exists d w4,
             match description job with
             | Some d =>
                 if str_truthy d && str_truthy (trim d)
                 then d' <- translateToEnglish (slice0 MAX_CHARS_PER_REQUEST d) ;;
                      ret (Some d')
                 else ret (Some d)
             | None => ret None
             end w3 = (Normal d, w4) /\ netStep w3 w4 /\
             (description job = None <-> d = None)).
  { destruct (description job) as [d|];
      [destruct (str_truthy d && str_truthy (trim d))|].
    - destruct (translateToEnglish_normal (slice0 MAX_CHARS_PER_REQUEST d) w3)
        as (d' & w4 & E4 & S4).
      exists (Some d'), w4. rewrite (bind_normal _ _ _ _ _ E4).
      split; [reflexivity|]. split; [exact S4|]. split; discriminate.
    - exists (Some d), w3.
      split; [reflexivity|]. split; [apply netStep_refl|]. split; discriminate.
    - exists None, w3. split; [reflexivity|]. split; [apply netStep_refl|]. tauto. }
  destruct Hdesc as (t4 & w4 & E4 & S4 & Hnone). rewrite (bind_normal _ _ _ _ _ E4).
  eexists _, w4. split; [reflexivity|]. split.
  - eauto using netStep_trans.
  - split; [split; [reflexivity|]; split; [now eexists | exact Hnone]|].
    simpl. destruct (location job) as [l|]; [destruct (str_truthy l)|];
      try exact Hloc; now subst t3.
Qed.

(** The loop that takes [CONCURRENCY] records at a time, started at index
    [i] with [out] collected so far and enough fuel for the records that
    remain, translates the remaining records in order and appends them. *)
Lemma ensureJobsEnglish_loop_mapM {R} (fuel : nat) (jobs : list (JobText R)) :
  forall (i : nat) (out : list (JobText R)) (w : World number),
    length jobs <= i + fuel ->
    ensureJobsEnglish_loop fuel jobs i out w =
    match mapM ensureJobEnglish (skipn i jobs) w with
    | (Normal translated, w') => (Normal (out ++ translated), w')
    | (Throw e, w') => (Throw e, w')
    end.
Proof.
  assert (Hdone : forall i out (w : World number),
             length jobs <= i ->
             (Normal out, w) =
             match mapM ensureJobEnglish (skipn i jobs) w with
             | (Normal translated, w') => (Normal (out ++ translated), w')
             | (Throw e, w') => (Throw e, w')
             end).
  { intros i out w Hi. rewrite skipn_all2 by exact Hi. simpl. unfold ret.
    now rewrite app_nil_r. }
  induction fuel as [|fuel IH]; intros i out w Hfuel.
  - simpl. apply Hdone. lia.
  - simpl. destruct (i <? length jobs) eqn:Hi.
    + rewrite <- (firstn_skipn CONCURRENCY (skipn i jobs)) at 2.
      rewrite mapM_app. unfold bind.
      destruct (mapM ensureJobEnglish (firstn CONCURRENCY (skipn i jobs)) w)
        as [[batch|e] w1]; [|reflexivity].
      rewrite IH by (unfold CONCURRENCY; lia).
      rewrite skipn_skipn. rewrite (Nat.add_comm CONCURRENCY i).
      destruct (mapM ensureJobEnglish (skipn (i + CONCURRENCY) jobs) w1)
        as [[rest|e] w2]; [|reflexivity].
      now rewrite <- app_assoc.
    + apply Hdone. now apply Nat.ltb_ge.
Qed.

Lemma ensureJobsEnglish_mapM {R} (jobs : list (JobText R)) (w : World number) :
  ensureJobsEnglish jobs w = mapM ensureJobEnglish jobs w.
Proof.
  unfold ensureJobsEnglish. rewrite ensureJobsEnglish_loop_mapM by lia.
  change (skipn 0 jobs) with jobs.
  now destruct (mapM ensureJobEnglish jobs w) as [[t|e] w'].
Qed.

Lemma ensureJobsEnglish_normal {R} (jobs : list (JobText R)) (w : World number) :
  exists out w',
    ensureJobsEnglish jobs w = (Normal out, w') /\ netStep w w' /\
    Forall2 translatedFrom jobs out.
Proof.
  rewrite ensureJobsEnglish_mapM.
  apply (mapM_normal ensureJobEnglish translatedFrom).
  intros job w0. apply ensureJobEnglish_normal.
Qed.

End EnsureFacts.


(** ** The translation backfill *)

Section BackfillFacts.
Context {number : Type} `{JsNumber number}.

Lemma getSupabaseServer_configured (w : World number) :
  Configured w -> getSupabaseServer w = (Normal tt, w).
Proof. intros [Hu Hk]. unfold getSupabaseServer. now rewrite Hu, Hk. Qed.

Lemma netStep_Configured (w w' : World number) :
  netStep w w' -> Configured w -> Configured w'.
Proof. now intros [r ->]. Qed.

Lemma netStep_NoFaults (w w' : World number) :
  netStep w w' -> NoFaults w -> NoFaults w'.
Proof. now intros [r ->]. Qed.

Lemma lookup_map {A B} (f : A -> B) (l : list A) (i : nat) :
  map f l !! i = f <$> (l !! i).
Proof.
  revert i. induction l as [|x l IH]; intros [|i]; simpl; auto.
Qed.

Lemma Forall2_map_left {A B C} (P : B -> C -> Prop) (f : A -> B) l k :
  Forall2 P (map f l) k -> Forall2 (fun x y => P (f x) y) l k.
Proof.
  revert k. induction l as [|x l IH]; intros k Hall; inversion Hall; subst;
    constructor; auto.
Qed.











End BackfillFacts.

Section BackfillTheorem.
Context {number : Type} `{JsNumber number}.



End BackfillTheorem.



(** ** Insert-if-absent on [apply_url] *)

Lemma hasApplyUrl_In (url : jsstring) (table : list StoredJob) :
  hasApplyUrl url table = true <-> In url (map job_apply_url table).
Proof.
  unfold hasApplyUrl. rewrite existsb_exists, in_map_iff. split.
  - intros (s & Hin & E). apply bool_decide_eq_true in E. now exists s.
  - intros (s & E & Hin). exists s. split; [exact Hin|]. now apply bool_decide_eq_true.
Qed.

(** The statement appends rows and rewrites none: the table it leaves is
    the table it found followed by one new row per id it returns, and it
    holds the [apply_url] of every row it was given. *)
Lemma insertIgnoringDuplicates_appends (now : N) (rows : list UpsertRow) :
  forall table next,
    exists added,
      insertIgnoringDuplicates now rows table next =
      (table ++ added, (next + N.of_nat (length added))%N, map job_id added) /\
      (forall s, In s added -> exists r id, In r rows /\ s = newRow id now r) /\
      (forall r, In r rows ->
         In (row_apply_url r) (map job_apply_url (table ++ added))) /\
      (NoDup (map job_apply_url table) ->
       NoDup (map job_apply_url (table ++ added))).
Proof.
  induction rows as [|r rows IH]; intros table next; simpl.
  - exists []. rewrite app_nil_r, N.add_0_r.
    split; [reflexivity|]. split; [intros s []|]. split; [intros r []|auto].
  - destruct (hasApplyUrl (row_apply_url r) table) eqn:Hhas.
    + destruct (IH table next) as (added & E & Hincl & Hcover & Hnodup).
      exists added. split; [exact E|]. split; [|split; [|exact Hnodup]].
      { intros s Hs. destruct (Hincl s Hs) as (r0 & id & Hr0 & ->).
        exists r0, id. split; [now right | reflexivity]. }
      intros r' [<- | Hin]; [|now apply Hcover].
      apply hasApplyUrl_In in Hhas. rewrite map_app. apply in_or_app. now left.
    + destruct (IH (table ++ [newRow next now r]) (next + 1)%N)
        as (added & E & Hincl & Hcover & Hnodup).
      exists (newRow next now r :: added). rewrite E.
      rewrite <- app_assoc. simpl.
      split; [do 2 f_equal; lia|].
      split; [|split].
      * intros s [<- | Hs].
        -- exists r, next. split; [now left | reflexivity].
        -- destruct (Hincl s Hs) as (r0 & id & Hr0 & ->).
           exists r0, id. split; [now right | reflexivity].
      * intros r' [<- | Hin].
        -- rewrite map_app. apply in_or_app. right. now left.
        -- specialize (Hcover r' Hin). now rewrite <- app_assoc in Hcover.
      * intros Hnd. rewrite <- app_assoc in Hnodup. apply Hnodup.
        rewrite map_app. simpl. apply NoDup_app. split; [exact Hnd|]. split.
        -- intros u Hu Hu'. apply list_elem_of_In in Hu, Hu'.
           destruct Hu' as [<- | []].
           apply hasApplyUrl_In in Hu. unfold newRow in Hu. simpl in Hu. congruence.
        -- apply NoDup_singleton.
Qed.

(** Rows whose [apply_url] is in the table are all skipped. *)
Lemma insertIgnoringDuplicates_present (now : N) (rows : list UpsertRow) :
  forall table next,
    (forall r, In r rows -> In (row_apply_url r) (map job_apply_url table)) ->
    insertIgnoringDuplicates now rows table next = (table, next, []).
Proof.
  induction rows as [|r rows IH]; intros table next Hpresent; simpl; [reflexivity|].
  assert (Hhas : hasApplyUrl (row_apply_url r) table = true)
    by (apply hasApplyUrl_In, Hpresent; now left).
  rewrite Hhas. apply IH. intros r' Hin. apply Hpresent. now right.
Qed.

(** ** The ingestion loop *)

Section IngestFacts.
Context {number : Type} `{JsNumber number}.

(** [upsert] always completes; it reports an error and leaves the table, or
    reports the ids of the rows it appended. *)
Lemma upsert_run (rows : list UpsertRow) (w : World number) :
  exists res w',
    upsert rows w = (Normal res, w') /\
    (exists added,
       db_rows w' = db_rows w ++ added /\
       forall s, In s added -> exists r id now, In r rows /\ s = newRow id now r) /\
    (wr_error res <> None -> db_rows w' = db_rows w) /\
    (wr_error res = None ->
     forall r, In r rows -> In (row_apply_url r) (map job_apply_url (db_rows w'))) /\
    ((forall r, In r rows -> In (row_apply_url r) (map job_apply_url (db_rows w))) ->
     db_rows w' = db_rows w /\ insertedCount (wr_data res) = 0) /\
    (NoDup (map job_apply_url (db_rows w)) -> NoDup (map job_apply_url (db_rows w'))) /\
    (db_fault w (db_log w) (UpsertIgnoreDuplicates rows) = None -> wr_error res = None).
Proof.
  unfold upsert.
  destruct (db_fault w (db_log w) (UpsertIgnoreDuplicates rows)) as [e|] eqn:Hfault.
  - eexists _, _. split; [reflexivity|]. simpl.
    split; [exists []; split; [now rewrite app_nil_r | intros s []]|].
    repeat split; auto; try discriminate.
  - destruct (insertIgnoringDuplicates_appends (db_now w (db_log w)) rows
                (db_rows w) (db_next_id w)) as (added & E & Hfrom & Hcover & Hnodup).
    pose proof (insertIgnoringDuplicates_present (db_now w (db_log w)) rows
                  (db_rows w) (db_next_id w)) as Hpresent.
    rewrite E in *. eexists _, _. split; [reflexivity|]. simpl.
    split.
    { exists added. split; [reflexivity|]. intros s Hs.
      destruct (Hfrom s Hs) as (r & id & Hr & ->). now exists r, id, (db_now w (db_log w)). }
    split; [congruence|]. split; [intros _; exact Hcover|].
    split; [|split; [exact Hnodup | reflexivity]].
    intros Hall. specialize (Hpresent Hall). injection Hpresent as E1 E2 E3.
    split; [exact E1 | now rewrite E3].
Qed.

Lemma tableGrows_refl (w : World number) : tableGrows w w.
Proof. exists []. now rewrite app_nil_r. Qed.

Lemma tableGrows_trans (w1 w2 w3 : World number) :
  tableGrows w1 w2 -> tableGrows w2 w3 -> tableGrows w1 w3.
Proof.
  intros [a E1] [b E2]. exists (a ++ b). now rewrite E2, E1, app_assoc.
Qed.

Lemma netStep_tableGrows (w w' : World number) : netStep w w' -> tableGrows w w'.
Proof. intros [r ->]. exists []. simpl. now rewrite app_nil_r. Qed.

(** A source that failed: one summary entry, nothing else happens. *)
Lemma ingestSource_failed (state : nat * list SummaryEntry) (r : FetchJobsResult)
    (w : World number) (message : jsstring) :
  fr_error r = Some message -> message <> [] ->
  ingestSource state r w =
  (Normal (fst state, snd state ++ [mkSummaryEntry (fr_source r) 0 0 (Some message)]), w).
Proof.
  intros Herr Hne. unfold ingestSource. destruct state as [total summary].
  rewrite Herr. change (default [] (Some message)) with message.
  apply str_truthy_nonempty in Hne. now rewrite Hne.
Qed.

Lemma orRemote_nonempty (l : option jsstring) : orRemote l <> [].
Proof.
  destruct l as [[|u l]|]; simpl; discriminate.
Qed.

(** The rows built from the translated records of a source. *)
Lemma fetchJobsRows_for (jobs : list NormalizedJob)
    (translated : list (JobText NormalizedJob)) :
  Forall2 translatedFrom (map normalizedAsText jobs) translated ->
  Forall2 rowFor jobs (map fetchJobsRow translated).
Proof.
  intros Hall. apply Forall2_map_left in Hall.
  apply Forall2_fmap_r. eapply Forall2_impl; [exact Hall|].
  intros job t [[Hextra _] Hloc]. simpl in Hextra, Hloc.
  unfold rowFor, fetchJobsRow. simpl. rewrite Hextra.
  split; [reflexivity|]. split; [apply orRemote_nonempty|].
  intros [Hempty | Hremote].
  - rewrite Hempty in Hloc. simpl in Hloc. now rewrite Hloc.
  - rewrite Hremote in Hloc. simpl in Hloc. destruct Hloc as (w1 & w2 & E).
    rewrite translateToEnglish_skip in E by (right; reflexivity).
    injection E as E _. destruct (location t) as [l|]; simpl in *; [|reflexivity].
    now rewrite <- E.
Qed.

(** A source that was fetched: its kept records are translated, mapped to
    rows and, unless there is none, upserted in one statement; the loop
    goes on whatever the database answers. *)
Lemma ingestSource_fetched (state : nat * list SummaryEntry) (r : FetchJobsResult)
    (w : World number) :
  str_truthy (default [] (fr_error r)) = false ->
  exists rows w1 entry inserted w',
    netStep w w1 /\
    Forall2 rowFor (keptJobs (fr_jobs r)) rows /\
    ingestSource state r w =
    (Normal ((fst state + inserted)%nat, snd state ++ [entry]), w') /\
    se_source entry = fr_source r /\
    se_fetched entry = fr_count r /\
    se_inserted entry = inserted /\
    (rows = [] -> w' = w1 /\ inserted = 0) /\
    (rows <> [] ->
     exists res, upsert rows w1 = (Normal res, w') /\
                 inserted = match wr_error res with
                            | Some _ => 0
                            | None => insertedCount (wr_data res)
                            end).
Proof.
  intros Hok. unfold ingestSource. destruct state as [total summary].
  rewrite Hok. fold (keptJobs (fr_jobs r)).
  destruct (ensureJobsEnglish_normal (map normalizedAsText (keptJobs (fr_jobs r))) w)
    as (translated & w1 & Etr & Snet & Hall).
  rewrite (bind_normal _ _ _ _ _ Etr).
  apply fetchJobsRows_for in Hall.
  set (rows := map fetchJobsRow translated) in *.
  destruct rows as [|row rows'] eqn:Hrows.
  - exists [], w1, (mkSummaryEntry (fr_source r) (fr_count r) 0 None), 0, w1.
    simpl. unfold ret. rewrite Nat.add_0_r.
    repeat split; auto. intros Hne. now destruct Hne.
  - destruct (upsert_run (row :: rows') w1) as (res & w' & Eup & _).
    change (length (row :: rows') =? 0) with false. cbv iota.
    rewrite (bind_normal _ _ _ _ _ Eup).
    destruct (wr_error res) as [e|] eqn:Herr.
    + exists (row :: rows'), w1,
        (mkSummaryEntry (fr_source r) (fr_count r) 0 (pg_message e)), 0, w'.
      unfold ret. rewrite Nat.add_0_r.
      repeat split; auto; try discriminate.
      intros _. exists res. rewrite Herr. now split.
    + exists (row :: rows'), w1,
        (mkSummaryEntry (fr_source r) (fr_count r) (insertedCount (wr_data res)) None),
        (insertedCount (wr_data res)), w'.
      unfold ret. repeat split; auto; try discriminate.
      intros _. exists res. rewrite Herr. now split.
Qed.

End IngestFacts.

(** ** Idempotence of ingestion *)

Section IdempotenceFacts.
Context {number : Type} `{JsNumber number}.

Lemma rowFor_urls (jobs : list NormalizedJob) (rows : list UpsertRow) :
  Forall2 rowFor jobs rows -> map row_apply_url rows = map nj_apply_url jobs.
Proof.
  induction 1 as [|job row jobs rows [Hurl _] _ IH]; simpl; [reflexivity|].
  now rewrite Hurl, IH.
Qed.

Lemma urls_present (rows : list UpsertRow) (urls table : list jsstring) :
  map row_apply_url rows = urls -> incl urls table ->
  forall r, In r rows -> In (row_apply_url r) table.
Proof.
  intros <- Hincl r Hin. apply Hincl. now apply in_map.
Qed.

(** Ingesting a fetched source in a world that fails no statement leaves
    every [apply_url] of its kept records in the table. *)
Lemma ingestSource_covers (state : nat * list SummaryEntry) (r : FetchJobsResult)
    (w : World number) :
  str_truthy (default [] (fr_error r)) = false -> NoFaults w ->
  exists state' w',
    ingestSource state r w = (Normal state', w') /\ tableGrows w w' /\
    incl (map nj_apply_url (keptJobs (fr_jobs r))) (map job_apply_url (db_rows w')).
Proof.
  intros Hok Hnf.
  destruct (ingestSource_fetched state r w Hok)
    as (rows & w1 & entry & inserted & w' & Snet & Hrows & Erun & _ & _ & _ & Hnil & Hcons).
  eexists _, w'. split; [exact Erun|].
  destruct rows as [|row rows].
  - destruct (Hnil eq_refl) as [-> _]. split; [now apply netStep_tableGrows|].
    inversion Hrows. intros u [].
  - destruct Hcons as (res & Eup & _); [discriminate|].
    destruct (upsert_run (row :: rows) w1)
      as (res' & w'' & Eup' & Hgrow & _ & Hcover & _ & _ & Hnofault).
    rewrite Eup in Eup'. injection Eup' as <- <-.
    split.
    { eapply tableGrows_trans; [apply netStep_tableGrows; exact Snet|].
      destruct Hgrow as (added & Hadded & _). now exists added. }
    assert (Herr : wr_error res = None).
    { apply Hnofault. apply (netStep_NoFaults _ _ Snet Hnf). }
    rewrite <- (rowFor_urls _ _ Hrows).
    intros u Hu. apply in_map_iff in Hu as (r0 & <- & Hin). now apply Hcover.
Qed.

(** Ingesting a fetched source whose kept records all have their
    [apply_url] in the table leaves the table as it is and counts no
    insertion. *)
Lemma ingestSource_again (state : nat * list SummaryEntry) (r : FetchJobsResult)
    (w : World number) :
  str_truthy (default [] (fr_error r)) = false ->
  incl (map nj_apply_url (keptJobs (fr_jobs r))) (map job_apply_url (db_rows w)) ->
  exists entry w',
    ingestSource state r w = (Normal (fst state, snd state ++ [entry]), w') /\
    db_rows w' = db_rows w /\ se_inserted entry = 0.
Proof.
  intros Hok Hpresent.
  destruct (ingestSource_fetched state r w Hok)
    as (rows & w1 & entry & inserted & w' & Snet & Hrows & Erun & _ & _ & Hins & Hnil & Hcons).
  assert (Hzero : inserted = 0 /\ db_rows w' = db_rows w).
  { destruct rows as [|row rows].
    - destruct (Hnil eq_refl) as [-> ->]. split; [reflexivity|].
      now apply netStep_db_rows.
    - destruct Hcons as (res & Eup & ->); [discriminate|].
      destruct (upsert_run (row :: rows) w1)
        as (res' & w'' & Eup' & _ & _ & _ & Hskip & _).
      rewrite Eup in Eup'. injection Eup' as <- <-.
      destruct Hskip as [Hsame Hcount].
      + rewrite (netStep_db_rows _ _ Snet).
        eapply urls_present; [apply rowFor_urls; exact Hrows | exact Hpresent].
      + rewrite Hsame, (netStep_db_rows _ _ Snet). split; [|reflexivity].
        now destruct (wr_error res). }
  destruct Hzero as [-> Hsame].
  exists entry, w'. rewrite Erun, Nat.add_0_r. now split.
Qed.

End IdempotenceFacts.

(** C1: the upsert statement only appends: the rows of the table stay as
    they are (none is overwritten) and [apply_url] stays unique.  A record
    whose [apply_url] is in the table is skipped: the table is unchanged and
    no insertion is counted.  So upserting records that an earlier
    successful statement has upserted -- in the same run or a later one,
    whatever their other fields now say -- leaves the table as it is; and
    when the orchestrator has ingested a fetched source it can ingest it
    again, translated anew, without changing a row or adding one. *)
Theorem upsert_insert_if_absent
    {number : Type} `{JsNumber number} (w : World number) :
  (forall rows : list UpsertRow,
     exists res w',
       upsert rows w = (Normal res, w') /\
       tableGrows w w' /\
       (NoDup (map job_apply_url (db_rows w)) ->
        NoDup (map job_apply_url (db_rows w'))) /\
       ((forall r, In r rows -> In (row_apply_url r) (map job_apply_url (db_rows w))) ->
        db_rows w' = db_rows w /\ insertedCount (wr_data res) = 0) /\
       (wr_error res = None ->
        forall (rows' : list UpsertRow) (w2 : World number),
          db_rows w2 = db_rows w' ->
          map row_apply_url rows' = map row_apply_url rows ->
          exists res2 w3,
            upsert rows' w2 = (Normal res2, w3) /\
            db_rows w3 = db_rows w' /\ insertedCount (wr_data res2) = 0)) /\
  (forall (r : FetchJobsResult) (state : nat * list SummaryEntry),
     str_truthy (default [] (fr_error r)) = false -> NoFaults w ->
     exists state1 w1,
       ingestSource state r w = (Normal state1, w1) /\ tableGrows w w1 /\
       forall (state' : nat * list SummaryEntry) (w2 : World number),
         db_rows w2 = db_rows w1 ->
         exists entry w3,
           ingestSource state' r w2 =
           (Normal (fst state', snd state' ++ [entry]), w3) /\
           db_rows w3 = db_rows w1 /\ se_inserted entry = 0).
Proof.
  split.
  - intros rows.
    destruct (upsert_run rows w)
      as (res & w' & Eup & Hgrow & _ & Hcover & Hskip & Hnodup & _).
    exists res, w'. split; [exact Eup|].
    split; [destruct Hgrow as (added & Hadded & _); now exists added|].
    split; [exact Hnodup|]. split; [exact Hskip|].
    intros Herr rows' w2 Htable Hurls.
    destruct (upsert_run rows' w2) as (res2 & w3 & Eup2 & _ & _ & _ & Hskip2 & _).
    exists res2, w3. split; [exact Eup2|].
    rewrite <- Htable. apply Hskip2. rewrite Htable.
    intros r' Hin.
    assert (Hu : In (row_apply_url r') (map row_apply_url rows))
      by (rewrite <- Hurls; now apply in_map).
    apply in_map_iff in Hu as (r0 & <- & Hin0). now apply (Hcover Herr).
  - intros r state Hok Hnf.
    destruct (ingestSource_covers state r w Hok Hnf) as (state1 & w1 & Erun & Hg & Hincl).
    exists state1, w1. split; [exact Erun|]. split; [exact Hg|].
    intros state' w2 Htable.
    destruct (ingestSource_again state' r w2 Hok) as (entry & w3 & Erun2 & Hsame & Hins).
    + now rewrite Htable.
    + exists entry, w3. split; [exact Erun2|]. split; [congruence | exact Hins].
Qed.

Lemma upsert_insert_if_absent_witness :
  exists state1 w1,
    ingestSource (0, []) oneListing quietWorld = (Normal state1, w1) /\
    exists entry w3,
      ingestSource state1 oneListing w1 =
      (Normal (fst state1, snd state1 ++ [entry]), w3) /\
      db_rows w3 = db_rows w1 /\ se_inserted entry = 0.
Proof.
  destruct (upsert_insert_if_absent quietWorld) as (_ & Hingest).
  destruct (Hingest oneListing (0, [])) as (state1 & w1 & Erun & _ & Hagain).
  - reflexivity.
  - intros log stmt. reflexivity.
  - exists state1, w1. split; [exact Erun|]. now apply Hagain.
Defined.

(** ** The adapters *)

Section AdapterFacts.
Context {number : Type} `{JsNumber number}.

(** What [fetchJson] comes to, by the reply of the network. *)
Lemma fetchJson_run (url : jsstring) (w : World number) :
  let req := mkRequest url [] in
  let reply := net_reply w (net_log w) req in
  fetchJson url w =
  (match fetchFailure reply with
   | Some message => Throw (ErrorObject message)
   | None =>
       match reply with
       | FetchResponds res =>
           match res_json res with
           | BodyValue v => Normal v
           | BodyRejects message => Throw (ErrorObject message)
           end
       | FetchRejects message => Throw (ErrorObject message)
       end
   end, logRequest req w).
Proof.
  intros req reply. unfold fetchJson, bind, fetch. fold req. fold reply.
  destruct reply as [message|res]; simpl; [reflexivity|].
  destruct (res_ok res); simpl; [|reflexivity].
  unfold resJson. now destruct (res_json res).
Qed.

Lemma fetchJson_failure (url : jsstring) (w : World number) (message : jsstring) :
  fetchFailure (net_reply w (net_log w) (mkRequest url [])) = Some message ->
  fetchJson url w = (Throw (ErrorObject message), logRequest (mkRequest url []) w).
Proof. intros Hfail. rewrite fetchJson_run. cbv zeta. now rewrite Hfail. Qed.


(** A non-success status always makes a message that is not empty. *)
Lemma fetchFailure_status (res : Response number) :
  res_ok res = false ->
  exists message,
    fetchFailure (FetchResponds res) = Some message /\ message <> [].
Proof.
  intros Hok. simpl. rewrite Hok. eexists. split; [reflexivity|].
  intros E. apply (f_equal (@length N)) in E.
  rewrite !length_app in E. simpl in E. lia.
Qed.






End AdapterFacts.

Section AdapterRuns.
Context {number : Type} `{JsNumber number}.


Lemma fetchRemotive_failure (limit : N) (w : World number) (message : jsstring) :
  let req := mkRequest (lit "https://remotive.com/api/remote-jobs?limit=" ++ decimal limit) [] in
  fetchFailure (net_reply w (net_log w) req) = Some message ->
  fetchRemotive limit w = (Throw (ErrorObject message), logRequest req w).
Proof.
  intros req Hfail. unfold fetchRemotive.
  now rewrite (bind_throw _ _ _ _ _ (fetchJson_failure _ _ _ Hfail)).
Qed.


Lemma fetchRemoteOk_failure (w : World number) (message : jsstring) :
  fetchFailure (net_reply w (net_log w) remoteOkRequest) = Some message ->
  fetchRemoteOk w = (Throw (ErrorObject message), logRequest remoteOkRequest w).
Proof.
  intros Hfail. unfold fetchRemoteOk.
  now rewrite (bind_throw _ _ _ _ _ (fetchJson_failure _ _ _ Hfail)).
Qed.

(** The callback of the ArbeitNow adapter touches nothing. *)
Lemma arbeitNowJob_pure (j : JsValue number) :
  exists c, forall w : World number, arbeitNowJob j w = (c, w).
Proof.
  unfold arbeitNowJob, bind.
  destruct (getProp (lit "created_at") j) as [| | |n| | |];
    try (eexists; intros w; reflexivity).
  destruct (epochSecondsToISO n); eexists; intros w; reflexivity.
Qed.

Lemma mapM_arbeitNowJob (l : list (JsValue number)) :
  (exists out, Forall2 arbeitNowNormalizes l out /\
               forall w : World number, mapM arbeitNowJob l w = (Normal out, w)) \/
  (exists e, forall w : World number, mapM arbeitNowJob l w = (Throw e, w)).
Proof.
  induction l as [|j l IH]; simpl.
  - left. exists []. split; [constructor | reflexivity].
  - destruct (arbeitNowJob_pure j) as [[o|e] Hj].
    + destruct IH as [(out & Hall & Hrun) | (e & Hrun)].
      * left. exists (o :: out). split; [now constructor|].
        intros w. unfold bind. now rewrite Hj, Hrun.
      * right. exists e. intros w. unfold bind. now rewrite Hj, Hrun.
    + right. exists e. intros w. unfold bind. now rewrite Hj.
Qed.

(** The ArbeitNow adapter never throws: it absorbs its own failures. *)
Lemma fetchArbeitNow_run (w : World number) :
  let reply := net_reply w (net_log w) arbeitNowRequest in
  exists out,
    fetchArbeitNow w = (Normal out, logRequest arbeitNowRequest w) /\
    (forall message, fetchFailure reply = Some message -> out = []) /\
    (forall data, jsonBody reply = Some data ->
       out = [] \/
       Forall2 arbeitNowNormalizes
         (List.filter arbeitNowKeep (arrayOrEmpty (getProp (lit "data") data))) out).
Proof.
  intros reply. unfold fetchArbeitNow, try_catch.
  pose proof (fetchJson_run (lit "https://www.arbeitnow.com/api/job-board-api") w) as Hrun.
  cbv zeta in Hrun. fold arbeitNowRequest in Hrun. fold reply in Hrun.
  unfold bind. rewrite Hrun.
  destruct (fetchFailure reply) as [message|] eqn:Hfail.
  - exists []. split; [reflexivity|]. split; [reflexivity|].
    intros data Hbody. destruct reply as [m|res]; simpl in *; [discriminate|].
    destruct (res_ok res); discriminate.
  - destruct reply as [m|res] eqn:Hreply; [discriminate|].
    simpl in Hfail. destruct (res_ok res) eqn:Hok; [|discriminate].
    destruct (res_json res) as [data|m] eqn:Hjson.
    + rewrite getPropOpt_getProp.
      destruct (mapM_arbeitNowJob
                  (List.filter arbeitNowKeep (arrayOrEmpty (getProp (lit "data") data))))
        as [(out & Hall & Hout) | (e & Hout)]; rewrite Hout.
      * exists out. split; [reflexivity|]. split; [discriminate|].
        intros data' Hbody. simpl in Hbody. rewrite Hok, Hjson in Hbody.
        injection Hbody as <-. now right.
      * exists []. split; [reflexivity|]. split; [discriminate|].
        intros data' _. now left.
    + exists []. split; [reflexivity|]. split; [discriminate|].
      intros data' Hbody. simpl in Hbody. now rewrite Hok, Hjson in Hbody.
Qed.

End AdapterRuns.




(** ** The orchestrator and failing adapters *)

Section OrchestratorFacts.
Context {number : Type} `{JsNumber number}.

Lemma settle_run (source : jsstring) (adapter : M number (list NormalizedJob))
    (w w' : World number) (c : Completion (list NormalizedJob)) :
  adapter w = (c, w') ->
  settle source adapter w =
  (Normal match c with
          | Normal jobs => mkFetchJobsResult source (length jobs) jobs None
          | Throw e => mkFetchJobsResult source 0 [] (Some (errorMessage e))
          end, w').
Proof.
  intros E. unfold settle, try_catch, bind. rewrite E. now destruct c.
Qed.

Lemma fetchRemotive_step (limit : N) (w : World number) :
  let req := mkRequest (lit "https://remotive.com/api/remote-jobs?limit=" ++ decimal limit) [] in
  exists c,
    fetchRemotive limit w = (c, logRequest req w) /\
    forall message,
      fetchFailure (net_reply w (net_log w) req) = Some message ->
      c = Throw (ErrorObject message).
Proof.
  intros req. unfold fetchRemotive, bind. rewrite fetchJson_run. cbv zeta. fold req.
  destruct (fetchFailure (net_reply w (net_log w) req)) as [m|].
  - eexists. split; [reflexivity|]. now intros message [= <-].
  - destruct (net_reply w (net_log w) req) as [m|res];
      [|destruct (res_json res)]; eexists; (split; [reflexivity | discriminate]).
Qed.

Lemma fetchRemoteOk_step (w : World number) :
  exists c,
    fetchRemoteOk w = (c, logRequest remoteOkRequest w) /\
    forall message,
      fetchFailure (net_reply w (net_log w) remoteOkRequest) = Some message ->
      c = Throw (ErrorObject message).
Proof.
  unfold fetchRemoteOk, bind. rewrite fetchJson_run. cbv zeta. fold remoteOkRequest.
  destruct (fetchFailure (net_reply w (net_log w) remoteOkRequest)) as [m|].
  - eexists. split; [reflexivity|]. now intros message [= <-].
  - destruct (net_reply w (net_log w) remoteOkRequest) as [m|res];
      [|destruct (res_json res) as [data|m]; [destruct (isArray data)|]];
      eexists; (split; [reflexivity | discriminate]).
Qed.

(** The three adapters run one after the other, each settled into a result
    of its own. *)
Lemma fetchAllJobSources_run (w : World number) :
  let w1 := logRequest remotiveRequest w in
  let w2 := logRequest remoteOkRequest w1 in
  let w3 := logRequest arbeitNowRequest w2 in
  exists r1 r2 r3,
    fetchAllJobSources w = (Normal [r1; r2; r3], w3) /\
    fr_source r1 = lit "remotive" /\
    fr_source r2 = lit "remoteok" /\
    fr_source r3 = lit "arbeitnow" /\
    (forall message,
       fetchFailure (net_reply w (net_log w) remotiveRequest) = Some message ->
       r1 = mkFetchJobsResult (lit "remotive") 0 [] (Some message)) /\
    (forall message,
       fetchFailure (net_reply w (net_log w1) remoteOkRequest) = Some message ->
       r2 = mkFetchJobsResult (lit "remoteok") 0 [] (Some message)) /\
    (forall message,
       fetchFailure (net_reply w (net_log w2) arbeitNowRequest) = Some message ->
       r3 = mkFetchJobsResult (lit "arbeitnow") 0 [] None).
Proof.
  intros w1 w2 w3. unfold fetchAllJobSources.
  destruct (fetchRemotive_step 150 w) as (c1 & E1 & F1).
  fold remotiveRequest in E1, F1. fold w1 in E1.
  rewrite (bind_normal _ _ _ _ _ (settle_run (lit "remotive") _ _ _ _ E1)).
  destruct (fetchRemoteOk_step w1) as (c2 & E2 & F2). fold w2 in E2.
  rewrite (bind_normal _ _ _ _ _ (settle_run (lit "remoteok") _ _ _ _ E2)).
  destruct (fetchArbeitNow_run w2) as (out & E3 & F3 & _). fold w3 in E3.
  rewrite (bind_normal _ _ _ _ _ (settle_run (lit "arbeitnow") _ _ _ _ E3)).
  eexists _, _, _. split; [reflexivity|].
  split; [now destruct c1|]. split; [now destruct c2|]. split; [reflexivity|].
  split; [|split].
  - intros message Hfail. now rewrite (F1 message Hfail).
  - intros message Hfail. now rewrite (F2 message Hfail).
  - intros message Hfail. now rewrite (F3 message Hfail).
Qed.

Lemma logGrows_refl (w : World number) : logGrows w w.
Proof. exists []. now rewrite app_nil_r. Qed.

Lemma logGrows_trans (w1 w2 w3 : World number) :
  logGrows w1 w2 -> logGrows w2 w3 -> logGrows w1 w3.
Proof.
  intros [a E1] [b E2]. exists (a ++ b). now rewrite E2, E1, app_assoc.
Qed.

Lemma logGrows_In (w w' : World number) (s : Statement) :
  logGrows w w' -> In s (db_log w) -> In s (db_log w').
Proof. intros [more ->] Hin. apply in_or_app. now left. Qed.

Lemma netStep_db_log (w w' : World number) : netStep w w' -> db_log w' = db_log w.
Proof. now intros [r ->]. Qed.

Lemma upsert_log (rows : list UpsertRow) (w : World number) :
  db_log (snd (upsert rows w)) = db_log w ++ [UpsertIgnoreDuplicates rows].
Proof.
  unfold upsert.
  destruct (db_fault w (db_log w) (UpsertIgnoreDuplicates rows)); [reflexivity|].
  now destruct (insertIgnoringDuplicates _ _ _ _) as [[table next] ids].
Qed.

(** One turn of the loop of [GET] always completes and adds one entry to
    the summary: the error entry of a failed source, or the entry of a
    fetched source, whose rows were sent to the database if there were
    any. *)
Lemma ingestSource_total (state : nat * list SummaryEntry) (r : FetchJobsResult)
    (w : World number) :
  exists entry total' w',
    ingestSource state r w = (Normal (total', snd state ++ [entry]), w') /\
    se_source entry = fr_source r /\
    logGrows w w' /\
    (forall message,
       fr_error r = Some message -> message <> [] ->
       entry = mkSummaryEntry (fr_source r) 0 0 (Some message)) /\
    (str_truthy (default [] (fr_error r)) = false ->
     se_fetched entry = fr_count r /\
     exists rows,
       Forall2 rowFor (keptJobs (fr_jobs r)) rows /\
       (rows <> [] -> In (UpsertIgnoreDuplicates rows) (db_log w'))).
Proof.
  destruct (str_truthy (default [] (fr_error r))) eqn:Herr.
  - destruct (fr_error r) as [message|] eqn:Hmsg; [|discriminate].
    assert (Hne : message <> []) by now apply str_truthy_nonempty.
    eexists _, _, w. split; [exact (ingestSource_failed state r w message Hmsg Hne)|].
    split; [reflexivity|]. split; [apply logGrows_refl|].
    split; [|discriminate]. now intros m [= <-] _.
  - destruct (ingestSource_fetched state r w Herr)
      as (rows & w1 & entry & inserted & w' & Snet & Hrows & Erun & Hsrc & Hcount & _ & Hnil & Hcons).
    exists entry, (fst state + inserted), w'. split; [exact Erun|].
    split; [exact Hsrc|].
    assert (Hlog : logGrows w w' /\
                   (rows <> [] -> In (UpsertIgnoreDuplicates rows) (db_log w'))).
    { destruct rows as [|row rows].
      - destruct (Hnil eq_refl) as [-> _]. split; [|now intros []].
        exists []. now rewrite app_nil_r, (netStep_db_log _ _ Snet).
      - destruct Hcons as (res & Eup & _); [discriminate|].
        pose proof (upsert_log (row :: rows) w1) as Hl. rewrite Eup in Hl. simpl in Hl.
        rewrite (netStep_db_log _ _ Snet) in Hl. split.
        + now exists [UpsertIgnoreDuplicates (row :: rows)].
        + intros _. rewrite Hl. apply in_or_app. right. now left. }
    split; [apply Hlog|]. split.
    + intros message Hmsg Hne. rewrite Hmsg in Herr.
      apply str_truthy_nonempty in Hne. simpl in Herr. congruence.
    + intros _. split; [exact Hcount|]. exists rows. split; [exact Hrows | apply Hlog].
Qed.

(** A source that came back empty. *)
Lemma ingestSource_empty (state : nat * list SummaryEntry) (source : jsstring)
    (w : World number) :
  ingestSource state (mkFetchJobsResult source 0 [] None) w =
  (Normal (fst state, snd state ++ [mkSummaryEntry source 0 0 None]), w).
Proof. now destruct state. Qed.

End OrchestratorFacts.

(** C2, as stated: when every request is rejected, the summary entry of
    ArbeitNow has no error -- the adapter catches its own failure and
    reports an empty list. *)
Lemma arbeitnow_failure_without_error :
  fetchFailure
    (net_reply quietWorld [remotiveRequest; remoteOkRequest] arbeitNowRequest)
  = Some (lit "fetch failed") /\
  fst (GET_fetch_jobs quietWorld) =
  Normal (FetchJobsOk 0
            [mkSummaryEntry (lit "remotive") 0 0 (Some (lit "fetch failed"));
             mkSummaryEntry (lit "remoteok") 0 0 (Some (lit "fetch failed"));
             mkSummaryEntry (lit "arbeitnow") 0 0 None]).
Proof. split; vm_compute; reflexivity. Qed.

(** C2, amended: with a configured client the orchestrator answers
    [ok: true] with one summary entry per adapter, in order, whatever the
    adapters come to.  A fetch failure of Remotive or of RemoteOK -- a
    rejected request such as a timeout, with an error message that is not
    empty, or a non-success status, whose message never is -- gives that
    source the entry with the error message, [fetched] 0 and [inserted] 0;
    a fetch failure of ArbeitNow gives it the entry with [fetched] 0,
    [inserted] 0 and no error.  Every source that was fetched has its entry
    with its count, and its rows, if any, were sent to the database in an
    upsert statement. *)
Theorem fetch_jobs_isolates_failures
    {number : Type} `{JsNumber number} (w : World number) :
  Configured w ->
  let w1 := logRequest remotiveRequest w in
  let w2 := logRequest remoteOkRequest w1 in
  let w3 := logRequest arbeitNowRequest w2 in
  let reply1 := net_reply w (net_log w) remotiveRequest in
  let reply2 := net_reply w (net_log w1) remoteOkRequest in
  let reply3 := net_reply w (net_log w2) arbeitNowRequest in
  exists r1 r2 r3 e1 e2 e3 total w',
    fetchAllJobSources w = (Normal [r1; r2; r3], w3) /\
    GET_fetch_jobs w = (Normal (FetchJobsOk total [e1; e2; e3]), w') /\
    se_source e1 = lit "remotive" /\
    se_source e2 = lit "remoteok" /\
    se_source e3 = lit "arbeitnow" /\
    (forall message,
       fetchFailure reply1 = Some message -> message <> [] ->
       e1 = mkSummaryEntry (lit "remotive") 0 0 (Some message)) /\
    (forall message,
       fetchFailure reply2 = Some message -> message <> [] ->
       e2 = mkSummaryEntry (lit "remoteok") 0 0 (Some message)) /\
    (forall message,
       fetchFailure reply3 = Some message ->
       e3 = mkSummaryEntry (lit "arbeitnow") 0 0 None) /\
    (forall res : Response number,
       res_ok res = false ->
       exists message,
         fetchFailure (FetchResponds res) = Some message /\ message <> []) /\
    (forall r e,
       In (r, e) [(r1, e1); (r2, e2); (r3, e3)] ->
       str_truthy (default [] (fr_error r)) = false ->
       se_fetched e = fr_count r /\
       exists rows,
         Forall2 rowFor (keptJobs (fr_jobs r)) rows /\
         (rows <> [] -> In (UpsertIgnoreDuplicates rows) (db_log w'))).
Proof.
  intros Hconf w1 w2 w3 reply1 reply2 reply3.
  destruct (fetchAllJobSources_run w)
    as (r1 & r2 & r3 & Eall & S1 & S2 & S3 & F1 & F2 & F3).
  fold w1 w2 w3 in Eall. fold w1 in F2. fold w2 in F3.
  destruct (ingestSource_total (0, []) r1 w3)
    as (e1 & t1 & wa & Ea & Hs1 & La & Hfail1 & Hok1).
  destruct (ingestSource_total (t1, [e1]) r2 wa)
    as (e2 & t2 & wb & Eb & Hs2 & Lb & Hfail2 & Hok2).
  destruct (ingestSource_total (t2, [e1; e2]) r3 wb)
    as (e3 & t3 & wc & Ec & Hs3 & Lc & Hfail3 & Hok3).
  simpl snd in Ea, Eb, Ec. simpl app in Ea, Eb, Ec.
  exists r1, r2, r3, e1, e2, e3, t3, wc.
  split; [exact Eall|]. split.
  { unfold GET_fetch_jobs, try_catch.
    rewrite (bind_normal _ _ _ _ _ (getSupabaseServer_configured w Hconf)).
    rewrite (bind_normal _ _ _ _ _ Eall).
    assert (Efold : foldM ingestSource [r1; r2; r3] (0, []) w3 =
                    (Normal (t3, [e1; e2; e3]), wc)).
    { cbn [foldM]. rewrite (bind_normal _ _ _ _ _ Ea).
      rewrite (bind_normal _ _ _ _ _ Eb). rewrite (bind_normal _ _ _ _ _ Ec).
      reflexivity. }
    rewrite (bind_normal _ _ _ _ _ Efold). reflexivity. }
  split; [congruence|]. split; [congruence|]. split; [congruence|].
  split; [|split; [|split; [|split]]].
  - intros message Hfail Hne. rewrite (F1 message Hfail) in Hfail1.
    now apply (Hfail1 message).
  - intros message Hfail Hne. rewrite (F2 message Hfail) in Hfail2.
    now apply (Hfail2 message).
  - intros message Hfail. rewrite (F3 message Hfail) in Ec.
    rewrite ingestSource_empty in Ec. simpl in Ec. now injection Ec as _ <- _.
  - apply fetchFailure_status.
  - intros r e Hin Hok.
    assert (Hlast : logGrows wb wc) by exact Lc.
    assert (Hmid : logGrows wa wc) by (eapply logGrows_trans; eauto).
    destruct Hin as [[= <- <-] | [[= <- <-] | [[= <- <-] | []]]].
    + destruct (Hok1 Hok) as (Hcount & rows & Hrows & Hsent).
      split; [exact Hcount|]. exists rows. split; [exact Hrows|].
      intros Hne. apply (logGrows_In wa wc); [exact Hmid | now apply Hsent].
    + destruct (Hok2 Hok) as (Hcount & rows & Hrows & Hsent).
      split; [exact Hcount|]. exists rows. split; [exact Hrows|].
      intros Hne. apply (logGrows_In wb wc); [exact Hlast | now apply Hsent].
    + destruct (Hok3 Hok) as (Hcount & rows & Hrows & Hsent).
      split; [exact Hcount|]. exists rows. split; [exact Hrows | exact Hsent].
Qed.

Lemma fetch_jobs_isolates_failures_witness :
  exists total e2 e3 w',
    GET_fetch_jobs quietWorld =
    (Normal (FetchJobsOk total
               [mkSummaryEntry (lit "remotive") 0 0 (Some (lit "fetch failed")); e2; e3]),
     w').
Proof.
  destruct (fetch_jobs_isolates_failures quietWorld)
    as (r1 & r2 & r3 & e1 & e2 & e3 & total & w' & _ & Erun & _ & _ & _ & Hfail1 & _).
  - split; reflexivity.
  - exists total, e2, e3, w'.
    rewrite <- (Hfail1 (lit "fetch failed")); [exact Erun | reflexivity | discriminate].
Defined.

(** ** The default location *)

Section LocationFacts.
Context {number : Type} `{JsNumber number}.






End LocationFacts.




(** ** The query layer *)

Local Open Scope Z_scope.

Lemma ceilDiv_bounds (total limit : Z) :
  0 < limit ->
  (ceilDiv total limit - 1) * limit < total <= ceilDiv total limit * limit.
Proof.
  intros Hlimit. unfold ceilDiv.
  pose proof (Z.div_mod (- total) limit ltac:(lia)) as Hdm.
  pose proof (Z.mod_pos_bound (- total) limit Hlimit) as Hmod.
  nia.
Qed.

Lemma totalPagesOf_positive (total limit : Z) :
  0 <= total -> 0 < limit ->
  totalPagesOf total limit = Z.max 1 (ceilDiv total limit) /\
  1 <= totalPagesOf total limit.
Proof.
  intros Htotal Hlimit. unfold totalPagesOf.
  pose proof (ceilDiv_bounds total limit Hlimit) as Hb.
  destruct (Z.eqb_spec (ceilDiv total limit) 0) as [E|E].
  - rewrite E. lia.
  - assert (0 <= ceilDiv total limit) by nia. lia.
Qed.

Lemma buildJobsQuery_fallback (filters : JobFilters) :
  let b := buildJobsQuery filters None in
  let fb := buildJobsQuery filters (Some true) in
  q_ascending (bq_query fb) = q_ascending (bq_query b) /\
  q_conditions (bq_query fb) =
  List.filter (fun c => negb (onOptionalColumn c)) (q_conditions (bq_query b)) /\
  bq_from fb = bq_from b /\ bq_to fb = bq_to b /\
  bq_limit fb = bq_limit b /\ bq_page fb = bq_page b.
Proof.
  unfold buildJobsQuery. cbn [default from_option id negb andb].
  destruct (present (f_search filters)), (present (f_location filters)),
    (present (f_category filters)), (present (f_experience filters)),
    (default false (f_remote filters));
    repeat split.
Qed.


Section GetJobsFacts.
Context {number : Type}.

Lemma range_run (q : Query) (from to : Z) (w : World number) :
  range q from to w =
  (Normal match db_fault w (db_log w) (SelectPage q from to) with
          | Some e => mkQueryResult None None (Some e)
          | None =>
              mkQueryResult (fst (db_page w (db_log w) q from to))
                (snd (db_page w (db_log w) q from to)) None
          end,
   logStatement (SelectPage q from to) w).
Proof.
  unfold range. destruct (db_fault w (db_log w) (SelectPage q from to)); [reflexivity|].
  now destruct (db_page w (db_log w) q from to).
Qed.

Lemma getJobs_first (filters : JobFilters) (w : World number) :
  let b := buildJobsQuery filters None in
  db_fault w (db_log w) (firstQuery filters) = None ->
  getJobs filters w =
  (Normal (pageResult filters (db_page w (db_log w) (bq_query b) (bq_from b) (bq_to b))),
   logStatement (firstQuery filters) w).
Proof.
  intros b Hfault. unfold getJobs. cbv zeta.
  unfold bind at 1. rewrite range_run. unfold firstQuery in Hfault.
  cbv zeta in Hfault. rewrite Hfault. simpl qr_error. cbv iota.
  unfold bind, ret. simpl. unfold pageResult. fold b.
  now destruct (db_page w (db_log w) (bq_query b) (bq_from b) (bq_to b)).
Qed.

Lemma getJobs_other (filters : JobFilters) (w : World number) (e : PgError) :
  db_fault w (db_log w) (firstQuery filters) = Some e ->
  isUndefinedColumn (Some e) = false ->
  getJobs filters w = (Throw (PgThrown e), logStatement (firstQuery filters) w).
Proof.
  intros Hfault Hother. unfold getJobs. cbv zeta.
  unfold bind at 1. rewrite range_run. unfold firstQuery in Hfault.
  cbv zeta in Hfault. rewrite Hfault. simpl qr_error. cbv iota.
  rewrite Hother. reflexivity.
Qed.

Lemma getJobs_retry (filters : JobFilters) (w : World number) (e : PgError) :
  let fb := buildJobsQuery filters (Some true) in
  let w1 := logStatement (firstQuery filters) w in
  let w2 := logStatement (retryQuery filters) w1 in
  db_fault w (db_log w) (firstQuery filters) = Some e ->
  isUndefinedColumn (Some e) = true ->
  getJobs filters w =
  match db_fault w (db_log w1) (retryQuery filters) with
  | Some e' => (Throw (PgThrown e'), w2)
  | None =>
      (Normal (pageResult filters
                 (db_page w (db_log w1) (bq_query fb) (bq_from fb) (bq_to fb))), w2)
  end.
Proof.
  intros fb w1 w2 Hfault Hdrift. unfold getJobs. cbv zeta.
  unfold bind at 1. rewrite range_run. unfold firstQuery in Hfault.
  cbv zeta in Hfault. rewrite Hfault. simpl qr_error. cbv iota.
  rewrite Hdrift. fold fb. fold (firstQuery filters). fold w1.
  assert (Einner :
            (result <- range (bq_query fb) (bq_from fb) (bq_to fb) ;;
             match qr_error result with
             | Some e' => throw (PgThrown e')
             | None => ret (qr_data result, qr_count result, bq_page fb)
             end) w1 =
            match db_fault w (db_log w1) (retryQuery filters) with
            | Some e' => (Throw (PgThrown e'), w2)
            | None =>
                (Normal (fst (db_page w (db_log w1) (bq_query fb) (bq_from fb) (bq_to fb)),
                         snd (db_page w (db_log w1) (bq_query fb) (bq_from fb) (bq_to fb)),
                         bq_page fb), w2)
            end).
  { unfold bind. rewrite range_run.
    change (db_fault w1) with (db_fault w). change (db_page w1) with (db_page w).
    fold (retryQuery filters). fold w2.
    unfold retryQuery at 1. fold fb. cbv zeta.
    now destruct (db_fault w (db_log w1) (SelectPage (bq_query fb) (bq_from fb) (bq_to fb))). }
  unfold retryQuery at 1 in Einner. fold fb in Einner. cbv zeta in Einner.
  unfold retryQuery at 1. fold fb. cbv zeta.
  destruct (db_fault w (db_log w1) (SelectPage (bq_query fb) (bq_from fb) (bq_to fb)))
    as [e'|].
  - now rewrite (bind_throw _ _ _ _ _ Einner).
  - rewrite (bind_normal _ _ _ _ _ Einner). unfold ret, pageResult.
    destruct (buildJobsQuery_fallback filters) as (_ & _ & _ & _ & _ & Hpage).
    fold fb in Hpage. cbv zeta in Hpage. now rewrite <- Hpage.
Qed.

End GetJobsFacts.

Local Close Scope Z_scope.



(** C7: [getJobs] returns, with the effective limit
    [min(limit or 12, 50)] and the total the database counted, [totalPages]
    the ceiling of total over limit, or 1 when that is 0.  For a total that
    is not negative and a limit that is positive this is the least number
    of pages of that size that hold the total, and at least 1: 3 pages for a
    total of 25 and a limit of 12, 1 page for a total of 0. *)
Theorem getJobs_totalPages
    {number : Type} (filters : JobFilters) (w : World number) :
  let limit := Z.min (numberOr (f_limit filters) DEFAULT_LIMIT) 50 in
  (forall r w',
     getJobs filters w = (Normal r, w') ->
     r_limit r = limit /\
     r_totalPages r = totalPagesOf (r_total r) limit) /\
  (db_fault w (db_log w) (firstQuery filters) = None ->
   exists r w',
     getJobs filters w = (Normal r, w') /\
     r_total r =
     default 0%Z
       (snd (db_page w (db_log w) (bq_query (buildJobsQuery filters None))
               (bq_from (buildJobsQuery filters None))
               (bq_to (buildJobsQuery filters None))))) /\
  (forall total size : Z,
     (0 <= total)%Z -> (0 < size)%Z ->
     totalPagesOf total size = Z.max 1 (ceilDiv total size) /\
     (1 <= totalPagesOf total size)%Z /\
     ((ceilDiv total size - 1) * size < total <= ceilDiv total size * size)%Z) /\
  totalPagesOf 25 12 = 3%Z /\
  (forall size : Z, totalPagesOf 0 size = 1%Z) /\
  fst (getJobs categoryFilters (counting 25)) = Normal (mkGetJobsResult [] 25 0 3 12) /\
  fst (getJobs categoryFilters (counting 0)) = Normal (mkGetJobsResult [] 0 0 1 12).
Proof.
  intros limit.
  assert (Hpage : forall page,
             r_limit (pageResult filters page) = limit /\
             r_totalPages (pageResult filters page) =
             totalPagesOf (r_total (pageResult filters page)) limit)
    by (intros page; split; reflexivity).
  split; [|split; [|split; [|split; [|split; [|split]]]]].
  - intros r w' Hrun.
    destruct (db_fault w (db_log w) (firstQuery filters)) as [e|] eqn:Hfault.
    + destruct (isUndefinedColumn (Some e)) eqn:Hdrift.
      * rewrite (getJobs_retry filters w e Hfault Hdrift) in Hrun.
        destruct (db_fault w _ (retryQuery filters)); [discriminate|].
        injection Hrun as <- _. apply Hpage.
      * rewrite (getJobs_other filters w e Hfault Hdrift) in Hrun. discriminate.
    + rewrite (getJobs_first filters w Hfault) in Hrun.
      injection Hrun as <- _. apply Hpage.
  - intros Hfault. eexists _, _. split; [apply (getJobs_first filters w Hfault)|].
    reflexivity.
  - intros total size Htotal Hsize.
    destruct (totalPagesOf_positive total size Htotal Hsize) as [Hmax Hone].
    split; [exact Hmax|]. split; [exact Hone|]. now apply ceilDiv_bounds.
  - reflexivity.
  - intros size. now destruct size.
  - vm_compute. reflexivity.
  - vm_compute. reflexivity.
Qed.

Lemma getJobs_totalPages_witness :
  exists r w',
    getJobs categoryFilters (counting 25) = (Normal r, w') /\
    r_total r = 25%Z /\ r_totalPages r = 3%Z /\
    totalPagesOf 25 12 = Z.max 1 (ceilDiv 25 12).
Proof.
  destruct (getJobs_totalPages categoryFilters (counting 25))
    as (Hany & Hfirst & Hpos & _).
  destruct Hfirst as (r & w' & Erun & Htotal); [reflexivity|].
  exists r, w'. split; [exact Erun|]. split; [exact Htotal|]. split.
  - destruct (Hany r w' Erun) as [_ Hpages]. rewrite Hpages, Htotal. reflexivity.
  - apply (Hpos 25%Z 12%Z); lia.
Defined.

(** ** Trimmed strings *)

Lemma trimStart_split (s : jsstring) :
  exists ws, s = ws ++ trimStart s /\ Forall (fun u => isWhiteSpace u = true) ws.
Proof.
  induction s as [|u s IH]; [now exists []|].
  simpl. destruct (isWhiteSpace u) eqn:Hu.
  - destruct IH as (ws & E & F). exists (u :: ws). split; [simpl; congruence|].
    now constructor.
  - now exists [].
Qed.

Lemma trimStart_head (s : jsstring) (u : N) (rest : jsstring) :
  trimStart s = u :: rest -> isWhiteSpace u = false.
Proof.
  induction s as [|v s IH]; [discriminate|].
  simpl. destruct (isWhiteSpace v) eqn:Hv; [exact IH|].
  intros E. now injection E as <- _.
Qed.

Lemma trimStart_fixed (s : jsstring) :
  (forall u rest, s = u :: rest -> isWhiteSpace u = false) -> trimStart s = s.
Proof.
  destruct s as [|u s]; [reflexivity|]. intros Hhead. simpl.
  now rewrite (Hhead u s eq_refl).
Qed.

Lemma trimEnd_split (s : jsstring) :
  exists ws, s = trimEnd s ++ ws /\ Forall (fun u => isWhiteSpace u = true) ws.
Proof.
  unfold trimEnd. destruct (trimStart_split (rev s)) as (ws & E & F).
  exists (rev ws). split.
  - rewrite <- rev_app_distr, <- E. now rewrite rev_involutive.
  - now apply Forall_rev.
Qed.

Lemma trimEnd_last (s : jsstring) (u : N) (front : jsstring) :
  trimEnd s = front ++ [u] -> isWhiteSpace u = false.
Proof.
  unfold trimEnd. intros E.
  apply (f_equal (@rev N)) in E. rewrite rev_involutive, rev_app_distr in E.
  exact (trimStart_head _ _ _ E).
Qed.

Lemma trimEnd_fixed (s : jsstring) :
  (forall u front, s = front ++ [u] -> isWhiteSpace u = false) -> trimEnd s = s.
Proof.
  intros Hlast. unfold trimEnd. rewrite trimStart_fixed; [apply rev_involutive|].
  intros u rest E. apply (Hlast u (rev rest)).
  apply (f_equal (@rev N)) in E. rewrite rev_involutive in E. exact E.
Qed.

Lemma trim_Trimmed (s : jsstring) : Trimmed (trim s).
Proof.
  unfold trim. split.
  - intros u rest E.
    destruct (trimEnd_split (trimStart s)) as (ws & Es & _).
    rewrite E in Es. exact (trimStart_head _ _ _ Es).
  - intros u front E. exact (trimEnd_last _ _ _ E).
Qed.

Lemma Trimmed_trim (s : jsstring) : Trimmed s -> trim s = s.
Proof.
  intros [Hhead Hlast]. unfold trim.
  rewrite (trimStart_fixed s Hhead). exact (trimEnd_fixed s Hlast).
Qed.

Lemma trim_idempotent (s : jsstring) : trim (trim s) = trim s.
Proof. apply Trimmed_trim, trim_Trimmed. Qed.

Lemma Trimmed_nil : Trimmed [].
Proof. split; intros u l E; [discriminate | now destruct l]. Qed.

(** ** What translation sends and returns *)

Section TranslateRuns.
Context {number : Type} `{JsNumber number}.

Lemma sent_nil (w : World number) : sent [] w w.
Proof. unfold sent. rewrite app_nil_r. now destruct w. Qed.

Lemma sent_app (r1 r2 : list Request) (w1 w2 w3 : World number) :
  sent r1 w1 w2 -> sent r2 w2 w3 -> sent (r1 ++ r2) w1 w3.
Proof. unfold sent. intros -> ->. simpl. now rewrite app_assoc. Qed.

Lemma sent_logRequest (req : Request) (w : World number) :
  sent [req] w (logRequest req w).
Proof. reflexivity. Qed.

Lemma sent_netStep (requests : list Request) (w w' : World number) :
  sent requests w w' -> netStep w w'.
Proof. intros E. now exists requests. Qed.

Lemma toTranslate_firstn (t : jsstring) :
  toTranslate t = firstn MAX_CHARS_PER_REQUEST t.
Proof.
  unfold toTranslate, slice0.
  destruct (Nat.ltb_spec MAX_CHARS_PER_REQUEST (length t)); [reflexivity|].
  symmetry. apply firstn_all2. lia.
Qed.

Lemma TranslationRequest_toTranslate (t : jsstring) :
  t <> [] -> TranslationRequest (translateRequest (toTranslate t)).
Proof.
  intros Hne. exists (toTranslate t). split; [reflexivity|].
  rewrite toTranslate_firstn. split.
  - destruct t; [congruence | discriminate].
  - rewrite length_firstn. lia.
Qed.

(** One run of [translateToEnglish]: at most one request goes out, and the
    text that comes back is trimmed and blank only if the input was. *)
Lemma translateToEnglish_run (text : jsstring) (w : World number) :
  exists v requests w',
    translateToEnglish text w = (Normal v, w') /\
    sent requests w w' /\
    length requests <= 1 /\ Forall TranslationRequest requests /\
    Trimmed v /\ (v = [] <-> trim text = []) /\
    (requests = [] <-> LooksEnglish text) /\
    (LooksEnglish text -> v = trim text).
Proof.
  destruct (trim text) as [|u t] eqn:Ht.
  - exists [], [], w. rewrite translateToEnglish_skip by (left; exact Ht).
    rewrite Ht. unfold LooksEnglish. rewrite Ht.
    split; [reflexivity|]. split; [apply sent_nil|]. split; [simpl; lia|].
    split; [constructor|]. split; [apply Trimmed_nil|].
    split; [tauto|]. split; [split; auto|]. reflexivity.
  - destruct (isLikelyEnglish (trim text)) eqn:He.
    + exists (trim text), [], w. rewrite translateToEnglish_skip by (right; exact He).
      unfold LooksEnglish. rewrite He.
      split; [reflexivity|]. split; [apply sent_nil|]. split; [simpl; lia|].
      split; [constructor|]. split; [apply trim_Trimmed|].
      rewrite Ht. split; [tauto|]. split; [split; auto|]. reflexivity.
    + assert (Hne : trim text <> []) by (rewrite Ht; discriminate).
      set (req := translateRequest (toTranslate (trim text))).
      exists (default (trim text) (offeredTranslation (net_reply w (net_log w) req))),
        [req], (logRequest req w).
      split; [now apply translateToEnglish_request|].
      split; [apply sent_logRequest|]. split; [simpl; lia|].
      split; [constructor; [now apply TranslationRequest_toTranslate | constructor]|].
      assert (Hv : Trimmed (default (trim text)
                              (offeredTranslation (net_reply w (net_log w) req))) /\
                   default (trim text)
                     (offeredTranslation (net_reply w (net_log w) req)) <> []).
      { destruct (offeredTranslation (net_reply w (net_log w) req)) as [v|] eqn:Ho.
        - apply offeredTranslation_Some in Ho.
          destruct Ho as (res & data & s & _ & _ & _ & _ & _ & Hs & ->).
          split; [apply trim_Trimmed | exact Hs].
        - split; [apply trim_Trimmed | exact Hne]. }
      destruct Hv as [Hv1 Hv2]. split; [exact Hv1|].
      split; [split; intros E; [now apply Hv2 in E | congruence]|].
      unfold LooksEnglish. rewrite He.
      split; [split; [discriminate | intros [E|E]; congruence]|].
      intros [E|E]; congruence.
Qed.

Lemma translateToEnglish_looksEnglish (text : jsstring) (w : World number) :
  LooksEnglish text -> translateToEnglish text w = (Normal (trim text), w).
Proof. intros Hs. now apply translateToEnglish_skip. Qed.

(** [mapM] adds up the requests of its calls. *)
Lemma mapM_sent {A B} (f : A -> M number B) (n : nat) (P : A -> B -> Prop) :
  (forall x w, exists y requests w',
      f x w = (Normal y, w') /\ sent requests w w' /\
      length requests <= n /\ Forall TranslationRequest requests /\ P x y) ->
  forall l w, exists ys requests w',
    mapM f l w = (Normal ys, w') /\ sent requests w w' /\
    length requests <= n * length l /\ Forall TranslationRequest requests /\
    Forall2 P l ys.
Proof.
  intros Hf. induction l as [|x l IH]; intros w.
  - exists [], [], w. repeat split; auto using sent_nil. simpl. lia.
  - destruct (Hf x w) as (y & r1 & w1 & E1 & S1 & L1 & F1 & P1).
    destruct (IH w1) as (ys & r2 & w2 & E2 & S2 & L2 & F2 & P2).
    exists (y :: ys), (r1 ++ r2), w2. cbn [mapM].
    rewrite (bind_normal _ _ _ _ _ E1), (bind_normal _ _ _ _ _ E2).
    split; [reflexivity|]. split; [eapply sent_app; eassumption|].
    split; [rewrite length_app; simpl; lia|].
    split; [now apply Forall_app|]. now constructor.
Qed.

End TranslateRuns.

Section EnsureRuns.
Context {number : Type} `{JsNumber number}.

Lemma ensureJobEnglish_run {R} (job : JobText R) (w : World number) :
  exists t requests w',
    ensureJobEnglish job w = (Normal t, w') /\ sent requests w w' /\
    length requests <= 4 /\ Forall TranslationRequest requests /\
    (tidied job t /\ (EnglishJob job -> requests = [])).
Proof.
  unfold ensureJobEnglish.
  destruct (translateToEnglish_run (title job) w)
    as (t1 & r1 & w1 & E1 & S1 & L1 & F1 & T1 & B1 & Q1 & V1).
  rewrite (bind_normal _ _ _ _ _ E1).
  destruct (translateToEnglish_run (company job) w1)
    as (t2 & r2 & w2 & E2 & S2 & L2 & F2 & T2 & B2 & Q2 & V2).
  rewrite (bind_normal _ _ _ _ _ E2).
  assert (Hloc : exists l r3 w3,
             match location job with
             | Some l => if str_truthy l then translateToEnglish l else ret l
             | None => ret []
             end w2 = (Normal l, w3) /\ sent r3 w2 w3 /\
             length r3 <= 1 /\ Forall TranslationRequest r3 /\ Trimmed l /\
             (LooksEnglish (default [] (location job)) ->
              r3 = [] /\ l = trim (default [] (location job)))).
  { destruct (location job) as [l|]; [destruct (str_truthy l) eqn:Hl|].
    - destruct (translateToEnglish_run l w2)
        as (l' & r3 & w3 & E3 & S3 & L3 & F3 & T3 & _ & Q3 & V3).
      exists l', r3, w3. repeat (split; [assumption|]).
      intros Hs. split; [now apply Q3 | now apply V3].
    - destruct l; [|discriminate]. exists [], [], w2.
      split; [reflexivity|]. split; [apply sent_nil|]. split; [simpl; lia|].
      split; [constructor|]. split; [apply Trimmed_nil|]. now split.
    - exists [], [], w2.
      split; [reflexivity|]. split; [apply sent_nil|]. split; [simpl; lia|].
      split; [constructor|]. split; [apply Trimmed_nil|]. now split. }
  destruct Hloc as (t3 & r3 & w3 & E3 & S3 & L3 & F3 & T3 & Q3).
  rewrite (bind_normal _ _ _ _ _ E3).
  assert (Hdesc : exists d r4 w4,
             match description job with
             | Some d =>
                 if str_truthy d && str_truthy (trim d)
                 then d' <- translateToEnglish (slice0 MAX_CHARS_PER_REQUEST d) ;;
                      ret (Some d')
                 else ret (Some d)
             | None => ret None
             end w3 = (Normal d, w4) /\ sent r4 w3 w4 /\
             length r4 <= 1 /\ Forall TranslationRequest r4 /\
             (LooksEnglish (slice0 MAX_CHARS_PER_REQUEST (default [] (description job))) ->
              r4 = [] /\
              d = match description job with
                  | Some d =>
                      if str_truthy d && str_truthy (trim d)
                      then Some (trim (slice0 MAX_CHARS_PER_REQUEST d))
                      else Some d
                  | None => None
                  end)).
  { destruct (description job) as [d|];
      [destruct (str_truthy d && str_truthy (trim d))|].
    - destruct (translateToEnglish_run (slice0 MAX_CHARS_PER_REQUEST d) w3)
        as (d' & r4 & w4 & E4 & S4 & L4 & F4 & _ & _ & Q4 & V4).
      exists (Some d'), r4, w4. rewrite (bind_normal _ _ _ _ _ E4).
      split; [reflexivity|]. repeat (split; [assumption|]).
      intros Hs. split; [now apply Q4 | now rewrite (V4 Hs)].
    - exists (Some d), [], w3.
      split; [reflexivity|]. split; [apply sent_nil|]. split; [simpl; lia|].
      split; [constructor|]. now split.
    - exists None, [], w3.
      split; [reflexivity|]. split; [apply sent_nil|]. split; [simpl; lia|].
      split; [constructor|]. now split. }
  destruct Hdesc as (t4 & r4 & w4 & E4 & S4 & L4 & F4 & Q4).
  rewrite (bind_normal _ _ _ _ _ E4).
  exists (mkJobText t1 t2 (Some t3) t4 (extra job)), (r1 ++ r2 ++ r3 ++ r4), w4.
  split; [reflexivity|].
  split; [eauto using sent_app|].
  split; [rewrite !length_app; lia|].
  split; [auto using Forall_app_2|].
  split.
  - split; [reflexivity|]. split; [exact T1|]. split; [exact T2|].
    split; [now exists t3|]. split; [exact B1|]. split; [exact B2|].
    intros (H1 & H2 & H3 & H4). unfold trimmedJob.
    destruct (Q3 H3) as [_ ->]. destruct (Q4 H4) as [_ ->].
    now rewrite (V1 H1), (V2 H2).
  - intros (H1 & H2 & H3 & H4).
    apply Q1 in H1. apply Q2 in H2. destruct (Q3 H3) as [-> _].
    destruct (Q4 H4) as [-> _]. now subst r1 r2.
Qed.

Lemma sent_nil_eq (w w' : World number) : sent [] w w' -> w' = w.
Proof. unfold sent. intros ->. rewrite app_nil_r. now destruct w. Qed.

Lemma ensureJobEnglish_english {R} (job : JobText R) (w : World number) :
  EnglishJob job -> ensureJobEnglish job w = (Normal (trimmedJob job), w).
Proof.
  intros He.
  destruct (ensureJobEnglish_run job w) as (t & r & w' & E & S & _ & _ & Ht & Hr).
  rewrite (Hr He) in S. apply sent_nil_eq in S. subst w'.
  destruct Ht as (_ & _ & _ & _ & _ & _ & Ht). now rewrite <- (Ht He).
Qed.

Lemma mapM_english {R} (jobs : list (JobText R)) (w : World number) :
  Forall EnglishJob jobs ->
  mapM ensureJobEnglish jobs w = (Normal (map trimmedJob jobs), w).
Proof.
  induction 1 as [|job jobs He _ IH]; [reflexivity|].
  cbn [mapM map]. rewrite (bind_normal _ _ _ _ _ (ensureJobEnglish_english job w He)).
  now rewrite (bind_normal _ _ _ _ _ IH).
Qed.

Lemma ensureJobsEnglish_sent {R} (jobs : list (JobText R)) (w : World number) :
  exists out requests w',
    ensureJobsEnglish jobs w = (Normal out, w') /\ sent requests w w' /\
    length requests <= 4 * length jobs /\ Forall TranslationRequest requests /\
    Forall2 tidied jobs out.
Proof.
  rewrite ensureJobsEnglish_mapM.
  apply (mapM_sent ensureJobEnglish 4 tidied). intros job w0.
  destruct (ensureJobEnglish_run job w0) as (t & r & w' & E & S & L & F & Ht & _).
  now exists t, r, w'.
Qed.

End EnsureRuns.

(** X1: [translateToEnglish] always returns a text without white space at
    either end, and the text is empty exactly when the input is blank; it
    throws for no input and no answer of the provider. *)
Theorem translateToEnglish_trimmed
    {number : Type} `{JsNumber number} (text : jsstring) (w : World number) :
  exists v w',
    translateToEnglish text w = (Normal v, w') /\
    Trimmed v /\ trim v = v /\ (v = [] <-> trim text = []).
Proof.
  destruct (translateToEnglish_run text w)
    as (v & r & w' & E & _ & _ & _ & Hv & Hb & _).
  exists v, w'. split; [exact E|]. split; [exact Hv|].
  split; [now apply Trimmed_trim | exact Hb].
Qed.

(** X2: translating a list of jobs sends at most four requests per job,
    each of them to the translation provider with a text of at most
    [MAX_CHARS_PER_REQUEST] code units; nothing else happens to the world:
    the database is not touched. *)
Theorem ensureJobsEnglish_request_budget
    {number : Type} `{JsNumber number} {R : Type}
    (jobs : list (JobText R)) (w : World number) :
  exists out requests w',
    ensureJobsEnglish jobs w = (Normal out, w') /\
    sent requests w w' /\
    length requests <= 4 * length jobs /\
    Forall TranslationRequest requests /\
    db_rows w' = db_rows w /\ db_log w' = db_log w.
Proof.
  destruct (ensureJobsEnglish_sent jobs w) as (out & r & w' & E & S & L & F & _).
  exists out, r, w'. repeat (split; [assumption|]).
  unfold sent in S. now subst w'.
Qed.

(** X3: a batch of jobs whose texts are all blank or likely English costs no
    request: the world is left as it was, and every job comes back with its
    texts trimmed, its description cut to [MAX_CHARS_PER_REQUEST] code
    units before that. *)
Theorem ensureJobsEnglish_english_batch
    {number : Type} `{JsNumber number} {R : Type}
    (jobs : list (JobText R)) (w : World number) :
  Forall EnglishJob jobs ->
  ensureJobsEnglish jobs w = (Normal (map trimmedJob jobs), w) /\
  forall i job, jobs !! i = Some job ->
    forall d, description job = Some d -> trim d <> [] ->
      (description <$> map trimmedJob jobs !! i)
      = Some (Some (trim (firstn MAX_CHARS_PER_REQUEST d))).
Proof.
  intros He. split.
  - rewrite ensureJobsEnglish_mapM. now apply mapM_english.
  - intros i job Hi d Hd Hne. rewrite lookup_map, Hi. simpl.
    unfold trimmedJob. rewrite Hd. simpl.
    apply str_truthy_nonempty in Hne. rewrite Hne.
    assert (Hd' : str_truthy d = true).
    { destruct d; [now vm_compute in Hne | reflexivity]. }
    now rewrite Hd'.
Qed.

Lemma ensureJobsEnglish_english_batch_witness :
  ensureJobsEnglish [englishJob] quietWorld =
  (Normal [mkJobText (lit "Backend Engineer") (lit "Acme") (Some (lit "Remote"))
             (Some (lit "Build and run our services.")) tt], quietWorld).
Proof.
  refine (proj1 (ensureJobsEnglish_english_batch [englishJob] quietWorld _)).
  constructor; [|constructor].
  repeat split; right; vm_compute; reflexivity.
Defined.

(** ** Texts of ASCII characters *)

Lemma LatinDiacritic_not_ascii (u : N) : LatinDiacritic u -> (128 <= u)%N.
Proof.
  assert (Hall : forallb (fun m => (128 <=? m)%N)
                   (diacriticClass ++ map upperPartner diacriticClass) = true)
    by (vm_compute; reflexivity).
  intros Hu. apply N.leb_le.
  apply (proj1 (forallb_forall _ _) Hall). apply in_app_iff. exact Hu.
Qed.

Lemma NonLatinScript_not_ascii (u : N) : NonLatinScript u -> (128 <= u)%N.
Proof. unfold NonLatinScript, Arabic, Cyrillic, CJK, Hebrew, Thai. lia. Qed.

Lemma ascii_NoSurrogates (s : jsstring) :
  Forall (fun u => (u < 128)%N) s -> NoSurrogates s.
Proof.
  intros Hs u Hu. apply (proj1 (List.Forall_forall _ _) Hs) in Hu.
  unfold isHighSurrogate, isLowSurrogate. split; apply andb_false_iff; left;
    apply N.leb_gt; lia.
Qed.

Lemma ascii_trim (s : jsstring) :
  Forall (fun u => (u < 128)%N) s -> Forall (fun u => (u < 128)%N) (trim s).
Proof.
  intros Hs. apply List.Forall_forall. intros u Hu.
  apply (proj1 (List.Forall_forall _ _) Hs). now apply trim_incl.
Qed.

Lemma countNonAscii_ascii (s : jsstring) :
  Forall (fun u => (u < 128)%N) s -> countNonAscii s = 0.
Proof.
  intros Hs. unfold countNonAscii.
  rewrite (codePoints_no_surrogates s (ascii_NoSurrogates s Hs)).
  induction Hs as [|u s Hu _ IH]; [reflexivity|].
  simpl. destruct (N.ltb_spec 127 u); [lia | exact IH].
Qed.

Lemma isLikelyEnglish_ascii (text : jsstring) :
  Forall (fun u => (u < 128)%N) text -> isLikelyEnglish text = true.
Proof.
  intros Hs. destruct (Nat.lt_ge_cases (length text) 2) as [Hshort|Hlong].
  - unfold isLikelyEnglish. apply Nat.ltb_lt in Hshort. rewrite Hshort.
    now rewrite orb_true_r.
  - rewrite (isLikelyEnglish_long text Hlong).
    assert (H1 : hasNonLatinScript (trim text) = false).
    { apply not_true_is_false. intros E. apply hasNonLatinScript_trim in E.
      destruct E as (u & Hu & Hn). apply NonLatinScript_not_ascii in Hn.
      apply (proj1 (List.Forall_forall _ _) Hs) in Hu. lia. }
    assert (H2 : testDiacritics (trim text) = false).
    { apply not_true_is_false. intros E. apply testDiacritics_trim in E.
      destruct E as (u & Hu & Hn). apply LatinDiacritic_not_ascii in Hn.
      apply (proj1 (List.Forall_forall _ _) Hs) in Hu. lia. }
    rewrite H1, H2, (countNonAscii_ascii _ (ascii_trim _ Hs)). simpl.
    reflexivity.
Qed.

(** X4: a text made of ASCII characters only is always deemed English,
    whatever its language, so it is never sent to the translation provider:
    [translateToEnglish] returns it trimmed and leaves the world as it
    was. *)
Theorem ascii_text_is_never_translated
    {number : Type} `{JsNumber number} (text : jsstring) (w : World number) :
  Forall (fun u => (u < 128)%N) text ->
  isLikelyEnglish text = true /\
  translateToEnglish text w = (Normal (trim text), w).
Proof.
  intros Hs. split; [now apply isLikelyEnglish_ascii|].
  apply translateToEnglish_skip. right.
  apply isLikelyEnglish_ascii, ascii_trim, Hs.
Qed.

Lemma ascii_text_is_never_translated_witness :
  isLikelyEnglish (lit "Entwickler gesucht") = true /\
  translateToEnglish (lit " Entwickler gesucht ") quietWorld =
  (Normal (lit "Entwickler gesucht"), quietWorld).
Proof.
  split.
  - apply (ascii_text_is_never_translated (lit "Entwickler gesucht") quietWorld).
    apply List.Forall_forall. intros u Hu. vm_compute in Hu.
    repeat (destruct Hu as [<-|Hu]; [reflexivity|]). destruct Hu.
  - apply (ascii_text_is_never_translated (lit " Entwickler gesucht ") quietWorld).
    apply List.Forall_forall. intros u Hu. vm_compute in Hu.
    repeat (destruct Hu as [<-|Hu]; [reflexivity|]). destruct Hu.
Defined.

(** ** The adapters on unexpected feeds *)

Lemma Forall2_In_left {A B} (P : A -> B -> Prop) (l : list A) (k : list B) (x : A) :
  Forall2 P l k -> In x l -> exists y, In y k /\ P x y.
Proof.
  induction 1 as [|a b l k Hab _ IH]; intros Hx; [destruct Hx|].
  destruct Hx as [<-|Hx].
  - exists b. split; [now left | exact Hab].
  - destruct (IH Hx) as (y & Hy & Hp). exists y. split; [now right | exact Hp].
Qed.

Section AdapterEdges.
Context {number : Type} `{JsNumber number}.


Lemma arbeitNowJob_bad_date (j : JsValue number) (n : number) (w : World number) :
  getProp (lit "created_at") j = JNum n -> epochSecondsToISO n = None ->
  arbeitNowJob j w = (Throw (ErrorObject (lit "Invalid time value")), w).
Proof. intros Hc Hn. unfold arbeitNowJob. now rewrite Hc, Hn. Qed.


End AdapterEdges.

(** X5: one record of the ArbeitNow feed whose [created_at] is a number
    that is no valid date makes the adapter return no job at all: the
    [RangeError] of [toISOString] is caught with every other failure, and
    the records that were fine are lost with it. *)
Theorem arbeitnow_bad_date_drops_feed
    {number : Type} `{JsNumber number} (w : World number)
    (data j : JsValue number) (n : number) :
  jsonBody (net_reply w (net_log w) arbeitNowRequest) = Some data ->
  In j (arrayOrEmpty (getProp (lit "data") data)) ->
  arbeitNowKeep j = true ->
  getProp (lit "created_at") j = JNum n ->
  epochSecondsToISO n = None ->
  fetchArbeitNow w = (Normal [], logRequest arbeitNowRequest w).
Proof.
  intros Hbody Hj Hkeep Hcreated Hdate.
  destruct (fetchArbeitNow_run w) as (out & Hrun & _ & Hout). rewrite Hrun.
  destruct (Hout data Hbody) as [-> | Hall]; [reflexivity|].
  assert (Hin : In j (List.filter arbeitNowKeep
                        (arrayOrEmpty (getProp (lit "data") data))))
    by (apply filter_In; now split).
  destruct (Forall2_In_left _ _ _ _ Hall Hin) as (o & _ & Ho).
  specialize (Ho w). rewrite (arbeitNowJob_bad_date j n w Hcreated Hdate) in Ho.
  discriminate.
Qed.

Lemma arbeitnow_bad_date_drops_feed_witness :
  fetchArbeitNow (answering arbeitNowFeed) =
  (Normal [], logRequest arbeitNowRequest (answering arbeitNowFeed)).
Proof.
  apply (arbeitnow_bad_date_drops_feed (answering arbeitNowFeed) arbeitNowFeed
           (arbeitNowRecord (lit "https://a.example/2") 8640000000001%Z)
           8640000000001%Z).
  - reflexivity.
  - vm_compute. right. left. reflexivity.
  - vm_compute. reflexivity.
  - vm_compute. reflexivity.
  - vm_compute. reflexivity.
Defined.


(** ** What the ingestion routes write and report *)

Lemma Forall2_In_right {A B} (P : A -> B -> Prop) (l : list A) (k : list B) (y : B) :
  Forall2 P l k -> In y k -> exists x, In x l /\ P x y.
Proof.
  induction 1 as [|a b l k Hab _ IH]; intros Hy; [destruct Hy|].
  destruct Hy as [<-|Hy].
  - exists a. split; [now left | exact Hab].
  - destruct (IH Hy) as (x & Hx & Hp). exists x. split; [now right | exact Hp].
Qed.

Lemma insertIgnoringDuplicates_ids (now : N) (rows : list UpsertRow) :
  forall table next,
    length (snd (insertIgnoringDuplicates now rows table next)) <= length rows.
Proof.
  induction rows as [|r rows IH]; intros table next; simpl; [lia|].
  destruct (hasApplyUrl (row_apply_url r) table).
  - specialize (IH table next). lia.
  - specialize (IH (table ++ [newRow next now r]) (next + 1)%N).
    destruct (insertIgnoringDuplicates now rows (table ++ [newRow next now r])
                (next + 1)%N) as [[t' n'] ids].
    simpl in *. lia.
Qed.

Lemma Trimmed_Remote : Trimmed (lit "Remote").
Proof. change (lit "Remote") with (trim (lit "Remote")). apply trim_Trimmed. Qed.

Lemma orRemote_Trimmed (l : option jsstring) :
  (forall s, l = Some s -> Trimmed s) -> Trimmed (orRemote l).
Proof.
  intros Hl. destruct l as [s|]; simpl; [|apply Trimmed_Remote].
  destruct (str_truthy s); [now apply Hl | apply Trimmed_Remote].
Qed.

Section IngestAccounts.
Context {number : Type} `{JsNumber number}.

(** [upsert] in numbers: the rows appended are at most the rows given, and
    the ids reported are those of the rows appended. *)
Lemma upsert_counts (rows : list UpsertRow) (w : World number) :
  exists res added w',
    upsert rows w = (Normal res, w') /\
    db_rows w' = db_rows w ++ added /\
    length added <= length rows /\
    (forall s, In s added -> exists r id now, In r rows /\ s = newRow id now r) /\
    net_log w' = net_log w /\
    db_log w' = db_log w ++ [UpsertIgnoreDuplicates rows] /\
    match wr_error res with
    | Some _ => added = []
    | None => insertedCount (wr_data res) = length added
    end.
Proof.
  unfold upsert.
  destruct (db_fault w (db_log w) (UpsertIgnoreDuplicates rows)) as [e|] eqn:Hfault.
  - eexists _, [], _. split; [reflexivity|]. simpl. rewrite app_nil_r.
    split; [reflexivity|]. split; [lia|]. split; [intros s []|]. now repeat split.
  - pose proof (insertIgnoringDuplicates_ids (db_now w (db_log w)) rows
                  (db_rows w) (db_next_id w)) as Hids.
    destruct (insertIgnoringDuplicates_appends (db_now w (db_log w)) rows
                (db_rows w) (db_next_id w)) as (added & E & Hfrom & _).
    rewrite E in *. simpl in Hids. rewrite length_map in Hids.
    eexists _, added, _. split; [reflexivity|]. simpl.
    split; [reflexivity|]. split; [exact Hids|].
    split.
    { intros s Hs. destruct (Hfrom s Hs) as (r & id & Hr & ->).
      now exists r, id, (db_now w (db_log w)). }
    split; [reflexivity|]. split; [reflexivity|]. now rewrite length_map.
Qed.

Lemma fetchJobsRow_tidy (job : NormalizedJob) (t : JobText NormalizedJob) (id now : N) :
  str_truthy (trim (nj_apply_url job)) = true ->
  tidied (normalizedAsText job) t ->
  TidyRow (newRow id now (fetchJobsRow t)).
Proof.
  intros Hurl (Hextra & Ht & Hc & (l & Hl & Hlt) & _). unfold TidyRow. simpl.
  rewrite Hextra. simpl. split; [now apply str_truthy_nonempty|].
  split; [exact Ht|]. split; [exact Hc|].
  split; [apply orRemote_nonempty|].
  apply orRemote_Trimmed. intros s Hs. congruence.
Qed.


(** One turn of the loop of [GET], in numbers. *)
Lemma ingestSource_accounts (state : nat * list SummaryEntry) (r : FetchJobsResult)
    (w : World number) :
  fr_count r = length (fr_jobs r) ->
  exists entry added w',
    ingestSource state r w =
    (Normal ((fst state + se_inserted entry)%nat, snd state ++ [entry]), w') /\
    db_rows w' = db_rows w ++ added /\
    length added = se_inserted entry /\
    se_inserted entry <= se_fetched entry /\
    Forall TidyRow added.
Proof.
  intros Hcount. unfold ingestSource. destruct state as [total summary].
  destruct (str_truthy (default [] (fr_error r))).
  { exists (mkSummaryEntry (fr_source r) 0 0 (fr_error r)), [], w.
    simpl. unfold ret. rewrite Nat.add_0_r, app_nil_r. now repeat split. }
  fold (keptJobs (fr_jobs r)).
  destruct (ensureJobsEnglish_sent (map normalizedAsText (keptJobs (fr_jobs r))) w)
    as (translated & reqs & w1 & Etr & Snet & _ & _ & Hall).
  rewrite (bind_normal _ _ _ _ _ Etr).
  assert (Hrows1 : db_rows w1 = db_rows w) by (unfold sent in Snet; now subst w1).
  assert (Hlen : length (map fetchJobsRow translated) <= length (fr_jobs r)).
  { rewrite length_map, <- (Forall2_length _ _ _ Hall), length_map.
    apply filter_length_le. }
  destruct (map fetchJobsRow translated) as [|row rows'] eqn:Hrows.
  - exists (mkSummaryEntry (fr_source r) (fr_count r) 0 None), [], w1.
    simpl. unfold ret. rewrite Nat.add_0_r, app_nil_r.
    split; [reflexivity|]. split; [exact Hrows1|]. split; [reflexivity|].
    split; [lia | constructor].
  - destruct (upsert_counts (row :: rows') w1)
      as (res & added & w' & Eup & Hadd & Hle & Hfrom & _ & _ & Hres).
    change (length (row :: rows') =? 0) with false. cbv iota.
    rewrite (bind_normal _ _ _ _ _ Eup).
    assert (Htidy : Forall TidyRow added).
    { apply List.Forall_forall. intros s Hs.
      destruct (Hfrom s Hs) as (r0 & id & now & Hr0 & ->).
      rewrite <- Hrows in Hr0. apply in_map_iff in Hr0.
      destruct Hr0 as (t & <- & Ht).
      destruct (Forall2_In_right _ _ _ _ Hall Ht) as (job' & Hjob' & Htidied).
      apply in_map_iff in Hjob'. destruct Hjob' as (job & <- & Hjob).
      apply filter_In in Hjob. destruct Hjob as [_ Hurl].
      now apply (fetchJobsRow_tidy job). }
    destruct (wr_error res) as [e|] eqn:Herr.
    + subst added.
      exists (mkSummaryEntry (fr_source r) (fr_count r) 0 (pg_message e)), [], w'.
      simpl. unfold ret. rewrite Nat.add_0_r.
      split; [reflexivity|]. split; [now rewrite Hadd, Hrows1|].
      split; [reflexivity|]. split; [lia | constructor].
    + exists (mkSummaryEntry (fr_source r) (fr_count r)
                (insertedCount (wr_data res)) None), added, w'.
      simpl. unfold ret.
      split; [reflexivity|]. split; [now rewrite Hadd, Hrows1|].
      split; [now rewrite Hres|]. split; [|exact Htidy].
      rewrite Hres, Hcount. simpl in *. lia.
Qed.

Lemma fetchAllJobSources_counts (w : World number) :
  exists r1 r2 r3 w3,
    fetchAllJobSources w = (Normal [r1; r2; r3], w3) /\
    db_rows w3 = db_rows w /\
    fr_count r1 = length (fr_jobs r1) /\
    fr_count r2 = length (fr_jobs r2) /\
    fr_count r3 = length (fr_jobs r3).
Proof.
  destruct (fetchAllJobSources_run w) as (r1 & r2 & r3 & E & _).
  unfold fetchAllJobSources in *.
  destruct (fetchRemotive 150 w) as [c1 w1] eqn:E1.
  rewrite (bind_normal _ _ _ _ _ (settle_run _ _ _ _ _ E1)) in *.
  destruct (fetchRemoteOk w1) as [c2 w2] eqn:E2.
  rewrite (bind_normal _ _ _ _ _ (settle_run _ _ _ _ _ E2)) in *.
  destruct (fetchArbeitNow w2) as [c3 w3] eqn:E3.
  rewrite (bind_normal _ _ _ _ _ (settle_run _ _ _ _ _ E3)) in *.
  unfold ret in *. injection E as <- <- <- Hw.
  eexists _, _, _, _. split; [reflexivity|].
  split; [now rewrite Hw|].
  now destruct c1, c2, c3.
Qed.

Lemma GET_fetch_jobs_run (w : World number) :
  Configured w ->
  exists e1 e2 e3 added w',
    GET_fetch_jobs w =
    (Normal (FetchJobsOk (se_inserted e1 + se_inserted e2 + se_inserted e3)
               [e1; e2; e3]), w') /\
    db_rows w' = db_rows w ++ added /\
    length added = se_inserted e1 + se_inserted e2 + se_inserted e3 /\
    Forall (fun e => se_inserted e <= se_fetched e) [e1; e2; e3] /\
    Forall TidyRow added.
Proof.
  intros Hconf. unfold GET_fetch_jobs, try_catch.
  rewrite (bind_normal _ _ _ _ _ (getSupabaseServer_configured w Hconf)).
  destruct (fetchAllJobSources_counts w) as (r1 & r2 & r3 & w0 & E & Hrows & C1 & C2 & C3).
  rewrite (bind_normal _ _ _ _ _ E).
  destruct (ingestSource_accounts (0, []) r1 w0 C1)
    as (e1 & a1 & w1 & E1 & R1 & L1 & I1 & T1).
  destruct (ingestSource_accounts (0 + se_inserted e1, [] ++ [e1]) r2 w1 C2)
    as (e2 & a2 & w2 & E2 & R2 & L2 & I2 & T2).
  destruct (ingestSource_accounts
              (0 + se_inserted e1 + se_inserted e2, ([] ++ [e1]) ++ [e2]) r3 w2 C3)
    as (e3 & a3 & w3 & E3 & R3 & L3 & I3 & T3).
  simpl in E1, E2, E3.
  assert (Efold : foldM ingestSource [r1; r2; r3] (0, []) w0 =
                  (Normal (se_inserted e1 + se_inserted e2 + se_inserted e3,
                           [e1; e2; e3]), w3)).
  { cbn [foldM]. rewrite (bind_normal _ _ _ _ _ E1).
    rewrite (bind_normal _ _ _ _ _ E2). now rewrite (bind_normal _ _ _ _ _ E3). }
  rewrite (bind_normal _ _ _ _ _ Efold).
  exists e1, e2, e3, (a1 ++ a2 ++ a3), w3. split; [reflexivity|].
  split; [rewrite R3, R2, R1, Hrows; now rewrite <- !app_assoc|].
  split; [rewrite !length_app; lia|].
  split; [now repeat constructor|].
  auto using Forall_app_2.
Qed.

End IngestAccounts.


Section RouteRuns.
Context {number : Type} `{JsNumber number}.

Lemma getSupabaseServer_cases (w : World number) :
  (Configured w /\ getSupabaseServer w = (Normal tt, w)) \/
  (~ Configured w /\
   exists message,
     getSupabaseServer w = (Throw (ErrorObject message), w) /\
     message =
     if str_truthy (default [] (env_supabase_url w))
     then lit "Missing SUPABASE_SERVICE_ROLE_KEY"
     else lit "Missing NEXT_PUBLIC_SUPABASE_URL").
Proof.
  unfold getSupabaseServer, Configured.
  destruct (str_truthy (default [] (env_supabase_url w))); simpl.
  - destruct (str_truthy (default [] (env_service_role_key w))); simpl.
    + now left.
    + right. split; [intros [_ E]; discriminate | now eexists].
  - right. split; [intros [E _]; discriminate | now eexists].
Qed.



End RouteRuns.

(** X7: without its configuration the ingestion route and the backfill
    route fail at once: the answer carries the message that names the
    missing variable (the URL first), no request goes out and no statement
    reaches the database. *)
Theorem unconfigured_routes_fail_fast
    {number : Type} `{JsNumber number} (w : World number) :
  ~ Configured w ->
  exists message,
    message =
    (if str_truthy (default [] (env_supabase_url w))
     then lit "Missing SUPABASE_SERVICE_ROLE_KEY"
     else lit "Missing NEXT_PUBLIC_SUPABASE_URL") /\
    GET_fetch_jobs w = (Normal (FetchJobsFailed message), w) /\
    POST_translate_jobs w = (Normal (TranslateFailed (Some message)), w).
Proof.
  intros Hno.
  destruct (getSupabaseServer_cases w) as [[Hconf _] | [_ (m & Eg & Hm)]];
    [contradiction|].
  exists m. split; [exact Hm|]. split.
  - unfold GET_fetch_jobs, try_catch. now rewrite (bind_throw _ _ _ _ _ Eg).
  - unfold POST_translate_jobs, try_catch. now rewrite (bind_throw _ _ _ _ _ Eg).
Qed.

Lemma unconfigured_routes_fail_fast_witness :
  GET_fetch_jobs unconfiguredWorld =
  (Normal (FetchJobsFailed (lit "Missing NEXT_PUBLIC_SUPABASE_URL")), unconfiguredWorld).
Proof.
  destruct (unconfigured_routes_fail_fast unconfiguredWorld) as (m & -> & E & _).
  - intros [E _]. discriminate E.
  - exact E.
Defined.

(** X8: the ingestion route reports what it wrote: [totalInserted] is the
    sum of the [inserted] counts of the three summary entries and equals
    the number of rows the run added to the table, the rows that were there
    stay in place, and no entry counts more insertions than fetched
    records. *)
Theorem fetch_jobs_accounting
    {number : Type} `{JsNumber number} (w : World number) :
  Configured w ->
  exists total e1 e2 e3 added w',
    GET_fetch_jobs w = (Normal (FetchJobsOk total [e1; e2; e3]), w') /\
    total = se_inserted e1 + se_inserted e2 + se_inserted e3 /\
    db_rows w' = db_rows w ++ added /\
    length added = total /\
    Forall (fun e => se_inserted e <= se_fetched e) [e1; e2; e3].
Proof.
  intros Hconf.
  destruct (GET_fetch_jobs_run w Hconf) as (e1 & e2 & e3 & added & w' & E & R & L & I & _).
  exists (se_inserted e1 + se_inserted e2 + se_inserted e3), e1, e2, e3, added, w'.
  now repeat split.
Qed.

Lemma fetch_jobs_accounting_witness :
  exists total e1 e2 e3 added w',
    GET_fetch_jobs (answering oneJobFeed) =
    (Normal (FetchJobsOk total [e1; e2; e3]), w') /\
    total = se_inserted e1 + se_inserted e2 + se_inserted e3 /\
    db_rows w' = db_rows (answering oneJobFeed) ++ added /\
    length added = total /\
    Forall (fun e => se_inserted e <= se_fetched e) [e1; e2; e3].
Proof.
  apply (fetch_jobs_accounting (answering oneJobFeed)).
  split; reflexivity.
Defined.




(** ** What the backfill leaves alone *)

Lemma SameIdentity_refl (s : StoredJob) : SameIdentity s s.
Proof. now repeat split. Qed.

Lemma SameIdentity_trans (a b c : StoredJob) :
  SameIdentity a b -> SameIdentity b c -> SameIdentity a c.
Proof. unfold SameIdentity. intuition congruence. Qed.

Lemma updateRow_SameIdentity (id : N) (t c l : jsstring) (d : option jsstring)
    (s : StoredJob) :
  SameIdentity s (updateRow id t c l d s).
Proof. unfold updateRow. destruct (job_id s =? id)%N; now repeat split. Qed.

Lemma Forall2_map_self {A} (P : A -> A -> Prop) (f : A -> A) (l : list A) :
  (forall x, P x (f x)) -> Forall2 P l (map f l).
Proof. intros Hf. induction l; simpl; constructor; auto. Qed.

Lemma Forall2_SameIdentity_refl (l : list StoredJob) : Forall2 SameIdentity l l.
Proof. induction l; constructor; auto using SameIdentity_refl. Qed.

Lemma Forall2_SameIdentity_trans (a b c : list StoredJob) :
  Forall2 SameIdentity a b -> Forall2 SameIdentity b c -> Forall2 SameIdentity a c.
Proof.
  intros Hab. revert c. induction Hab as [|x y a b Hxy _ IH]; intros c Hbc.
  - inversion Hbc. constructor.
  - inversion Hbc as [|y' z b' c' Hyz Hbc' E1 E2]. subst.
    constructor; [eapply SameIdentity_trans; eassumption | now apply IH].
Qed.

Section BackfillFrame.
Context {number : Type} `{JsNumber number}.

Lemma update_frame (id : N) (t c l : jsstring) (d : option jsstring) (w : World number) :
  exists error w',
    update id t c l d w = (Normal error, w') /\
    Forall2 SameIdentity (db_rows w) (db_rows w') /\ net_log w' = net_log w /\
    (error <> None -> db_rows w' = db_rows w).
Proof.
  unfold update. destruct (db_fault w (db_log w) (UpdateById id t c l d)).
  - eexists _, _. split; [reflexivity|]. simpl.
    split; [apply Forall2_SameIdentity_refl|]. now split.
  - eexists _, _. split; [reflexivity|]. simpl.
    split; [apply Forall2_map_self; intros s; apply updateRow_SameIdentity|].
    now split.
Qed.

Lemma backfillStep_frame (jobs : list StoredJob) (translated : list (JobText unit))
    (updated i : nat) (w : World number) :
  i < length jobs -> length translated = length jobs ->
  exists updated' w',
    backfillStep jobs translated updated i w = (Normal updated', w') /\
    updated <= updated' <= S updated /\
    Forall2 SameIdentity (db_rows w) (db_rows w') /\ net_log w' = net_log w.
Proof.
  intros Hi Hlen. unfold backfillStep.
  destruct (lookup_lt_is_Some_2 jobs i Hi) as [orig ->].
  assert (Hi' : i < length translated) by lia.
  destruct (lookup_lt_is_Some_2 translated i Hi') as [t ->].
  destruct (backfillChanged orig t); simpl.
  - destruct (update_frame (job_id orig) (title t) (company t)
                (default (job_location orig) (location t))
                (match description t with
                 | Some d => Some d
                 | None => job_description orig
                 end) w) as (error & w' & E & Hrows & Hnet & _).
    rewrite (bind_normal _ _ _ _ _ E).
    destruct error; eexists _, w'; (split; [reflexivity|]);
      (split; [lia|]); now split.
  - exists updated, w. split; [reflexivity|]. split; [lia|].
    split; [apply Forall2_SameIdentity_refl | reflexivity].
Qed.

Lemma backfill_frame (jobs : list StoredJob) (translated : list (JobText unit)) :
  length translated = length jobs ->
  forall (m k updated : nat) (w : World number),
    k + m <= length jobs ->
    exists updated' w',
      foldM (backfillStep jobs translated) (seq k m) updated w = (Normal updated', w') /\
      updated <= updated' <= updated + m /\
      Forall2 SameIdentity (db_rows w) (db_rows w') /\ net_log w' = net_log w.
Proof.
  intros Hlen. induction m as [|m IH]; intros k updated w Hk.
  - exists updated, w. split; [reflexivity|]. split; [lia|].
    split; [apply Forall2_SameIdentity_refl | reflexivity].
  - cbn [seq foldM].
    destruct (backfillStep_frame jobs translated updated k w) as (u1 & w1 & E1 & B1 & R1 & N1);
      [lia | exact Hlen |].
    rewrite (bind_normal _ _ _ _ _ E1).
    destruct (IH (S k) u1 w1) as (u2 & w2 & E2 & B2 & R2 & N2); [lia|].
    exists u2, w2. split; [exact E2|]. split; [lia|].
    split; [eapply Forall2_SameIdentity_trans; eassumption | congruence].
Qed.

Lemma POST_translate_jobs_frame (w : World number) :
  exists response w',
    POST_translate_jobs w = (Normal response, w') /\
    Forall2 SameIdentity (db_rows w) (db_rows w') /\
    match response with
    | Translated total updated =>
        total = length (db_rows w) /\ updated <= total /\ total <> 0
    | NothingToTranslate => db_rows w = [] /\ w' = logStatement SelectAllJobs w
    | TranslateFailed _ => db_rows w' = db_rows w /\ net_log w' = net_log w
    end.
Proof.
  unfold POST_translate_jobs, try_catch.
  destruct (getSupabaseServer_cases w) as [[Hconf Eg] | [Hconf (m & Eg & _)]].
  2:{ rewrite (bind_throw _ _ _ _ _ Eg). unfold ret. eexists _, w.
      split; [reflexivity|]. split; [apply Forall2_SameIdentity_refl | now split]. }
  rewrite (bind_normal _ _ _ _ _ Eg).
  unfold bind at 1. unfold selectAllJobs.
  destruct (db_fault w (db_log w) SelectAllJobs) as [e|].
  { cbn [fst snd]. unfold ret. eexists _, _. split; [reflexivity|]. simpl.
    split; [apply Forall2_SameIdentity_refl | now split]. }
  cbn [fst snd from_option id]. cbv beta iota.
  set (w1 := logStatement SelectAllJobs w).
  destruct (db_rows w) as [|row rows] eqn:Hrows.
  { unfold ret. simpl. eexists _, _. split; [reflexivity|].
    split; [subst w1; simpl; rewrite Hrows; constructor | now split]. }
  change (length (row :: rows) =? 0) with false. cbv iota.
  destruct (ensureJobsEnglish_sent (map backfillInput (row :: rows)) w1)
    as (translated & reqs & w2 & Etr & Snet & _ & _ & Hall).
  rewrite (bind_normal _ _ _ _ _ Etr).
  assert (Hlen : length translated = length (row :: rows)).
  { rewrite <- (Forall2_length _ _ _ Hall). apply length_map. }
  destruct (backfill_frame (row :: rows) translated Hlen (length (row :: rows)) 0 0 w2)
    as (updated & w' & Eloop & Hb & Hid & _); [lia|].
  rewrite (bind_normal _ _ _ _ _ Eloop). unfold ret.
  eexists _, w'. split; [reflexivity|].
  assert (Hrows2 : db_rows w2 = row :: rows).
  { unfold sent in Snet. subst w2 w1. simpl. exact Hrows. }
  rewrite Hrows2 in Hid. split; [exact Hid|].
  split; [reflexivity|]. split; [lia | discriminate].
Qed.

End BackfillFrame.

(** X11: whatever the provider and the database do, the backfill route
    answers, and it never adds, removes or reorders rows: every row keeps
    its id, [apply_url], category, publication date, experience level and
    creation time.  A failure answer leaves the table as it was, and a
    success answer counts in [total] the rows of the table and in [updated]
    no more than [total]. *)
Theorem translate_jobs_keeps_identity
    {number : Type} `{JsNumber number} (w : World number) :
  exists response w',
    POST_translate_jobs w = (Normal response, w') /\
    length (db_rows w') = length (db_rows w) /\
    Forall2 SameIdentity (db_rows w) (db_rows w') /\
    match response with
    | Translated total updated =>
        total = length (db_rows w) /\ updated <= total /\ total <> 0
    | NothingToTranslate => db_rows w = [] /\ w' = logStatement SelectAllJobs w
    | TranslateFailed _ => db_rows w' = db_rows w /\ net_log w' = net_log w
    end.
Proof.
  destruct (POST_translate_jobs_frame w) as (response & w' & E & Hid & Hresp).
  exists response, w'. split; [exact E|].
  split; [symmetry; eapply Forall2_length; exact Hid|]. now split.
Qed.

(** ** The listing query *)

Lemma present_cleanFilter (v : option jsstring) : present (cleanFilter v) = present v.
Proof.
  destruct v as [s|]; [|reflexivity]. simpl.
  destruct (str_truthy (trim s)) eqn:Hs; [|reflexivity].
  simpl. now rewrite trim_idempotent.
Qed.

Lemma wildcard_cleanFilter (v : option jsstring) :
  present v = true -> wildcard (cleanFilter v) = wildcard v.
Proof.
  destruct v as [s|]; [|discriminate]. simpl. intros ->.
  unfold wildcard. simpl. now rewrite trim_idempotent.
Qed.

Local Open Scope Z_scope.

Lemma numberOr_nonzero (v : option Z) (d : Z) : d <> 0 -> numberOr v d <> 0.
Proof.
  intros Hd. destruct v as [n|]; simpl; [|exact Hd].
  destruct (Z.eqb_spec n 0); [exact Hd | assumption].
Qed.

(** X12: the window of rows the listing query asks for.  The page size is
    never 0 and never above 50 (an absent or zero limit means 12), the page
    index is never negative, the window starts at page times size and has
    exactly that size; page 0 starts at row 0, a negative or absent page is
    page 0, and each page starts right after the one before: the pages
    tile the result without gap or overlap. *)
Theorem buildJobsQuery_page_windows
    (filters : JobFilters) (skip : option bool) :
  let b := buildJobsQuery filters skip in
  (bq_limit b <= 50 /\ bq_limit b <> 0 /\ 0 <= bq_page b /\
   bq_from b = bq_page b * bq_limit b /\
   bq_to b - bq_from b + 1 = bq_limit b) /\
  (f_limit filters = None \/ f_limit filters = Some 0 -> bq_limit b = 12) /\
  (forall n, f_limit filters = Some n -> 0 < n -> bq_limit b = Z.min n 50) /\
  (forall p, p <= 0 ->
     buildJobsQuery (withPage (Some p) filters) skip =
     buildJobsQuery (withPage None filters) skip /\
     bq_from (buildJobsQuery (withPage (Some p) filters) skip) = 0) /\
  (forall p, 0 <= p ->
     bq_page (buildJobsQuery (withPage (Some p) filters) skip) = p /\
     bq_from (buildJobsQuery (withPage (Some (p + 1)) filters) skip) =
     bq_to (buildJobsQuery (withPage (Some p) filters) skip) + 1 /\
     bq_query (buildJobsQuery (withPage (Some (p + 1)) filters) skip) =
     bq_query (buildJobsQuery (withPage (Some p) filters) skip)).
Proof.
  intros b.
  assert (Hlimit : numberOr (f_limit filters) DEFAULT_LIMIT <> 0)
    by (apply numberOr_nonzero; discriminate).
  split; [|split; [|split; [|split]]].
  - subst b. unfold buildJobsQuery. simpl. repeat split; lia.
  - subst b. unfold buildJobsQuery. simpl. intros [-> | ->]; reflexivity.
  - intros n Hn Hpos. subst b. unfold buildJobsQuery. simpl. rewrite Hn. simpl.
    destruct (Z.eqb_spec n 0); [lia | reflexivity].
  - intros p Hp. unfold buildJobsQuery, withPage. simpl.
    destruct (Z.eqb_spec p 0) as [->|Hne]; [now split|].
    replace (Z.max 0 p) with 0 by lia. now split.
  - intros p Hp. unfold buildJobsQuery, withPage. simpl.
    destruct (Z.eqb_spec p 0) as [Hz|Hne];
      (destruct (Z.eqb_spec (p + 1) 0) as [E|_]; [lia|]);
      repeat split; try reflexivity; try lia.
Qed.

Local Close Scope Z_scope.

(** X13: only the trimmed text of the search, location, category and
    experience filters matters to the listing query: white space around a
    filter is ignored, and a blank filter is the same as none. *)
Theorem buildJobsQuery_ignores_white_space
    (filters : JobFilters) (skip : option bool) :
  buildJobsQuery (cleanFilters filters) skip = buildJobsQuery filters skip /\
  (forall s, f_search filters = Some s -> trim s = [] ->
     Forall (fun c => exists column pattern, c = ILike column pattern)
       (q_conditions (bq_query (buildJobsQuery filters skip)))).
Proof.
  split.
  - unfold buildJobsQuery, cleanFilters.
    cbn [f_search f_location f_category f_experience f_remote f_sort f_page f_limit].
    rewrite !present_cleanFilter.
    destruct (default false skip); cbn [negb andb];
      repeat match goal with
             | |- context [present ?v] =>
                 let E := fresh "E" in
                 destruct (present v) eqn:E;
                 [try rewrite (wildcard_cleanFilter _ E)|]
             end;
      reflexivity.
  - intros s Hs Hblank. unfold buildJobsQuery. rewrite Hs. simpl. rewrite Hblank. simpl.
    destruct (present (f_location filters)),
      (negb (default false skip) && present (f_category filters)),
      (negb (default false skip) && present (f_experience filters)),
      (default false (f_remote filters)); simpl;
      repeat (constructor; [now eexists _, _|]); constructor.
Qed.

(** X14: [getJobs] only reads: whether it returns a page or throws, the
    table and the log of the network are as they were, and what it sent to
    the database is one page query, or two when it retried. *)
Theorem getJobs_only_reads
    {number : Type} (filters : JobFilters) (w : World number) :
  exists c w' statements,
    getJobs filters w = (c, w') /\
    db_rows w' = db_rows w /\ net_log w' = net_log w /\
    db_log w' = db_log w ++ statements /\
    (statements = [firstQuery filters] \/
     statements = [firstQuery filters; retryQuery filters]).
Proof.
  destruct (db_fault w (db_log w) (firstQuery filters)) as [e|] eqn:Hfault.
  - destruct (isUndefinedColumn (Some e)) eqn:Hundef.
    + pose proof (getJobs_retry filters w e Hfault Hundef) as E. cbv zeta in E.
      exists (fst (getJobs filters w)), (snd (getJobs filters w)),
        [firstQuery filters; retryQuery filters].
      split; [now destruct (getJobs filters w)|]. rewrite E.
      destruct (db_fault w (db_log (logStatement (firstQuery filters) w))
                  (retryQuery filters)); simpl;
        rewrite <- app_assoc; repeat split; now right.
    + exists (Throw (PgThrown e)), (logStatement (firstQuery filters) w),
        [firstQuery filters].
      split; [now apply getJobs_other|]. simpl. repeat split. now left.
  - eexists _, (logStatement (firstQuery filters) w), [firstQuery filters].
    split; [now apply getJobs_first|]. simpl. repeat split. now left.
Qed.

(** ** The LinkedIn scraper *)

Section LinkedInFacts.
Context {number : Type} `{JsNumber number}.

Lemma linkedInJob_pure (j : JsValue number) :
  exists c, forall w : World number, linkedInJob j w = (c, w).
Proof.
  unfold linkedInJob. destruct (isNullish j); eexists; intros w; reflexivity.
Qed.

Lemma mapM_linkedInJob (l : list (JsValue number)) :
  exists c, (forall w : World number, mapM linkedInJob l w = (c, w)) /\
            ((exists j, In j l /\ isNullish j = true) ->
             c = Throw (ErrorObject (lit "Cannot read properties of null"))) /\
            (forall jobs, c = Normal jobs -> length jobs = length l).
Proof.
  induction l as [|j l (c & Hrun & Hnull & Hlen)].
  - exists (Normal []). split; [reflexivity|]. split.
    + intros (j & [] & _).
    + intros jobs E. now injection E as <-.
  - cbn [mapM]. unfold linkedInJob at 1. destruct (isNullish j) eqn:Hj.
    + eexists. split; [intros w; reflexivity|]. split; [reflexivity | discriminate].
    + destruct c as [jobs|e].
      * eexists. split; [intros w; unfold bind, ret; now rewrite Hrun|].
        split.
        { intros (j' & [<-|Hin] & Hn); [congruence|].
          assert (E : Normal jobs = Throw (ErrorObject (lit "Cannot read properties of null")))
            by (apply Hnull; now exists j').
          discriminate E. }
        intros jobs' E. injection E as <-. simpl. now rewrite (Hlen jobs eq_refl).
      * exists (Throw e). split; [intros w; unfold bind, ret; now rewrite Hrun|].
        split; [|discriminate].
        intros (j' & [<-|Hin] & Hn); [congruence|].
        apply Hnull. now exists j'.
Qed.

Lemma fetchLinkedInJobs_run (w : World number) :
  exists c,
    fetchLinkedInJobs w = (c, w) /\
    (forall jobs, c = Normal jobs ->
       Forall (fun j => li_apply_url j <> []) jobs /\
       exists v, linkedin w = Listings v /\ length jobs <= length (arrayOrEmpty v)) /\
    (forall v, linkedin w = Listings v -> isArray v = false -> c = Normal []) /\
    (forall items j,
       linkedin w = Listings (JArr items) -> In j items -> isNullish j = true ->
       c = Throw (ErrorObject (lit "Cannot read properties of null"))) /\
    (forall message, linkedin w = ListingsReject message ->
       c = Throw (ErrorObject message)) /\
    (linkedin w = NotAFunction ->
       c = Throw (ErrorObject (lit "LinkedIn jobs API: fetchJobListings not found"))).
Proof.
  unfold fetchLinkedInJobs, bind, callFetchJobListings.
  destruct (linkedin w) as [m| |m|v] eqn:Hl.
  - destruct (includes (lit "Cannot find module") m
              || includes (lit "ERR_MODULE_NOT_FOUND") m);
      eexists; (split; [reflexivity|]); repeat split; discriminate.
  - eexists. split; [reflexivity|]. repeat split; try discriminate.
  - eexists. split; [reflexivity|]. repeat split; try discriminate.
    intros m' E. now injection E as <-.
  - destruct (isArray v) eqn:Harr; simpl.
    + destruct (mapM_linkedInJob (arrayOrEmpty v)) as (c & Hrun & Hnull & Hlen).
      rewrite Hrun. destruct c as [jobs|e].
      * eexists. split; [reflexivity|]. split.
        { intros jobs' E. injection E as <-. split.
          - apply List.Forall_forall. intros j Hj. apply filter_In in Hj.
            destruct Hj as [_ Hj]. apply Nat.ltb_lt in Hj.
            destruct (li_apply_url j); [simpl in Hj; lia | discriminate].
          - exists v. split; [reflexivity|].
            rewrite <- (Hlen jobs eq_refl). apply filter_length_le. }
        split; [intros v' E; injection E as <-; congruence|].
        split; [|split; discriminate].
        intros items j E Hj Hn. injection E as ->.
        assert (E : Normal jobs = Throw (ErrorObject (lit "Cannot read properties of null")))
          by (apply Hnull; now exists j).
        discriminate E.
      * exists (Throw e). split; [reflexivity|]. split; [discriminate|].
        split; [intros v' E; injection E as <-; congruence|].
        split; [|split; discriminate].
        intros items j E Hj Hn. injection E as ->.
        apply Hnull. now exists j.
    + exists (Normal []). split; [reflexivity|]. split.
      { intros jobs E. injection E as <-. split; [constructor|].
        exists v. split; [reflexivity | simpl; lia]. }
      split; [reflexivity|]. split; [|split; discriminate].
      intros items j E. injection E as ->. discriminate Harr.
Qed.

Lemma scrapeAndInsertLinkedInJobs_run (w : World number) :
  exists c added w',
    scrapeAndInsertLinkedInJobs w = (c, w') /\
    db_rows w' = db_rows w ++ added /\
    Forall (fun s => job_apply_url s <> [] /\ Trimmed (job_title s) /\
                     Trimmed (job_company s)) added /\
    match c with
    | Normal r =>
        sr_inserted r = length added /\ sr_inserted r <= sr_fetched r /\
        exists jobs, fst (fetchLinkedInJobs w) = Normal jobs /\
                     sr_fetched r = length jobs
    | Throw _ => added = []
    end /\
    (forall jobs, fst (fetchLinkedInJobs w) = Normal jobs -> jobs = [] ->
       c = Normal (mkScrapeResult 0 0) /\ w' = w).
Proof.
  unfold scrapeAndInsertLinkedInJobs.
  destruct (fetchLinkedInJobs_run w) as (c0 & E0 & Hjobs & _).
  destruct c0 as [jobs|e].
  2:{ rewrite (bind_throw _ _ _ _ _ E0). exists (Throw e), [], w.
      rewrite app_nil_r, E0. simpl. repeat split; auto; discriminate. }
  rewrite (bind_normal _ _ _ _ _ E0). rewrite E0. simpl fst.
  destruct (Hjobs jobs eq_refl) as [Hurls _].
  destruct jobs as [|j0 rest] eqn:Hjs.
  { unfold ret. simpl. exists (Normal (mkScrapeResult 0 0)), [], w.
    rewrite app_nil_r. repeat split; auto. now exists []. }
  change (length (j0 :: rest) =? 0) with false. cbv iota.
  destruct (ensureJobsEnglish_sent (map linkedInAsText (j0 :: rest)) w)
    as (translated & reqs & w2 & Etr & Snet & _ & _ & Hall).
  rewrite (bind_normal _ _ _ _ _ Etr).
  assert (Hrows2 : db_rows w2 = db_rows w) by (unfold sent in Snet; now subst w2).
  assert (Hlen : length translated = length (j0 :: rest)).
  { rewrite <- (Forall2_length _ _ _ Hall). apply length_map. }
  destruct (getSupabaseServer_cases w2) as [[Hconf Eg] | [Hconf (m & Eg & _)]].
  2:{ rewrite (bind_throw _ _ _ _ _ Eg). eexists _, [], w2.
      rewrite app_nil_r. split; [reflexivity|]. split; [exact Hrows2|].
      split; [constructor|]. split; [reflexivity|]. intros jobs' Ej En. subst jobs'. discriminate Ej. }
  rewrite (bind_normal _ _ _ _ _ Eg).
  destruct (upsert_counts (map linkedInRow translated) w2)
    as (res & added & w' & Eup & Hadd & Hle & Hfrom & _ & _ & Hres).
  rewrite (bind_normal _ _ _ _ _ Eup).
  assert (Htidy : Forall (fun s => job_apply_url s <> [] /\ Trimmed (job_title s) /\
                                   Trimmed (job_company s)) added).
  { apply List.Forall_forall. intros s Hs.
    destruct (Hfrom s Hs) as (r0 & id & now & Hr0 & ->).
    apply in_map_iff in Hr0. destruct Hr0 as (t & <- & Ht).
    destruct (Forall2_In_right _ _ _ _ Hall Ht) as (job' & Hjob' & Htidied).
    apply in_map_iff in Hjob'. destruct Hjob' as (job & <- & Hjob).
    destruct Htidied as (Hextra & Htt & Htc & _). simpl. rewrite Hextra. simpl.
    split; [|now split].
    exact (proj1 (List.Forall_forall _ _) Hurls job Hjob). }
  destruct (wr_error res) as [e|] eqn:Herr.
  - subst added. eexists _, [], w'. split; [reflexivity|].
    split; [now rewrite Hadd, !app_nil_r, Hrows2|]. split; [constructor|].
    split; [reflexivity|]. intros jobs' Ej En. subst jobs'. discriminate Ej.
  - unfold ret. eexists _, added, w'. split; [reflexivity|].
    split; [now rewrite Hadd, Hrows2|]. split; [exact Htidy|].
    split.
    + simpl. split; [exact Hres|]. split.
      * rewrite Hres. rewrite length_map in Hle. simpl in *. lia.
      * now exists (j0 :: rest).
    + intros jobs' Ej En. subst jobs'. discriminate Ej.
Qed.

End LinkedInFacts.


(** X16: the scrape route always answers.  A success reports as [inserted]
    exactly the number of rows added to the table, never more than
    [fetched], the number of listings with a URL; a failure leaves the
    table as it was; every row added has an [apply_url] that is not empty
    and a trimmed title and company; and with no listing to store the
    answer is a success with 0 and 0 that touches nothing, not even the
    configuration. *)
Theorem scrape_linkedin_accounting
    {number : Type} `{JsNumber number} (w : World number) :
  exists response added w',
    runScrape w = (Normal response, w') /\
    db_rows w' = db_rows w ++ added /\
    Forall (fun s => job_apply_url s <> [] /\ Trimmed (job_title s) /\
                     Trimmed (job_company s)) added /\
    match response with
    | ScrapeOk fetched inserted =>
        inserted = length added /\ inserted <= fetched /\
        exists jobs, fst (fetchLinkedInJobs w) = Normal jobs /\ fetched = length jobs
    | ScrapeFailed _ => added = []
    end /\
    (forall jobs, fst (fetchLinkedInJobs w) = Normal jobs -> jobs = [] ->
       response = ScrapeOk 0 0 /\ w' = w).
Proof.
  destruct (scrapeAndInsertLinkedInJobs_run w) as (c & added & w' & E & R & T & Hc & Hz).
  unfold runScrape, try_catch.
  destruct c as [r|e].
  - rewrite (bind_normal _ _ _ _ _ E). unfold ret.
    eexists _, added, w'. split; [reflexivity|]. split; [exact R|].
    split; [exact T|]. split; [exact Hc|].
    intros jobs Hj Hn. destruct (Hz jobs Hj Hn) as [Er ->].
    injection Er as ->. now split.
  - rewrite (bind_throw _ _ _ _ _ E). unfold ret.
    eexists _, added, w'. split; [reflexivity|]. split; [exact R|].
    split; [exact T|]. split; [exact Hc|].
    intros jobs Hj Hn. now destruct (Hz jobs Hj Hn).
Qed.

(** ** The page navigation *)

Local Open Scope Z_scope.













Local Close Scope Z_scope.

(** ** Query strings *)

Lemma usv_cons2 (hi lo : N) (rest : jsstring) :
  usv (hi :: lo :: rest) =
  if isHighSurrogate hi && isLowSurrogate lo then hi :: lo :: usv rest
  else (if isHighSurrogate hi || isLowSurrogate hi then 0xFFFD%N else hi)
         :: usv (lo :: rest).
Proof. reflexivity. Qed.

Lemma plain_not_surrogate (u : N) :
  (u < 0xD800)%N -> isHighSurrogate u = false /\ isLowSurrogate u = false.
Proof.
  intros Hu. unfold isHighSurrogate, isLowSurrogate.
  split; apply andb_false_iff; left; apply N.leb_gt; lia.
Qed.

Lemma surrogate_not_plain (u : N) :
  isHighSurrogate u || isLowSurrogate u = true -> (0xD800 <= u)%N.
Proof.
  unfold isHighSurrogate, isLowSurrogate. intros Hu.
  apply orb_true_iff in Hu. destruct Hu as [Hu|Hu];
    apply andb_true_iff in Hu; destruct Hu as [Hu _]; apply N.leb_le in Hu; lia.
Qed.

(** A string without surrogates is stored as it is. *)
Lemma usv_plain (s : jsstring) :
  Forall (fun u => (u < 0xD800)%N) s -> usv s = s.
Proof.
  induction 1 as [|u s Hu _ IH]; [reflexivity|].
  destruct (plain_not_surrogate u Hu) as [Hh Hl].
  destruct s as [|lo rest]; [simpl; now rewrite Hh, Hl|].
  rewrite usv_cons2, Hh, Hl. cbn [andb orb]. now rewrite IH.
Qed.

(** Only itself is stored as a string without surrogates and without
    U+FFFD. *)
Lemma usv_eq_plain (s : jsstring) :
  forall t, usv s = t -> Forall (fun u => (u < 0xD800)%N) t -> s = t.
Proof.
  induction s as [| u | hi lo rest Hpair IH | hi lo rest Hpair IH] using codePoints_ind;
    intros t E Ht.
  - now subst t.
  - simpl in E. subst t. inversion Ht as [|x l Hx _]; subst.
    destruct (isHighSurrogate u || isLowSurrogate u) eqn:Hs; [lia | reflexivity].
  - rewrite usv_cons2, Hpair in E. subst t. inversion Ht as [|x l Hx _]; subst.
    apply andb_true_iff in Hpair. destruct Hpair as [Hh _].
    assert (0xD800 <= hi)%N by (apply surrogate_not_plain; now rewrite Hh).
    lia.
  - rewrite usv_cons2, Hpair in E. subst t. inversion Ht as [|x l Hx Hl]; subst.
    destruct (isHighSurrogate hi || isLowSurrogate hi) eqn:Hs; [lia|].
    f_equal. now apply IH.
Qed.

Lemma lit_plain (s : string) : Forall (fun u => (u < 0xD800)%N) (lit s).
Proof.
  unfold lit. apply List.Forall_forall. intros u Hu. apply in_map_iff in Hu.
  destruct Hu as (a & <- & _). pose proof (N_ascii_bounded a). lia.
Qed.

Lemma zToString_plain (z : Z) : Forall (fun u => (u < 0xD800)%N) (zToString z).
Proof.
  unfold zToString, decimal. destruct (z <? 0)%Z.
  - apply Forall_app. split; apply lit_plain.
  - apply lit_plain.
Qed.

Lemma usv_lit (s : string) : usv (lit s) = lit s.
Proof. apply usv_plain, lit_plain. Qed.

Lemma usv_name_lit (key : jsstring) (s : string) : usv key = lit s <-> key = lit s.
Proof.
  split.
  - intros E. apply (usv_eq_plain key _ E), lit_plain.
  - intros ->. apply usv_lit.
Qed.

Lemma hasName_lit (s : string) (p : jsstring * jsstring) :
  hasName (lit s) p = bool_decide (fst p = lit s).
Proof. unfold hasName. now rewrite usv_lit. Qed.

(** [set] on parameters that have no pair of the name appends one. *)
Lemma paramsSet_absent (name value : jsstring) (ps : SearchParams) :
  Forall (fun p => fst p <> usv name) ps ->
  paramsSet name value ps = ps ++ [(usv name, usv value)].
Proof.
  induction 1 as [|p ps Hp _ IH]; [reflexivity|]. simpl.
  unfold hasName at 1. rewrite bool_decide_false by exact Hp. now rewrite IH.
Qed.

Lemma paramsDelete_Forall (P : jsstring * jsstring -> Prop) (name : jsstring)
    (ps : SearchParams) :
  Forall P ps -> Forall P (paramsDelete name ps).
Proof.
  intros Hps. apply List.Forall_forall. intros p Hp. apply filter_In in Hp.
  exact (proj1 (List.Forall_forall _ _) Hps p (proj1 Hp)).
Qed.

Lemma paramsSet_Forall (P : jsstring * jsstring -> Prop) (name value : jsstring)
    (ps : SearchParams) :
  Forall P ps -> P (usv name, usv value) -> Forall P (paramsSet name value ps).
Proof.
  intros Hps Hnew. induction Hps as [|p ps Hp Hps IH]; simpl.
  - now constructor.
  - destruct (hasName name p).
    + constructor; [exact Hnew | now apply paramsDelete_Forall].
    + now constructor.
Qed.

(** The laws of [getAll] after [set] and [delete]. *)
Lemma paramsGetAll_delete_same (name : jsstring) (ps : SearchParams) :
  paramsGetAll name (paramsDelete name ps) = [].
Proof.
  unfold paramsGetAll, paramsDelete. induction ps as [|p ps IH]; [reflexivity|].
  simpl. destruct (hasName name p) eqn:Hp; simpl; [exact IH|]. now rewrite Hp.
Qed.

Lemma hasName_other (name other : jsstring) (p : jsstring * jsstring) :
  usv other <> usv name -> hasName name p = true -> hasName other p = false.
Proof.
  intros Hne Hp. unfold hasName in *. apply bool_decide_eq_true in Hp.
  apply bool_decide_false. congruence.
Qed.

Lemma hasName_new (name value : jsstring) : hasName name (usv name, usv value) = true.
Proof. unfold hasName. now apply bool_decide_true. Qed.

Lemma paramsGetAll_delete_other (name other : jsstring) (ps : SearchParams) :
  usv other <> usv name ->
  paramsGetAll other (paramsDelete name ps) = paramsGetAll other ps.
Proof.
  intros Hne. unfold paramsGetAll, paramsDelete.
  induction ps as [|p ps IH]; [reflexivity|]. simpl.
  destruct (hasName name p) eqn:Hp; simpl.
  - now rewrite (hasName_other name other p Hne Hp).
  - destruct (hasName other p); simpl; now rewrite IH.
Qed.

Lemma paramsGetAll_set_same (name value : jsstring) (ps : SearchParams) :
  paramsGetAll name (paramsSet name value ps) = [usv value].
Proof.
  induction ps as [|p ps IH]; simpl.
  - unfold paramsGetAll. simpl. now rewrite hasName_new.
  - destruct (hasName name p) eqn:Hp.
    + unfold paramsGetAll. simpl. rewrite hasName_new. simpl. f_equal.
      apply paramsGetAll_delete_same.
    + unfold paramsGetAll in *. simpl. now rewrite Hp.
Qed.

Lemma paramsGetAll_set_other (name other value : jsstring) (ps : SearchParams) :
  usv other <> usv name ->
  paramsGetAll other (paramsSet name value ps) = paramsGetAll other ps.
Proof.
  intros Hne.
  assert (Hnew : hasName other (usv name, usv value) = false)
    by (apply (hasName_other name); [exact Hne | apply hasName_new]).
  induction ps as [|p ps IH]; simpl.
  - unfold paramsGetAll. simpl. now rewrite Hnew.
  - destruct (hasName name p) eqn:Hp.
    + unfold paramsGetAll at 1 2. simpl.
      rewrite Hnew, (hasName_other name other p Hne Hp).
      now apply paramsGetAll_delete_other.
    + unfold paramsGetAll in *. simpl. destruct (hasName other p); simpl; now rewrite IH.
Qed.

Lemma paramsGetAll_app (name : jsstring) (ps qs : SearchParams) :
  paramsGetAll name (ps ++ qs) = paramsGetAll name ps ++ paramsGetAll name qs.
Proof. unfold paramsGetAll. now rewrite List.filter_app, map_app. Qed.

Lemma paramsGetAll_absent (name : jsstring) (ps : SearchParams) :
  Forall (fun p => fst p <> usv name) ps -> paramsGetAll name ps = [].
Proof.
  unfold paramsGetAll. induction 1 as [|p ps Hp _ IH]; [reflexivity|]. simpl.
  unfold hasName at 1. now rewrite bool_decide_false by exact Hp.
Qed.

(** ** The links of the navigation and of the filter panel *)

Lemma fold_paramsAppend (key : jsstring) (values : list jsstring) :
  forall acc : SearchParams,
    fold_left (fun ps v => paramsAppend key v ps) values acc =
    acc ++ map (fun v => (usv key, usv v)) values.
Proof.
  induction values as [|v values IH]; intros acc; simpl.
  - now rewrite app_nil_r.
  - rewrite IH. unfold paramsAppend. now rewrite <- app_assoc.
Qed.

Lemma paramsGetAll_single (s : string) (v : jsstring) :
  paramsGetAll (lit s) [(lit s, v)] = [v].
Proof.
  unfold paramsGetAll. cbn [List.filter]. rewrite hasName_lit. cbn [fst].
  now rewrite bool_decide_true by reflexivity.
Qed.

Section BuildUrlFold.
Variable step : SearchParams -> jsstring * ParamValue -> SearchParams.
Hypothesis step_eq :
  forall params key value,
    step params (key, value) =
    if bool_decide (key = lit "page") then params
    else
      match value with
      | PArray values => fold_left (fun ps v => paramsAppend key v ps) values params
      | PString s => if str_truthy s then paramsSet key s params else params
      | PUndefined => params
      end.

Lemma buildUrl_fold_no_page (searchParams : list (jsstring * ParamValue)) :
  forall acc,
    Forall (fun p => fst p <> lit "page") acc ->
    Forall (fun p => fst p <> lit "page") (fold_left step searchParams acc).
Proof.
  induction searchParams as [|[key value] sp IH]; intros acc Hacc; [exact Hacc|].
  cbn [fold_left]. apply IH. rewrite step_eq.
  destruct (bool_decide (key = lit "page")) eqn:Hkey; [exact Hacc|].
  apply bool_decide_eq_false in Hkey.
  assert (Hname : usv key <> lit "page")
    by (intros E; apply Hkey; exact (proj1 (usv_name_lit key "page") E)).
  destruct value as [s|values|]; [| |exact Hacc].
  - destruct (str_truthy s); [|exact Hacc]. now apply paramsSet_Forall.
  - rewrite fold_paramsAppend. apply Forall_app. split; [exact Hacc|].
    apply List.Forall_forall. intros p Hp. apply in_map_iff in Hp.
    now destruct Hp as (v & <- & _).
Qed.

Lemma entryPairs_names (entry : jsstring * ParamValue) (p : jsstring * jsstring) :
  In p (entryPairs entry) -> fst p = usv (fst entry).
Proof.
  unfold entryPairs. destruct (snd entry) as [s|values|]; [| |intros []].
  - destruct (str_truthy s); [|intros []]. now intros [<-|[]].
  - intros Hp. apply in_map_iff in Hp. now destruct Hp as (v & <- & _).
Qed.

Lemma buildUrl_fold_entries (searchParams : list (jsstring * ParamValue)) :
  forall acc,
    NoDup (map (fun e => usv (fst e)) searchParams) ->
    (forall e, In e searchParams -> ~ In (usv (fst e)) (map fst acc)) ->
    fold_left step searchParams acc =
    acc ++ flat_map entryPairs
             (List.filter (fun e => negb (bool_decide (fst e = lit "page")))
                searchParams).
Proof.
  induction searchParams as [|[key value] sp IH]; intros acc Hnodup Hfresh.
  - simpl. now rewrite app_nil_r.
  - cbn [fold_left map] in *. inversion Hnodup as [|x l Hnew Hrest]; subst.
    assert (Hstep : step acc (key, value) =
                    acc ++ (if bool_decide (key = lit "page") then []
                            else entryPairs (key, value))).
    { rewrite step_eq. destruct (bool_decide (key = lit "page"));
        [now rewrite app_nil_r|].
      unfold entryPairs. cbn [fst snd]. destruct value as [s|values|].
      - destruct (str_truthy s); [|now rewrite app_nil_r].
        apply paramsSet_absent. apply List.Forall_forall. intros p Hp E.
        apply (Hfresh (key, PString s)); [now left|].
        cbn [fst]. rewrite <- E. now apply in_map.
      - apply fold_paramsAppend.
      - now rewrite app_nil_r. }
    rewrite Hstep, IH.
    + cbn [List.filter fst]. destruct (bool_decide (key = lit "page")); cbn [negb].
      * now rewrite app_nil_r.
      * cbn [flat_map]. now rewrite <- app_assoc.
    + exact Hrest.
    + intros e He Hin. rewrite map_app in Hin. apply in_app_iff in Hin.
      destruct Hin as [Hin|Hin].
      * apply (Hfresh e); [now right | exact Hin].
      * destruct (bool_decide (key = lit "page")); [destruct Hin|].
        apply in_map_iff in Hin. destruct Hin as (p & Ep & Hp).
        apply entryPairs_names in Hp. cbn [fst] in Hp.
        apply Hnew. apply list_elem_of_In, in_map_iff.
        exists e. split; [congruence | exact He].
Qed.

End BuildUrlFold.

(** X19: a link of the navigation carries the parameters of the current
    URL and sets the page: the path is [/jobs], the parameter [page] comes
    once, last, with the page index in decimal, whatever [page] the current
    URL had; and for the entries of a parameter object (names that stay
    apart once stored) the other parameters are, in order, the values of
    every array and every string that is not empty. *)
Theorem buildUrl_carries_filters
    (searchParams : list (jsstring * ParamValue)) (page : Z) :
  let h := JobsPagination.buildUrl searchParams page in
  href_path h = lit "/jobs" /\
  (exists others,
     href_params h = others ++ [(lit "page", zToString page)] /\
     Forall (fun p => fst p <> lit "page") others) /\
  paramsGetAll (lit "page") (href_params h) = [zToString page] /\
  (NoDup (map (fun e => usv (fst e)) searchParams) ->
   href_params h =
   flat_map entryPairs
     (List.filter (fun e => negb (bool_decide (fst e = lit "page"))) searchParams)
   ++ [(lit "page", zToString page)]).
Proof.
  unfold JobsPagination.buildUrl. cbv zeta. cbn [href_path href_params].
  match goal with
  | |- context [fold_left ?f searchParams []] => set (step := f)
  end.
  assert (Hstep : forall params key value,
             step params (key, value) =
             if bool_decide (key = lit "page") then params
             else
               match value with
               | PArray values =>
                   fold_left (fun ps v => paramsAppend key v ps) values params
               | PString s => if str_truthy s then paramsSet key s params else params
               | PUndefined => params
               end) by reflexivity.
  assert (Hno : Forall (fun p => fst p <> lit "page") (fold_left step searchParams []))
    by (apply (buildUrl_fold_no_page step Hstep); constructor).
  assert (Hset : paramsSet (lit "page") (zToString page) (fold_left step searchParams []) =
                 fold_left step searchParams [] ++ [(lit "page", zToString page)]).
  { rewrite paramsSet_absent by (now rewrite usv_lit).
    now rewrite usv_lit, (usv_plain _ (zToString_plain page)). }
  split; [reflexivity|]. rewrite Hset. split; [|split].
  - now exists (fold_left step searchParams []).
  - rewrite paramsGetAll_app, paramsGetAll_absent by (now rewrite usv_lit).
    now rewrite paramsGetAll_single.
  - intros Hnodup. f_equal.
    rewrite (buildUrl_fold_entries step Hstep searchParams [] Hnodup); [reflexivity|].
    intros e _ [].
Qed.

Lemma paramsGetAll_put_same (name value : jsstring) (c : bool) (ps : SearchParams) :
  paramsGetAll name (if c then paramsSet name value ps else paramsDelete name ps)
  = onceIf c value.
Proof.
  destruct c; [apply paramsGetAll_set_same | apply paramsGetAll_delete_same].
Qed.

Lemma paramsGetAll_put_other (name other value : jsstring) (c : bool) (ps : SearchParams) :
  usv other <> usv name ->
  paramsGetAll other (if c then paramsSet name value ps else paramsDelete name ps)
  = paramsGetAll other ps.
Proof.
  intros Hne. destruct c;
    [now apply paramsGetAll_set_other | now apply paramsGetAll_delete_other].
Qed.

Lemma onceIf_nil (c : bool) (v : jsstring) : onceIf c v = [] <-> c = false.
Proof. destruct c; simpl; split; congruence. Qed.

Ltac names_differ :=
  rewrite ?usv_lit;
  first [ assumption
        | let E := fresh "E" in intros E; vm_compute in E; discriminate E ].

Ltac peel_params :=
  repeat first
    [ rewrite paramsGetAll_put_same
    | rewrite paramsGetAll_put_other by names_differ
    | rewrite paramsGetAll_set_same
    | rewrite paramsGetAll_set_other by names_differ ].

(** X20: the link the filter panel pushes.  It has the page once (page 0
    unless another is asked for), and each of its six filters once when it
    is set and not at all when it is not: the search, the location and the
    category trimmed, when not blank; the experience, when not empty;
    [remote=1], when remote only is chosen; the sort order, when it is not
    "newest".  Every other parameter of the current URL is carried over.
    The "Clear all" button shows exactly when the link has one of the six
    filters. *)
Theorem applyFilters_link
    (st : FilterState) (searchParams : SearchParams) (page : option Z) :
  let ps := href_params (JobsFilters.applyFilters st searchParams page) in
  paramsGetAll (lit "page") ps = [zToString (default 0%Z page)] /\
  paramsGetAll (lit "search") ps =
    onceIf (str_truthy (trim (st_search st))) (trim (st_search st)) /\
  paramsGetAll (lit "location") ps =
    onceIf (str_truthy (trim (st_location st))) (trim (st_location st)) /\
  paramsGetAll (lit "category") ps =
    onceIf (str_truthy (trim (st_category st))) (trim (st_category st)) /\
  paramsGetAll (lit "experience") ps =
    onceIf (str_truthy (st_experience st)) (st_experience st) /\
  paramsGetAll (lit "remote") ps = onceIf (st_remote st) (lit "1") /\
  paramsGetAll (lit "sort") ps =
    onceIf (str_truthy (st_sort st) && negb (bool_decide (st_sort st = lit "newest")))
      (st_sort st) /\
  (forall name,
     ~ In (usv name) (lit "page" :: filterNames) ->
     paramsGetAll name ps = paramsGetAll name searchParams) /\
  (JobsFilters.hasActiveFilters st = true <->
   exists name, In name filterNames /\ paramsGetAll name ps <> []).
Proof.
  intros ps.
  assert (H0 : paramsGetAll (lit "page") ps = [zToString (default 0%Z page)]).
  { subst ps. unfold JobsFilters.applyFilters. cbv zeta. cbn [href_params].
    peel_params. now rewrite (usv_plain _ (zToString_plain _)). }
  assert (H1 : paramsGetAll (lit "search") ps =
               onceIf (str_truthy (trim (st_search st))) (trim (st_search st))).
  { subst ps. unfold JobsFilters.applyFilters. cbv zeta. cbn [href_params].
    now peel_params. }
  assert (H2 : paramsGetAll (lit "location") ps =
               onceIf (str_truthy (trim (st_location st))) (trim (st_location st))).
  { subst ps. unfold JobsFilters.applyFilters. cbv zeta. cbn [href_params].
    now peel_params. }
  assert (H3 : paramsGetAll (lit "category") ps =
               onceIf (str_truthy (trim (st_category st))) (trim (st_category st))).
  { subst ps. unfold JobsFilters.applyFilters. cbv zeta. cbn [href_params].
    now peel_params. }
  assert (H4 : paramsGetAll (lit "experience") ps =
               onceIf (str_truthy (st_experience st)) (st_experience st)).
  { subst ps. unfold JobsFilters.applyFilters. cbv zeta. cbn [href_params].
    now peel_params. }
  assert (H5 : paramsGetAll (lit "remote") ps = onceIf (st_remote st) (lit "1")).
  { subst ps. unfold JobsFilters.applyFilters. cbv zeta. cbn [href_params].
    now peel_params. }
  assert (H6 : paramsGetAll (lit "sort") ps =
               onceIf (str_truthy (st_sort st) &&
                       negb (bool_decide (st_sort st = lit "newest"))) (st_sort st)).
  { subst ps. unfold JobsFilters.applyFilters. cbv zeta. cbn [href_params].
    now peel_params. }
  repeat (split; [assumption|]). split.
  - intros name Hname.
    assert (Hp : usv name <> lit "page") by (intros E; apply Hname; now left).
    assert (Hf : forall k, In k filterNames -> usv name <> k)
      by (intros k Hk E; apply Hname; right; now rewrite E).
    assert (Hs1 := Hf _ (or_introl eq_refl)).
    assert (Hs2 := Hf _ (or_intror (or_introl eq_refl))).
    assert (Hs3 := Hf _ (or_intror (or_intror (or_introl eq_refl)))).
    assert (Hs4 := Hf _ (or_intror (or_intror (or_intror (or_introl eq_refl))))).
    assert (Hs5 := Hf _ (or_intror (or_intror (or_intror (or_intror (or_introl eq_refl)))))).
    assert (Hs6 := Hf _ (or_intror (or_intror (or_intror (or_intror
                            (or_intror (or_introl eq_refl))))))).
    subst ps. unfold JobsFilters.applyFilters. cbv zeta. cbn [href_params].
    now peel_params.
  - unfold JobsFilters.hasActiveFilters. split.
    + intros Hact. rewrite !orb_true_iff in Hact.
      destruct Hact as [[[[[Hc|Hc]|Hc]|Hc]|Hc]|Hc].
      * exists (lit "search"). split; [simpl; tauto|]. now rewrite H1, Hc.
      * exists (lit "location"). split; [simpl; tauto|]. now rewrite H2, Hc.
      * exists (lit "category"). split; [simpl; tauto|]. now rewrite H3, Hc.
      * exists (lit "experience"). split; [simpl; tauto|]. now rewrite H4, Hc.
      * exists (lit "remote"). split; [simpl; tauto|]. now rewrite H5, Hc.
      * exists (lit "sort"). split; [simpl; tauto|]. now rewrite H6, Hc.
    + intros (name & Hname & Hne). rewrite !orb_true_iff.
      destruct Hname as [<-|[<-|[<-|[<-|[<-|[<-|[]]]]]]].
      * rewrite H1 in Hne. do 5 left. apply not_false_is_true. intros Hc.
        now rewrite Hc in Hne.
      * rewrite H2 in Hne. do 4 left. right. apply not_false_is_true. intros Hc.
        now rewrite Hc in Hne.
      * rewrite H3 in Hne. do 3 left. right. apply not_false_is_true. intros Hc.
        now rewrite Hc in Hne.
      * rewrite H4 in Hne. do 2 left. right. apply not_false_is_true. intros Hc.
        now rewrite Hc in Hne.
      * rewrite H5 in Hne. left. right. apply not_false_is_true. intros Hc.
        now rewrite Hc in Hne.
      * rewrite H6 in Hne. right. apply not_false_is_true. intros Hc.
        now rewrite Hc in Hne.
Qed.

(** ** The job card *)

Lemma removeTags_cons (u : N) (rest : jsstring) :
  JobCard.removeTags (u :: rest) =
  if (u =? 0x3C)%N
  then match afterTag rest with
       | Some t' => JobCard.removeTags t'
       | None => u :: JobCard.removeTags rest
       end
  else u :: JobCard.removeTags rest.
Proof.
  cbn [JobCard.removeTags]. destruct (u =? 0x3C)%N; [|reflexivity].
  assert (Hclosing : forall t,
             (fix closing (t : jsstring) : option jsstring :=
                match t with
                | [] => None
                | v :: t' =>
                    if (v =? 0x3E)%N then Some (JobCard.removeTags t') else closing t'
                end) t = option_map JobCard.removeTags (afterTag t)).
  { induction t as [|v t IH]; [reflexivity|]. simpl.
    destruct (v =? 0x3E)%N; [reflexivity | exact IH]. }
  rewrite Hclosing. now destruct (afterTag rest).
Qed.

Lemma afterTag_None (t : jsstring) : afterTag t = None <-> ~ In 0x3E%N t.
Proof.
  induction t as [|v t IH]; simpl; [tauto|].
  destruct (N.eqb_spec v 0x3E).
  - split; [discriminate | intros Hn; exfalso; apply Hn; now left].
  - rewrite IH. split; [intros Hn [E|Hin]; congruence | tauto].
Qed.

Lemma afterTag_Some (t t' : jsstring) :
  afterTag t = Some t' ->
  exists mid, t = mid ++ 0x3E%N :: t' /\ length t' < length t.
Proof.
  revert t'. induction t as [|v t IH]; intros t'; simpl; [discriminate|].
  destruct (N.eqb_spec v 0x3E) as [->|Hv].
  - intros E. injection E as <-. exists []. split; [reflexivity | lia].
  - intros E. destruct (IH _ E) as (mid & -> & Hlen).
    exists (v :: mid). split; [reflexivity | lia].
Qed.

Lemma removeTags_incl (n : nat) :
  forall s, length s <= n -> forall x, In x (JobCard.removeTags s) -> In x s.
Proof.
  induction n as [|n IH]; intros s Hn x.
  - destruct s; [intros [] | simpl in Hn; lia].
  - destruct s as [|u rest]; [intros []|]. simpl in Hn.
    rewrite removeTags_cons. destruct (u =? 0x3C)%N.
    + destruct (afterTag rest) as [t'|] eqn:Ht.
      * destruct (afterTag_Some _ _ Ht) as (mid & -> & Hlen).
        intros Hx. right. apply in_app_iff. right. right.
        apply (IH t'); [lia | exact Hx].
      * intros [<-|Hx]; [now left|]. right. apply (IH rest); [lia | exact Hx].
    + intros [<-|Hx]; [now left|]. right. apply (IH rest); [lia | exact Hx].
Qed.

(** No "<" of [s] has a ">" after it. *)
Lemma not_HasTag (s : jsstring) :
  ~ HasTag s <-> forall pre post, s = pre ++ 0x3C%N :: post -> ~ In 0x3E%N post.
Proof.
  split.
  - intros Hno pre post -> Hin. apply in_split in Hin.
    destruct Hin as (mid & post' & ->). apply Hno. now exists pre, mid, post'.
  - intros Hall (pre & mid & post & ->). apply (Hall pre (mid ++ [0x3E%N] ++ post)).
    + reflexivity.
    + apply in_app_iff. right. now left.
Qed.

Lemma not_HasTag_cons (u : N) (s : jsstring) :
  ~ HasTag s -> (u = 0x3C%N -> ~ In 0x3E%N s) -> ~ HasTag (u :: s).
Proof.
  rewrite !not_HasTag. intros Hs Hu pre post E.
  destruct pre as [|v pre]; simpl in E; injection E as -> E.
  - subst s. now apply Hu.
  - now apply (Hs pre post).
Qed.

Lemma not_HasTag_tail (u : N) (s : jsstring) : ~ HasTag (u :: s) -> ~ HasTag s.
Proof.
  rewrite !not_HasTag. intros Hs pre post E. apply (Hs (u :: pre) post).
  now rewrite E.
Qed.

Lemma removeTags_no_tag (n : nat) :
  forall s, length s <= n -> ~ HasTag (JobCard.removeTags s).
Proof.
  induction n as [|n IH]; intros s Hn.
  - destruct s; [|simpl in Hn; lia]. intros (pre & mid & post & E).
    now destruct pre.
  - destruct s as [|u rest].
    { intros (pre & mid & post & E). now destruct pre. }
    simpl in Hn. rewrite removeTags_cons.
    destruct (N.eqb_spec u 0x3C) as [->|Hu].
    + destruct (afterTag rest) as [t'|] eqn:Ht.
      * destruct (afterTag_Some _ _ Ht) as (mid & _ & Hlen). apply IH. lia.
      * apply not_HasTag_cons; [apply IH; lia|]. intros _ Hin.
        apply afterTag_None in Ht. apply Ht.
        now apply (removeTags_incl (length rest) rest (le_n _)).
    + apply not_HasTag_cons; [apply IH; lia | congruence].
Qed.

Lemma removeTags_fixed (s : jsstring) : ~ HasTag s -> JobCard.removeTags s = s.
Proof.
  induction s as [|u rest IH]; intros Hno; [reflexivity|].
  rewrite removeTags_cons.
  specialize (IH (not_HasTag_tail _ _ Hno)).
  destruct (N.eqb_spec u 0x3C) as [->|Hu]; [|now rewrite IH].
  destruct (afterTag rest) as [t'|] eqn:Ht; [|now rewrite IH].
  exfalso. destruct (afterTag_Some _ _ Ht) as (mid & -> & _).
  apply Hno. now exists [], mid, t'.
Qed.

Lemma trim_segment (s : jsstring) : exists a b, s = a ++ trim s ++ b.
Proof.
  destruct (trimStart_split s) as (a & Ea & _).
  destruct (trimEnd_split (trimStart s)) as (b & Eb & _).
  exists a, b. unfold trim. now rewrite <- Eb.
Qed.

Lemma not_HasTag_trim (s : jsstring) : ~ HasTag s -> ~ HasTag (trim s).
Proof.
  intros Hno (pre & mid & post & E). apply Hno.
  destruct (trim_segment s) as (a & b & Es). rewrite E in Es.
  exists (a ++ pre), mid, (post ++ b). rewrite Es.
  now rewrite <- !app_assoc.
Qed.

(** X21: [stripHtml] leaves no tag: in its result no "<" has a ">" after
    it, and there is no white space at either end.  Stripping again
    changes nothing, and a text without "<" is only trimmed. *)
Theorem stripHtml_leaves_no_tag (html : option jsstring) :
  let text := JobCard.stripHtml html in
  ~ HasTag text /\ Trimmed text /\
  JobCard.stripHtml (Some text) = text /\
  (forall h, html = Some h -> ~ In 0x3C%N h -> text = trim h).
Proof.
  intros text.
  assert (Hno : ~ HasTag text).
  { subst text. unfold JobCard.stripHtml.
    destruct html as [h|]; [destruct (str_truthy h)|];
      try (intros (pre & mid & post & E); now destruct pre).
    apply not_HasTag_trim. now apply (removeTags_no_tag (length h)). }
  assert (Htrim : Trimmed text).
  { subst text. unfold JobCard.stripHtml.
    destruct html as [h|]; [destruct (str_truthy h)|];
      auto using trim_Trimmed, Trimmed_nil. }
  split; [exact Hno|]. split; [exact Htrim|]. split.
  - unfold JobCard.stripHtml at 1. destruct (str_truthy text) eqn:Ht.
    + rewrite (removeTags_fixed text Hno). now apply Trimmed_trim.
    + now destruct text.
  - intros h -> Hlt. subst text. unfold JobCard.stripHtml.
    destruct (str_truthy h) eqn:Hh; [|now destruct h].
    rewrite removeTags_fixed; [reflexivity|].
    intros (pre & mid & post & E). apply Hlt. rewrite E.
    apply in_app_iff. right. now left.
Qed.

(** ** Gender designations in titles *)

Lemma genderLetter_spec (u : N) : JobCard.genderLetter u = true <-> GenderLetter u.
Proof.
  unfold JobCard.genderLetter, JobCard.asciiUpper, GenderLetter. simpl.
  destruct (N.leb_spec 0x61 u), (N.leb_spec u 0x7A); simpl;
    rewrite !orb_true_iff, !N.eqb_eq; lia.
Qed.

Lemma GenderLetter_not_space (u : N) :
  GenderLetter u -> isWhiteSpace u = false /\ u <> 0x20%N.
Proof.
  unfold GenderLetter. simpl. intros Hu.
  repeat (destruct Hu as [<-|Hu]; [split; [reflexivity | discriminate]|]).
  destruct Hu.
Qed.

Lemma matchDesignation_spec (s rest : jsstring) :
  JobCard.matchDesignation s = Some rest <-> exists d, Designation d /\ s = d ++ rest.
Proof.
  unfold JobCard.matchDesignation. split.
  - destruct s as [|p [|a [|s1 [|b [|s2 [|c [|q rest']]]]]]]; try discriminate.
    destruct ((p =? 0x28)%N && JobCard.genderLetter a && (s1 =? 0x2F)%N &&
              JobCard.genderLetter b && (s2 =? 0x2F)%N && JobCard.genderLetter c &&
              (q =? 0x29)%N) eqn:Hm; [|discriminate].
    intros E. injection E as <-.
    repeat (apply andb_true_iff in Hm; destruct Hm as [Hm ?]).
    repeat match goal with
           | H : (_ =? _)%N = true |- _ => apply N.eqb_eq in H; subst
           | H : JobCard.genderLetter _ = true |- _ => apply genderLetter_spec in H
           end.
    eexists. split; [now exists a, b, c | reflexivity].
  - intros (d & (a & b & c & Ha & Hb & Hc & ->) & ->). simpl.
    apply genderLetter_spec in Ha, Hb, Hc. now rewrite Ha, Hb, Hc.
Qed.

Lemma Designation_chars (d : jsstring) :
  Designation d ->
  Forall (fun u => isWhiteSpace u = false /\ u <> 0x20%N) d /\
  exists k, d = 0x28%N :: k /\ length k = 6.
Proof.
  intros (a & b & c & Ha & Hb & Hc & ->). split.
  - repeat constructor; try discriminate; now apply GenderLetter_not_space.
  - now eexists.
Qed.

Lemma HasDesignation_cons (u : N) (s : jsstring) :
  HasDesignation s -> HasDesignation (u :: s).
Proof. intros (pre & d & post & Hd & ->). now exists (u :: pre), d, post. Qed.

(** A designation in [u :: s] is one in [s], or begins with [u]. *)
Lemma HasDesignation_inv (u : N) (s : jsstring) :
  HasDesignation (u :: s) ->
  HasDesignation s \/
  exists k post, u = 0x28%N /\ s = k ++ post /\ Designation (u :: k).
Proof.
  intros (pre & d & post & Hd & E). destruct pre as [|v pre].
  - right. destruct (Designation_chars d Hd) as (_ & k & -> & _).
    simpl in E. injection E as -> ->. now exists k, post.
  - left. simpl in E. injection E as _ ->. now exists pre, d, post.
Qed.

Lemma matchPattern_shorter (s rest : jsstring) :
  JobCard.matchPattern s = Some rest -> length rest < length s.
Proof.
  unfold JobCard.matchPattern.
  destruct (JobCard.matchDesignation (trimStart s)) as [rest0|] eqn:Hm; [|discriminate].
  intros E. injection E as <-. apply matchDesignation_spec in Hm.
  destruct Hm as (d & Hd & Es). destruct (Designation_chars d Hd) as (_ & k & -> & Hk).
  pose proof (trimStart_length s) as H1. pose proof (trimStart_length rest0) as H2.
  rewrite Es in H1. simpl in H1. rewrite length_app in H1. lia.
Qed.

(** What [replaceDesignations] gives begins with the code units of its
    input, as far as no space comes. *)
Lemma replaceDesignations_prefix (k : jsstring) :
  forall fuel s post,
    JobCard.replaceDesignations fuel s = k ++ post ->
    Forall (fun u => isWhiteSpace u = false /\ u <> 0x20%N) k ->
    exists post', s = k ++ post'.
Proof.
  induction k as [|x k IH]; intros fuel s post E Hk; [now exists s|].
  inversion Hk as [|y l [_ Hx] Hk']; subst.
  destruct fuel as [|fuel]; [now exists post|].
  cbn [JobCard.replaceDesignations] in E.
  destruct (JobCard.matchPattern s) as [rest|].
  - simpl in E. injection E as E _. congruence.
  - destruct s as [|u s']; [discriminate|]. simpl in E. injection E as -> E.
    destruct (IH _ _ _ E Hk') as (post' & ->). now exists post'.
Qed.

Lemma replaceDesignations_clean (fuel : nat) :
  forall s, length s < fuel -> ~ HasDesignation (JobCard.replaceDesignations fuel s).
Proof.
  induction fuel as [|fuel IH]; intros s Hlen; [lia|].
  cbn [JobCard.replaceDesignations].
  destruct (JobCard.matchPattern s) as [rest|] eqn:Hm.
  - apply matchPattern_shorter in Hm. intros Hd.
    apply HasDesignation_inv in Hd. destruct Hd as [Hd | (k & post & E & _)].
    + apply (IH rest); [lia | exact Hd].
    + discriminate E.
  - destruct s as [|u s'].
    { intros (pre & d & post & Hd & E).
      destruct (Designation_chars d Hd) as (_ & k & -> & _). now destruct pre. }
    simpl in Hlen. intros Hd. apply HasDesignation_inv in Hd.
    destruct Hd as [Hd | (k & post & -> & E & Hd)].
    + apply (IH s'); [lia | exact Hd].
    + destruct (Designation_chars _ Hd) as (Hchars & _).
      inversion Hchars as [|y l _ Hk]; subst.
      destruct (replaceDesignations_prefix k _ _ _ E Hk) as (post' & ->).
      assert (Hsome : JobCard.matchDesignation (0x28%N :: k ++ post') = Some post').
      { apply matchDesignation_spec. now exists (0x28%N :: k). }
      unfold JobCard.matchPattern in Hm. cbn [trimStart] in Hm.
      change (isWhiteSpace 0x28) with false in Hm. cbv iota in Hm.
      now rewrite Hsome in Hm.
Qed.

Lemma collapseSpaces_prefix (k : jsstring) :
  forall s post,
    JobCard.collapseSpaces false s = k ++ post ->
    Forall (fun u => isWhiteSpace u = false /\ u <> 0x20%N) k ->
    exists post', s = k ++ post'.
Proof.
  induction k as [|x k IH]; intros s post E Hk; [now exists s|].
  inversion Hk as [|y l [Hx Hx'] Hk']; subst.
  destruct s as [|u s']; [discriminate|]. cbn [JobCard.collapseSpaces] in E.
  destruct (isWhiteSpace u) eqn:Hu.
  - simpl in E. injection E as E _. congruence.
  - simpl in E. injection E as -> E.
    destruct (IH _ _ E Hk') as (post' & ->). now exists post'.
Qed.

Lemma collapseSpaces_clean (s : jsstring) :
  ~ HasDesignation s -> forall b, ~ HasDesignation (JobCard.collapseSpaces b s).
Proof.
  induction s as [|u s IH]; intros Hno b; [exact Hno|].
  assert (Hs : ~ HasDesignation s) by (intros Hd; now apply Hno, HasDesignation_cons).
  cbn [JobCard.collapseSpaces]. destruct (isWhiteSpace u) eqn:Hu.
  - destruct b; [now apply IH|]. intros Hd. apply HasDesignation_inv in Hd.
    destruct Hd as [Hd | (k & post & E & _)]; [now apply (IH Hs true) | discriminate E].
  - intros Hd. apply HasDesignation_inv in Hd.
    destruct Hd as [Hd | (k & post & -> & E & Hd)]; [now apply (IH Hs false)|].
    destruct (Designation_chars _ Hd) as (Hchars & _).
    inversion Hchars as [|y l _ Hk]; subst.
    destruct (collapseSpaces_prefix k _ _ E Hk) as (post' & ->).
    apply Hno. now exists [], (0x28%N :: k), post'.
Qed.

Lemma HasDesignation_segment (a s b : jsstring) :
  HasDesignation s -> HasDesignation (a ++ s ++ b).
Proof.
  intros (pre & d & post & Hd & ->). exists (a ++ pre), d, (post ++ b).
  split; [exact Hd|]. now rewrite <- !app_assoc.
Qed.

Lemma SingleSpaced_segment (a s b : jsstring) :
  SingleSpaced (a ++ s ++ b) -> SingleSpaced s.
Proof.
  intros Hall pre u post -> Hu.
  destruct (Hall (a ++ pre) u (post ++ b)) as [E Hnext];
    [now rewrite <- !app_assoc | exact Hu |].
  split; [exact E|]. intros v post' ->. now apply (Hnext v (post' ++ b)).
Qed.

Lemma collapseSpaces_spaced (s : jsstring) :
  forall b,
    SingleSpaced (JobCard.collapseSpaces b s) /\
    (b = true ->
     forall u rest, JobCard.collapseSpaces b s = u :: rest -> isWhiteSpace u = false).
Proof.
  induction s as [|u s IH]; intros b.
  - split; [intros pre v post E; now destruct pre | discriminate].
  - cbn [JobCard.collapseSpaces]. destruct (isWhiteSpace u) eqn:Hu.
    + destruct b; [apply IH|]. destruct (IH true) as [Hsp Hhead]. split; [|discriminate].
      intros pre v post E Hv. destruct pre as [|x pre]; simpl in E.
      * injection E as <- <-. split; [reflexivity|].
        intros w post' E'. now apply (Hhead eq_refl w post').
      * injection E as _ E. now apply (Hsp pre v post).
    + destruct (IH false) as [Hsp _]. split.
      * intros pre v post E Hv. destruct pre as [|x pre]; simpl in E.
        -- injection E as <- _. congruence.
        -- injection E as _ E. now apply (Hsp pre v post).
      * intros _ v rest E. injection E as <- _. exact Hu.
Qed.

(** X22: what [stripGenderDesignation] returns has no gender designation
    left in it, whatever the case and the order of the letters and wherever
    it stood; its white space is single spaces between words, with none at
    either end. *)
Theorem stripGenderDesignation_cleans (text : option jsstring) :
  let out := JobCard.stripGenderDesignation text in
  ~ HasDesignation out /\ SingleSpaced out /\ Trimmed out /\
  JobCard.stripGenderDesignation (Some (lit "Entwickler (m/w/d) Backend"))
  = lit "Entwickler Backend" /\
  JobCard.stripGenderDesignation (Some (lit "(W/M/D)  Data   Engineer")) = lit "Data Engineer" /\
  JobCard.stripGenderDesignation (Some (lit "(m/w/d)")) = [].
Proof.
  intros out.
  assert (Hnil : ~ HasDesignation []).
  { intros (pre & d & post & Hd & E).
    destruct (Designation_chars d Hd) as (_ & k & -> & _). now destruct pre. }
  split; [|split; [|split; [|repeat split; vm_compute; reflexivity]]].
  - subst out. unfold JobCard.stripGenderDesignation.
    destruct text as [t|]; [destruct (str_truthy t)|]; try exact Hnil.
    intros Hd.
    destruct (trim_segment
                (JobCard.collapseSpaces false
                   (JobCard.replaceDesignations (S (length t)) t))) as (a & b & E).
    apply (HasDesignation_segment a _ b) in Hd. rewrite <- E in Hd.
    revert Hd. apply collapseSpaces_clean, replaceDesignations_clean. lia.
  - subst out. unfold JobCard.stripGenderDesignation.
    destruct text as [t|]; [destruct (str_truthy t)|];
      try (intros pre v post E; now destruct pre).
    destruct (trim_segment
                (JobCard.collapseSpaces false
                   (JobCard.replaceDesignations (S (length t)) t))) as (a & b & E).
    apply (SingleSpaced_segment a _ b). rewrite <- E. apply collapseSpaces_spaced.
  - subst out. unfold JobCard.stripGenderDesignation.
    destruct text as [t|]; [destruct (str_truthy t)|];
      auto using trim_Trimmed, Trimmed_nil.
Qed.

(** ** The "Remote" badge and the snippet *)

Lemma isPrefixOf_spec (p s : jsstring) :
  isPrefixOf p s = true <-> exists post, s = p ++ post.
Proof.
  revert s. induction p as [|a p IH]; intros s; simpl.
  - split; [now exists s | reflexivity].
  - destruct s as [|b s]; [split; [discriminate | intros (post & E); discriminate E]|].
    rewrite andb_true_iff, N.eqb_eq, IH. split.
    + intros (-> & post & ->). now exists post.
    + intros (post & E). injection E as -> ->. split; [reflexivity | now exists post].
Qed.

Lemma includes_spec (needle s : jsstring) :
  includes needle s = true <-> exists pre post, s = pre ++ needle ++ post.
Proof.
  induction s as [|b s IH]; simpl.
  - rewrite orb_false_r, isPrefixOf_spec. split.
    + intros (post & E). now exists [], post.
    + intros (pre & post & E). destruct pre; [now exists post|discriminate E].
  - rewrite orb_true_iff, isPrefixOf_spec, IH. split.
    + intros [(post & E) | (pre & post & ->)]; [now exists [], post|].
      now exists (b :: pre), post.
    + intros (pre & post & E). destruct pre as [|x pre]; simpl in E.
      * left. now exists post.
      * right. injection E as _ ->. now exists pre, post.
Qed.

Lemma asciiUpper_letter (u c : N) :
  (0x41 <= c <= 0x5A)%N ->
  JobCard.asciiUpper u = c <-> u = c \/ u = (c + 0x20)%N.
Proof.
  intros Hc. unfold JobCard.asciiUpper.
  destruct (N.leb_spec 0x61 u), (N.leb_spec u 0x7A); simpl; lia.
Qed.

Lemma SpellsRemote_spec (w : jsstring) :
  map JobCard.asciiUpper w = lit "REMOTE" <-> SpellsRemote w.
Proof.
  unfold SpellsRemote.
  assert (Hall : Forall (fun c => (0x41 <= c <= 0x5A)%N) (lit "REMOTE"))
    by (repeat constructor; vm_compute; discriminate).
  revert Hall. generalize (lit "REMOTE"). intros k. revert w.
  induction k as [|c k IH]; intros w Hall.
  - destruct w; split; try discriminate; try constructor. intros Hw. inversion Hw.
  - inversion Hall as [|x l Hc Hk]; subst. destruct w as [|u w].
    + split; [discriminate | intros Hw; inversion Hw].
    + simpl. split.
      * intros E. injection E as Eu Ew. constructor.
        -- now apply asciiUpper_letter.
        -- now apply IH.
      * intros Hw. inversion Hw as [|? ? ? ? Hu Hw']; subst. f_equal.
        -- now apply asciiUpper_letter.
        -- now apply IH.
Qed.

(** X23: the "Remote" badge shows exactly for a location that has the
    word "remote" somewhere in it, each letter in either case: for the
    location "Remote" that ingestion defaults to, not for "Worldwide", not
    for a job without a location. *)
Theorem isRemote_finds_the_word (loc : option jsstring) :
  (JobCard.isRemote loc = true <->
   exists pre w post, loc = Some (pre ++ w ++ post) /\ SpellsRemote w) /\
  JobCard.isRemote (Some (orRemote None)) = true /\
  JobCard.isRemote (Some (lit "Fully REMOTE (EU)")) = true /\
  JobCard.isRemote (Some (lit "Worldwide")) = false /\
  cv_remote (JobCard.JobCard (mkCardJob None None None None None None None None)) = false.
Proof.
  split; [|repeat split; vm_compute; reflexivity].
  unfold JobCard.isRemote. destruct loc as [l|].
  - destruct (str_truthy l) eqn:Hl.
    + rewrite includes_spec. split.
      * intros (pre' & post' & E). apply map_eq_app in E.
        destruct E as (pre & rest & -> & _ & E).
        apply map_eq_app in E. destruct E as (w & post & -> & Ew & _).
        exists pre, w, post. split; [reflexivity | now apply SpellsRemote_spec].
      * intros (pre & w & post & E & Hw). injection E as ->.
        apply SpellsRemote_spec in Hw.
        exists (map JobCard.asciiUpper pre), (map JobCard.asciiUpper post).
        now rewrite !map_app, Hw.
    + destruct l; [|discriminate]. split; [discriminate|].
      intros (pre & w & post & E & Hw). injection E as E.
      symmetry in E. apply app_eq_nil in E. destruct E as [_ E].
      apply app_eq_nil in E. destruct E as [-> _]. inversion Hw.
  - split; [discriminate | now intros (pre & w & post & E & _)].
Qed.

(** X24: the snippet of a card is the first 160 code units of the
    description without its tags, and the ellipsis follows it exactly when
    that cut something off.  The title of a card is the title of the job
    without gender designations, or the title as it is when nothing else
    would be left, so a job with a title never shows an empty one. *)
Theorem JobCard_snippet_and_title (job : CardJob) :
  let v := JobCard.JobCard job in
  let text := JobCard.stripHtml (cj_description job) in
  let stripped := JobCard.stripGenderDesignation (cj_title job) in
  cv_snippet v = firstn 160 text /\ length (cv_snippet v) <= 160 /\
  (cv_ellipsis v = true <-> 160 < length text) /\
  (cv_ellipsis v = false <-> cv_snippet v = text) /\
  (stripped <> [] -> cv_title v = stripped) /\
  (stripped = [] -> cv_title v = default [] (cj_title job)) /\
  (cv_title v = [] <-> default [] (cj_title job) = []).
Proof.
  intros v text stripped. subst v. unfold JobCard.JobCard. cbv zeta.
  cbn [cv_snippet cv_ellipsis cv_title]. fold text. fold stripped. unfold slice0.
  assert (Hlen : length (firstn 160 text) = Nat.min 160 (length text))
    by apply length_firstn.
  assert (Hell : str_truthy (firstn 160 text) && (160 <? length text) = true <->
                 160 < length text).
  { rewrite andb_true_iff, Nat.ltb_lt. split; [tauto|]. intros Hlt. split; [|exact Hlt].
    apply str_truthy_nonempty. intros E. rewrite E in Hlen.
    change (length (@nil N)) with 0 in Hlen. lia. }
  assert (Htitle : JobCard.orString stripped
                     (JobCard.orString (default [] (cj_title job)) []) =
                   if str_truthy stripped then stripped else default [] (cj_title job)).
  { unfold JobCard.orString. destruct (str_truthy stripped); [reflexivity|].
    now destruct (default [] (cj_title job)). }
  rewrite Htitle.
  split; [reflexivity|]. split; [lia|]. split; [exact Hell|]. split.
  - rewrite <- not_true_iff_false, Hell. split.
    + intros Hle. apply firstn_all2. lia.
    + intros E Hlt. rewrite E in Hlen. lia.
  - split; [|split].
    + intros Hne. apply str_truthy_nonempty in Hne. now rewrite Hne.
    + intros ->. reflexivity.
    + destruct (str_truthy stripped) eqn:Hs.
      * apply str_truthy_nonempty in Hs. split; [contradiction|].
        intros E. exfalso. apply Hs. subst stripped.
        unfold JobCard.stripGenderDesignation.
        destruct (cj_title job) as [t|]; [|reflexivity]. simpl in E. now subst t.
      * tauto.
Qed.

(** X25: the link the search bar pushes.  It goes to [/jobs] with page 0,
    with the search and the location trimmed, each once when it is not
    blank and not at all when it is, and with no other parameter: the
    filters of the current URL are not carried over. *)
Theorem search_bar_link (search location : jsstring) :
  let link := JobsSearchBar.handleSubmit search location in
  let ps := href_params link in
  href_path link = lit "/jobs" /\
  paramsGetAll (lit "page") ps = [lit "0"] /\
  paramsGetAll (lit "search") ps = onceIf (str_truthy (trim search)) (trim search) /\
  paramsGetAll (lit "location") ps =
    onceIf (str_truthy (trim location)) (trim location) /\
  (forall name,
     ~ In (usv name) [lit "page"; lit "search"; lit "location"] ->
     paramsGetAll name ps = []) /\
  length ps = 1 + length (paramsGetAll (lit "search") ps)
                + length (paramsGetAll (lit "location") ps).
Proof.
  intros link ps. subst ps link. unfold JobsSearchBar.handleSubmit.
  cbv zeta. cbn [href_params href_path].
  split; [reflexivity|].
  split; [now peel_params|].
  split; [destruct (str_truthy (trim search)), (str_truthy (trim location));
          now peel_params|].
  split; [destruct (str_truthy (trim search)), (str_truthy (trim location));
          now peel_params|].
  split.
  - intros name Hname.
    assert (Hp : usv name <> lit "page") by (intros E; apply Hname; now left).
    assert (Hs : usv name <> lit "search")
      by (intros E; apply Hname; right; now left).
    assert (Hl : usv name <> lit "location")
      by (intros E; apply Hname; right; right; now left).
    destruct (str_truthy (trim search)), (str_truthy (trim location));
      now peel_params.
  - destruct (str_truthy (trim search)), (str_truthy (trim location));
      peel_params; reflexivity.
Qed.

(** ** The Jobicy adapter of lib/sources and the second LinkedIn scraper *)

Section JobicySourceFacts.
Context {number : Type} `{JsNumber number}.


Lemma truthy_JStr (s : jsstring) : truthy (JStr s : JsValue number) = str_truthy s.
Proof. reflexivity. Qed.

End JobicySourceFacts.


(** X27: the rows the second LinkedIn scraper collects.  A [data] event
    adds a row exactly when it has a link that is not blank; every row has
    the source "LinkedIn" and the link as it came, so the filter of the
    [end] handler on the length of the URL never drops a row: the rows
    handed to [upsert] are the rows collected, in the order of the
    events. *)
Theorem spinlud_rows_have_links (events : list Spinlud.ScraperData) :
  let jobs := fold_left Spinlud.onData events [] in
  Spinlud.rowsOf jobs = jobs /\
  jobs = map Spinlud.mapJobToRow
           (List.filter (fun d => str_truthy (trim (default [] (Spinlud.sd_link d)))) events) /\
  Forall (fun r => trim (Spinlud.lr_job_url r) <> [] /\
                   Spinlud.lr_source r = lit "LinkedIn") jobs /\
  length jobs <= length events.
Proof.
  intros jobs.
  assert (Hfold : forall acc,
             fold_left Spinlud.onData events acc =
             acc ++ map Spinlud.mapJobToRow
                      (List.filter
                         (fun d => str_truthy (trim (default [] (Spinlud.sd_link d))))
                         events)).
  { induction events as [|d events IH]; intros acc; simpl.
    - now rewrite app_nil_r.
    - rewrite IH. unfold Spinlud.onData.
      destruct (Spinlud.sd_link d) as [link|]; simpl.
      + destruct (str_truthy (trim link)); simpl; [now rewrite <- app_assoc | reflexivity].
      + reflexivity. }
  assert (Ejobs : jobs = map Spinlud.mapJobToRow
                           (List.filter
                              (fun d => str_truthy (trim (default [] (Spinlud.sd_link d))))
                              events))
    by (subst jobs; now rewrite Hfold).
  assert (Hall : Forall (fun r => trim (Spinlud.lr_job_url r) <> [] /\
                                  Spinlud.lr_source r = lit "LinkedIn") jobs).
  { rewrite Ejobs. apply List.Forall_forall. intros r Hr. apply in_map_iff in Hr.
    destruct Hr as (d & <- & Hd). apply filter_In in Hd. destruct Hd as [_ Hd].
    split; [now apply str_truthy_nonempty | reflexivity]. }
  split; [|split; [exact Ejobs|split; [exact Hall|]]].
  - unfold Spinlud.rowsOf. clear Ejobs. induction Hall as [|r l [Hr _] _ IH]; [reflexivity|].
    simpl. destruct (Spinlud.lr_job_url r) as [|u url] eqn:Hurl; [now destruct Hr|].
    simpl. rewrite IH. f_equal. destruct r. simpl in *. now rewrite Hurl.
  - rewrite Ejobs, length_map. apply filter_length_le.
Qed.
